(** * ppt2md: the PPTX-to-Markdown conversion worker ([PPTXConverter.run])

    A shallow embedding of the conversion thread of [src/main.py] and the
    properties of its output document, its progress events and its terminal
    result.  The Qt user interface of the file is not modelled: it only starts
    the worker and listens to its three signals.

    What the worker calls is modelled as far as [run] observes it: Python
    strings, [os.path] on POSIX paths, the float arithmetic of the progress
    percentage, the deck as python-pptx presents it, and a file system on
    which reading the source and writing the destination can fail.  A run is
    the sequence of its effects, signals emitted and files written, in
    order. *)

From Stdlib Require Import ZArith Reals Lra Lia Psatz Ascii String DecimalString SpecFloat.
From stdpp Require Import base list strings gmap.

(** ** Python strings

    A Python [str] is a sequence of code points.  The embedding uses Rocq's
    [string]; an [ascii] stands for the code point of the same number, so the
    model covers the texts over U+0000..U+00FF. *)

Definition nl : string := String "010"%char "".

(** [str.isspace] on one code point, restricted to the code points below 256:
    TAB..CR, FS..US, SPACE, NEL and NBSP. *)
Definition isspace (c : ascii) : bool :=
  let n := nat_of_ascii c in
  ((9 <=? n)%nat && (n <=? 13)%nat) || ((28 <=? n)%nat && (n <=? 32)%nat)
  || (n =? 133)%nat || (n =? 160)%nat.

Fixpoint lstrip (s : string) : string :=
  match s with
  | EmptyString => EmptyString
  | String c s' => if isspace c then lstrip s' else s
  end.

Fixpoint rstrip (s : string) : string :=
  match s with
  | EmptyString => EmptyString
  | String c s' =>
      match rstrip s' with
      | EmptyString => if isspace c then EmptyString else String c EmptyString
      | r => String c r
      end
  end.

(** [s.strip()] *)
Definition strip (s : string) : string := rstrip (lstrip s).

(** Truth value of a [str]: the empty string is false. *)
Definition str_bool (s : string) : bool :=
  match s with EmptyString => false | String _ _ => true end.

(** [str(n)] for a non-negative integer. *)
Definition str_of_nat (n : nat) : string := NilEmpty.string_of_uint (Nat.to_uint n).

(** [s.rfind(c)]: the highest index of [c] in [s], or -1. *)
Fixpoint rfind (c : ascii) (s : string) : Z :=
  match s with
  | EmptyString => (-1)%Z
  | String a s' =>
      let r := rfind c s' in
      if (0 <=? r)%Z then (r + 1)%Z
      else if Ascii.eqb a c then 0%Z else (-1)%Z
  end.

(** [s[n:]] and [s[:n]] for [0 <= n]. *)
Fixpoint str_drop (n : nat) (s : string) : string :=
  match n, s with
  | O, _ => s
  | S n', String _ s' => str_drop n' s'
  | S _, EmptyString => EmptyString
  end.

Fixpoint str_take (n : nat) (s : string) : string :=
  match n, s with
  | S n', String c s' => String c (str_take n' s')
  | _, _ => EmptyString
  end.

(** [os.path.basename] (posixpath): [i = p.rfind('/') + 1; return p[i:]]. *)
Definition basename (p : string) : string :=
  let i := (rfind "/"%char p + 1)%Z in
  str_drop (Z.to_nat i) p.

(** [os.path.splitext(p)[0]] (posixpath): the extension starts at the last dot
    of the last path component, unless that component is made of leading dots
    only up to it. *)
Fixpoint all_dots (s : string) : bool :=
  match s with
  | EmptyString => true
  | String c s' => Ascii.eqb c "."%char && all_dots s'
  end.

Definition splitext_root (p : string) : string :=
  let sepIndex := rfind "/"%char p in
  let dotIndex := rfind "."%char p in
  if (sepIndex <? dotIndex)%Z then
    let filenameIndex := Z.to_nat (sepIndex + 1) in
    let before := str_drop filenameIndex (str_take (Z.to_nat dotIndex) p) in
    if all_dots before then p else str_take (Z.to_nat dotIndex) p
  else p.

(** The lines of a text: the pieces between line feeds. *)
Fixpoint lines (s : string) : list string :=
  match s with
  | EmptyString => [EmptyString]
  | String c s' =>
      if Ascii.eqb c "010"%char then EmptyString :: lines s'
      else match lines s' with
           | l :: ls => String c l :: ls
           | [] => [String c EmptyString]
           end
  end.

(** A line that opens a level-2 heading, and a horizontal-rule line. *)
Definition is_h2_line (l : string) : bool := String.prefix "## " l.
Definition is_hr_line (l : string) : bool := String.eqb l "---".

Definition count_lines (P : string → bool) (doc : string) : nat :=
  length (filter (λ l, P l = true) (lines doc)).

(** [s.encode('utf-8')] on code points below 256: one byte below 128, two
    bytes otherwise. *)
Fixpoint utf8_encode (s : string) : string :=
  match s with
  | EmptyString => EmptyString
  | String c s' =>
      let n := nat_of_ascii c in
      if (n <? 128)%nat then String c (utf8_encode s')
      else String (ascii_of_nat (192 + n / 64))
             (String (ascii_of_nat (128 + n mod 64)) (utf8_encode s'))
  end.

(** ** Python floats

    [i / total_slides] on two ints is the correctly rounded quotient in IEEE 754
    binary64, [x * 100] is the correctly rounded product and [int(x)] truncates.
    Only non-negative finite values occur in [run]; such a value is kept as
    [Fnum * 2 ^ Fexp].  Rounding is to nearest, ties to even, on 53 bits; the
    operands of [run] (a quotient of two slide counts, then a product below
    128) stay far inside the exponent range of binary64, so neither overflow nor
    gradual underflow is part of the model. *)

Local Open Scope Z_scope.

Record pyfloat := { Fnum : Z; Fexp : Z }.

Definition float_zero : pyfloat := {| Fnum := 0; Fexp := 0 |}.

(** [p / 2^e] as a fraction of integers: [scale_num p e / scale_den 1 e]. *)
Definition scale_num (p e : Z) : Z := if e <? 0 then p * 2 ^ (- e) else p.
Definition scale_den (q e : Z) : Z := if e <? 0 then q else q * 2 ^ e.

(** The exponent [e] of the binade of [p / q]: [2^52 <= (p/q) / 2^e < 2^53]. *)
Definition ratio_exponent (p q : Z) : Z :=
  let e0 := Z.log2 p - Z.log2 q - 52 in
  if scale_num p e0 <? scale_den q e0 * 2 ^ 52 then e0 - 1 else e0.

(** Round the positive rational [p / q] to the nearest binary64 value, ties to
    the even significand. *)
Definition round_half_even (p q : Z) : pyfloat :=
  let e := ratio_exponent p q in
  let a := scale_num p e in
  let b := scale_den q e in
  let m := a / b in
  let r := a mod b in
  let m' := match 2 * r ?= b with
            | Lt => m
            | Gt => m + 1
            | Eq => if Z.even m then m else m + 1
            end in
  if m' =? 2 ^ 53 then {| Fnum := 2 ^ 52; Fexp := e + 1 |}
  else {| Fnum := m'; Fexp := e |}.

Definition float_of_ratio (p q : Z) : pyfloat :=
  if p =? 0 then float_zero else round_half_even p q.

(** [float(n)] for an int below [2^53] in absolute value (exact). *)
Definition float_of_int (n : Z) : pyfloat := {| Fnum := n; Fexp := 0 |}.

(** The result of evaluating a Python expression: a value or a raised
    exception, of which [run] only uses [str(e)]. *)
Inductive outcome (A : Type) : Type :=
  | Returns (a : A)
  | Raises (msg : string).
Arguments Returns {A} a.
Arguments Raises {A} msg.

(** [a / b] on ints, [0 <= a]. *)
Definition py_truediv (a b : Z) : outcome pyfloat :=
  if b =? 0 then Raises "division by zero"%string
  else Returns (float_of_ratio a b).

(** [x * y] on floats. *)
Definition float_mul (x y : pyfloat) : pyfloat :=
  let m := Fnum x * Fnum y in
  let e := Fexp x + Fexp y in
  float_of_ratio (scale_num m (- e)) (scale_den 1 (- e)).

(** [int(x)]: truncation (the floor, on a non-negative value). *)
Definition float_to_int (x : pyfloat) : Z :=
  scale_num (Fnum x) (- Fexp x) / scale_den 1 (- Fexp x).

(** [int((i / total_slides) * 100)] *)
Definition progress_percent (i total_slides : Z) : outcome Z :=
  match py_truediv i total_slides with
  | Raises e => Raises e
  | Returns x => Returns (float_to_int (float_mul x (float_of_int 100)))
  end.

(** The same expression evaluated with the Standard Library's specification
    of IEEE 754 arithmetic ([SpecFloat], binary64 is [prec = 53],
    [emax = 1024]); [percent_float_is_IEEE] below proves that the model above
    computes the same float for all ints below [2^53]. *)
Definition SF_of_int (n : Z) : spec_float := binary_normalize 53 1024 n 0 false.

Definition SF_percent_float (i total_slides : Z) : spec_float :=
  SFmul 53 1024 (SFdiv 53 1024 (SF_of_int i) (SF_of_int total_slides)) (SF_of_int 100).

Definition SF_of_pyfloat (x : pyfloat) : spec_float :=
  match Fnum x with
  | Zpos m => S754_finite false m (Fexp x)
  | _ => S754_zero false
  end.

Definition percent_float (i total_slides : Z) : pyfloat :=
  float_mul (float_of_ratio i total_slides) (float_of_int 100).

Local Close Scope Z_scope.

(** ** The deck, as python-pptx presents it

    A shape object proxies an XML element of the slide; two shape objects are
    equal when they proxy the same element ([BaseShape.__eq__]), so a shape is
    an element identity together with its text, when its class has a [text]
    attribute at all (pictures, graphic frames, groups and connectors have
    none).  [slide.shapes] iterates over [shape_list]; [slide.shapes.title] is
    the title placeholder, or [None]. *)

Record Shape := { element : nat; text : option string }.
(* [hasattr(shape, "text")] is [text shape <> None] *)

Record SlideShapes := { shape_list : list Shape; title : option Shape }.

Record Slide := { shapes : SlideShapes }.

Record Prs := { slides : list Slide }.

(** [shape != slide.shapes.title]: identity of the proxied element; a shape
    differs from [None]. *)
Definition shape_ne (shape : Shape) (t : option Shape) : bool :=
  match t with
  | None => true
  | Some ts => negb (element shape =? element ts)%nat
  end.

(** ** The world of a run: files, the deck reader and the signals *)

(** What [open(path, 'w')] followed by [f.write(data)] does: both succeed, or
    [open] raises and the file system is untouched, or the file is created
    (truncated) and the write raises after [written] bytes reached it. *)
Inductive WriteOutcome :=
  | WriteOk
  | OpenRaises (msg : string)
  | WriteRaises (msg : string) (written : nat).

Record Env := {
  (** python-pptx on the bytes of a file: the deck, or the raised error *)
  load_package : string → outcome Prs;
  (** the operating system on writing [data] at [path] *)
  os_write : string → string → WriteOutcome
}.

(** [Presentation(path)] *)
Definition Presentation (env : Env) (fs : gmap string string) (path : string) : outcome Prs :=
  match fs !! path with
  | None => Raises ("Package not found at '" +:+ path +:+ "'")
  | Some bytes => load_package env bytes
  end.

Inductive Signal :=
  | progress_signal (value : Z)
  | finished_signal (path : string)
  | error_signal (msg : string).

(** What a run does to the outside, in order: it emits a signal or it gives a
    file a new content. *)
Inductive Effect :=
  | Emit (s : Signal)
  | FsPut (path content : string).

Definition apply_effect (fs : gmap string string) (e : Effect) : gmap string string :=
  match e with
  | Emit _ => fs
  | FsPut path content => <[path := content]> fs
  end.

(** The file system after a sequence of effects. *)
Definition fs_after (fs : gmap string string) (es : list Effect) : gmap string string :=
  foldl apply_effect fs es.

(** ** [PPTXConverter] *)

Record PPTXConverter := { pptx_path : string; output_path : string }.

(** [__init__]: [output_path or os.path.splitext(pptx_path)[0] + '.md'] *)
Definition PPTXConverter_init (pptx : string) (output : option string) : PPTXConverter :=
  let default := splitext_root pptx +:+ ".md" in
  {| pptx_path := pptx;
     output_path := match output with
                    | Some o => if str_bool o then o else default
                    | None => default
                    end |}.

(** The text of one slide's heading: the title placeholder's [text] when the
    slide has a title placeholder, else ["Slide {i+1}"].  A title object
    without a [text] attribute raises [AttributeError] (whose message names the
    object's class, which the model leaves out). *)
Definition slide_heading (i : nat) (slide : Slide) : outcome string :=
  match title (shapes slide) with
  | Some t =>
      match text t with
      | Some s => Returns s
      | None => Raises "object has no attribute 'text'"
      end
  | None => Returns ("Slide " +:+ str_of_nat (i + 1))
  end.

(** The guard of the inner loop and the text it appends:
    [hasattr(shape, "text") and shape.text.strip() and shape != slide.shapes.title]. *)
Definition shape_block (shape : Shape) (t : option Shape) : option string :=
  match text shape with
  | Some s => if str_bool (strip s) && shape_ne shape t then Some s else None
  | None => None
  end.

(** [for shape in slide.shapes: if ...: md_content += f"{shape.text}\n\n"] *)
Fixpoint shapes_loop (shs : list Shape) (t : option Shape) (md_content : string) : string :=
  match shs with
  | [] => md_content
  | shape :: rest =>
      shapes_loop rest t
        match shape_block shape t with
        | Some s => md_content +:+ (s +:+ nl +:+ nl)
        | None => md_content
        end
  end.

(** [for i, slide in enumerate(prs.slides): ...], from index [i] on: the
    progress signals emitted, and the accumulated document or the exception
    that left the loop. *)
Fixpoint slides_loop (total_slides : Z) (i : nat) (sl : list Slide) (md_content : string)
  : list Signal * outcome string :=
  match sl with
  | [] => ([], Returns md_content)
  | slide :: rest =>
      match progress_percent (Z.of_nat i) total_slides with
      | Raises e => ([], Raises e)
      | Returns v =>
          match slide_heading i slide with
          | Raises e => ([progress_signal v], Raises e)
          | Returns h =>
              let md1 := md_content +:+ ("## " +:+ h +:+ nl +:+ nl) in
              let md2 := shapes_loop (shape_list (shapes slide)) (title (shapes slide)) md1 in
              let md3 := md2 +:+ ("---" +:+ nl +:+ nl) in
              let '(evs, r) := slides_loop total_slides (S i) rest md3 in
              (progress_signal v :: evs, r)
          end
      end
  end.

(** [run]: every exception of the body ends in [error_signal.emit(str(e))]. *)
Definition run (env : Env) (fs : gmap string string) (self : PPTXConverter) : list Effect :=
  match Presentation env fs (pptx_path self) with
  | Raises e => [Emit (error_signal e)]
  | Returns prs =>
      let total_slides := Z.of_nat (length (slides prs)) in
      let md_content := "# " +:+ basename (pptx_path self) +:+ nl +:+ nl in
      let '(evs, r) := slides_loop total_slides 0 (slides prs) md_content in
      match r with
      | Raises e => (Emit <$> evs) ++ [Emit (error_signal e)]
      | Returns md =>
          let data := utf8_encode md in
          match os_write env (output_path self) data with
          | OpenRaises e => (Emit <$> evs) ++ [Emit (error_signal e)]
          | WriteRaises e written =>
              (Emit <$> evs)
              ++ [FsPut (output_path self) ""; FsPut (output_path self) (str_take written data);
                  Emit (error_signal e)]
          | WriteOk =>
              (Emit <$> evs)
              ++ [FsPut (output_path self) ""; FsPut (output_path self) data;
                  Emit (progress_signal 100); Emit (finished_signal (output_path self))]
          end
      end
  end.

(** ** Observations on a run *)

Definition signal_of (e : Effect) : option Signal :=
  match e with Emit s => Some s | FsPut _ _ => None end.

(** The signals of a run, in emission order. *)
Definition signals (es : list Effect) : list Signal := omap signal_of es.

Definition progress_value (s : Signal) : option Z :=
  match s with progress_signal v => Some v | _ => None end.

(** The progress values of a run, in emission order. *)
Definition progress_values (es : list Effect) : list Z := omap progress_value (signals es).

(** The terminal results: [Success] is [finished_signal], [Failure] is
    [error_signal]. *)
Definition is_terminal (s : Signal) : bool :=
  match s with progress_signal _ => false | _ => true end.

Definition terminal_results (es : list Effect) : list Signal :=
  filter (λ s, is_terminal s = true) (signals es).

(** A run succeeded when it emitted [finished_signal]. *)
Definition succeeded (es : list Effect) : Prop :=
  ∃ path, Emit (finished_signal path) ∈ es.

(** A sequence of integers that never decreases. *)
Fixpoint non_decreasing (l : list Z) : Prop :=
  match l with
  | x :: (y :: _) as rest => (x <= y)%Z ∧ non_decreasing rest
  | _ => True
  end.

(** The blocks one slide contributes: the texts the inner loop appends, in the
    order of [slide.shapes]. *)
Definition content_blocks (slide : Slide) : list string :=
  omap (λ shape, shape_block shape (title (shapes slide))) (shape_list (shapes slide)).

(** The shapes whose text the inner loop appends. *)
Definition content_shapes (slide : Slide) : list Shape :=
  filter (λ shape, is_Some (shape_block shape (title (shapes slide))))
         (shape_list (shapes slide)).

(** Each block as a paragraph followed by a blank line. *)
Fixpoint paragraphs (blocks : list string) : string :=
  match blocks with
  | [] => ""
  | b :: bs => b +:+ nl +:+ nl +:+ paragraphs bs
  end.

(** One slide's part of the document. *)
Definition slide_section (heading : string) (blocks : list string) : string :=
  "## " +:+ heading +:+ nl +:+ nl +:+ paragraphs blocks +:+ "---" +:+ nl +:+ nl.

Fixpoint concat_str (l : list string) : string :=
  match l with
  | [] => ""
  | s :: l' => s +:+ concat_str l'
  end.

(** The sections of the slides [sl], the first of which has index [i]. *)
Fixpoint sections_from (i : nat) (sl : list Slide) : outcome (list string) :=
  match sl with
  | [] => Returns []
  | slide :: rest =>
      match slide_heading i slide with
      | Raises e => Raises e
      | Returns h =>
          match sections_from (S i) rest with
          | Raises e => Raises e
          | Returns secs => Returns (slide_section h (content_blocks slide) :: secs)
          end
      end
  end.

(** Every title placeholder of the deck has a [text] attribute (python-pptx
    gives a title placeholder the class of a text shape). *)
Definition titles_have_text (prs : Prs) : Prop :=
  ∀ slide t, slide ∈ slides prs → title (shapes slide) = Some t → is_Some (text t).

(** *** The claims of the specification, in its own words *)

(** Spec: the heading is the title placeholder's text after trimming when that
    is non-empty, else ["Slide {i+1}"]. *)
Definition spec_heading (i : nat) (slide : Slide) : string :=
  let fallback := "Slide " +:+ str_of_nat (i + 1) in
  match title (shapes slide) with
  | Some t =>
      match text t with
      | Some s => if str_bool (strip s) then strip s else fallback
      | None => fallback
      end
  | None => fallback
  end.

(** Spec: the content blocks are the trimmed texts of the non-title shapes
    whose trimmed text is non-empty. *)
Definition spec_content_blocks (slide : Slide) : list string :=
  omap (λ shape,
          match text shape with
          | Some s =>
              if str_bool (strip s) && shape_ne shape (title (shapes slide))
              then Some (strip s) else None
          | None => None
          end) (shape_list (shapes slide)).

(** Spec: the value emitted before slide [i] of [N] is [floor(i / N * 100)]. *)
Definition spec_percent (i N : Z) : Z := (i * 100 / N)%Z.

(** No line of [s] reads as a level-2 heading or as a horizontal rule. *)
Definition no_marker_lines (s : string) : bool :=
  forallb (λ l, negb (is_h2_line l) && negb (is_hr_line l)) (lines s).

(** The same for the lines of [s] after its first. *)
Definition no_marker_tail (s : string) : bool :=
  forallb (λ l, negb (is_h2_line l) && negb (is_hr_line l)) (tail (lines s)).

(** The texts of the deck bring no heading or rule line of their own into the
    document. *)
Definition plain_texts (base : string) (prs : Prs) : Prop :=
  no_marker_tail base = true ∧
  ∀ slide, slide ∈ slides prs →
    (∀ t s, title (shapes slide) = Some t → text t = Some s → no_marker_tail s = true) ∧
    (∀ b, b ∈ content_blocks slide → no_marker_lines b = true).

(** The real value of a float. *)
Definition F2R (x : pyfloat) : R := (IZR (Fnum x) * powerRZ 2 (Fexp x))%R.

(** The power [2^e] for an integer exponent, and the relative error bound
    [2^-53] of one rounding. *)
Definition p2 (e : Z) : R := powerRZ 2 e.
Definition ulp_rel : R := (/ 9007199254740992)%R.

(** *** Rounding as the Standard Library's [SpecFloat] describes it *)

(** The position of a real [rho] between the integers [m] and [m + 1], as
    [SpecFloat] records it: exactly [m], below, at or above the middle. *)
Definition located (m : Z) (l : location) (rho : R) : Prop :=
  (match l with
  | loc_Exact => rho = IZR m
  | loc_Inexact Lt => IZR m < rho < IZR m + / 2
  | loc_Inexact Eq => rho = IZR m + / 2
  | loc_Inexact Gt => IZR m + / 2 < rho < IZR m + 1
  end)%R.

(** A significand that rounding carried to [2^53] is renormalised. *)
Definition carry (m e : Z) : Z * Z :=
  if (m =? 2 ^ 53)%Z then ((2 ^ 52)%Z, (e + 1)%Z) else (m, e).

(** [M * 2^E] is the binary64 rounding to nearest, ties to even, of the
    positive real [x]: it is [SpecFloat]'s rounding decision at the 53-bit
    truncation of [x]. *)
Definition is_rne (x : R) (M E : Z) : Prop :=
  ∃ m e l, (2 ^ 52 <= m < 2 ^ 53)%Z ∧ located m l (x * p2 (- e))%R ∧
           (M, E) = carry (SpecFloat.round_nearest_even m l) e.

(** The five ways through [run], by the point where its body is left. *)
Inductive run_shape (env : Env) (fs : gmap string string) (self : PPTXConverter)
  : list Effect → Prop :=
  | run_reader_raises e :
      Presentation env fs (pptx_path self) = Raises e →
      run_shape env fs self [Emit (error_signal e)]
  | run_loop_raises prs evs e :
      Presentation env fs (pptx_path self) = Returns prs →
      slides_loop (Z.of_nat (length (slides prs))) 0 (slides prs)
        ("# " +:+ basename (pptx_path self) +:+ nl +:+ nl) = (evs, Raises e) →
      run_shape env fs self ((Emit <$> evs) ++ [Emit (error_signal e)])
  | run_open_raises prs evs md e :
      Presentation env fs (pptx_path self) = Returns prs →
      slides_loop (Z.of_nat (length (slides prs))) 0 (slides prs)
        ("# " +:+ basename (pptx_path self) +:+ nl +:+ nl) = (evs, Returns md) →
      os_write env (output_path self) (utf8_encode md) = OpenRaises e →
      run_shape env fs self ((Emit <$> evs) ++ [Emit (error_signal e)])
  | run_write_raises prs evs md e written :
      Presentation env fs (pptx_path self) = Returns prs →
      slides_loop (Z.of_nat (length (slides prs))) 0 (slides prs)
        ("# " +:+ basename (pptx_path self) +:+ nl +:+ nl) = (evs, Returns md) →
      os_write env (output_path self) (utf8_encode md) = WriteRaises e written →
      run_shape env fs self
        ((Emit <$> evs)
         ++ [FsPut (output_path self) "";
             FsPut (output_path self) (str_take written (utf8_encode md));
             Emit (error_signal e)])
  | run_completes prs evs md :
      Presentation env fs (pptx_path self) = Returns prs →
      slides_loop (Z.of_nat (length (slides prs))) 0 (slides prs)
        ("# " +:+ basename (pptx_path self) +:+ nl +:+ nl) = (evs, Returns md) →
      os_write env (output_path self) (utf8_encode md) = WriteOk →
      run_shape env fs self
        ((Emit <$> evs)
         ++ [FsPut (output_path self) ""; FsPut (output_path self) (utf8_encode md);
             Emit (progress_signal 100); Emit (finished_signal (output_path self))]).

(** ** Sample decks and a sample world *)

Definition text_shape (id : nat) (s : string) : Shape := {| element := id; text := Some s |}.
Definition picture (id : nat) : Shape := {| element := id; text := None |}.
Definition mk_slide (t : option Shape) (shs : list Shape) : Slide :=
  {| shapes := {| shape_list := shs; title := t |} |}.

(** Three slides: a title and one text box (and a picture); no title and two
    text boxes; a title only. *)
Definition deck3 : Prs :=
  {| slides :=
       [ mk_slide (Some (text_shape 2 "Intro"))
           [text_shape 2 "Intro"; text_shape 3 "Welcome"; picture 4];
         mk_slide None [text_shape 2 "Point A"; text_shape 3 "Point B"];
         mk_slide (Some (text_shape 2 "Conclusion")) [text_shape 2 "Conclusion"] ] |}.

Definition deck_empty : Prs := {| slides := [] |}.

(** A title and a text box that are padded with blanks. *)
Definition slide_padded : Slide :=
  mk_slide (Some (text_shape 2 " Intro ")) [text_shape 2 " Intro "; text_shape 3 " hi "].

(** A title placeholder that was left empty. *)
Definition slide_blank_title : Slide :=
  mk_slide (Some (text_shape 2 "")) [text_shape 2 ""; text_shape 3 "body"].

(** A text box with the same text as the title. *)
Definition slide_echo : Slide :=
  mk_slide (Some (text_shape 2 "Intro")) [text_shape 2 "Intro"; text_shape 3 "Intro"].

(** A text box whose text is three dashes. *)
Definition deck_rule : Prs := {| slides := [mk_slide None [text_shape 2 "---"]] |}.

Definition deck_one : Prs := {| slides := [mk_slide None [text_shape 2 "body"]] |}.

Definition deck_padded : Prs := {| slides := [slide_padded; slide_blank_title] |}.

(** A hundred slides without shapes. *)
Definition deck100 : Prs := {| slides := replicate 100 (mk_slide None []) |}.

Definition demo_env : Env :=
  {| load_package := λ bytes,
       if String.eqb bytes "PK:three" then Returns deck3
       else if String.eqb bytes "PK:empty" then Returns deck_empty
       else if String.eqb bytes "PK:rule" then Returns deck_rule
       else if String.eqb bytes "PK:one" then Returns deck_one
       else if String.eqb bytes "PK:hundred" then Returns deck100
       else if String.eqb bytes "PK:padded" then Returns deck_padded
       else Raises "File is not a zip file";
     os_write := λ path data,
       if String.prefix "/ro/" path
       then OpenRaises ("[Errno 13] Permission denied: '" +:+ path +:+ "'")
       else if String.prefix "/full/" path
       then WriteRaises "[Errno 28] No space left on device" 0
       else WriteOk |}.

Definition demo_fs : gmap string string :=
  <["/d/talk.pptx" := "PK:three"]>
  (<["/d/empty.pptx" := "PK:empty"]>
  (<["/d/rule.pptx" := "PK:rule"]>
  (<["/d/one.pptx" := "PK:one"]>
  (<["/d/long.pptx" := "PK:hundred"]>
  (<["/d/padded.pptx" := "PK:padded"]>
  (<["/d/notes.pptx" := "just some notes"]> ∅)))))).

(** ** Reading a text file back

    [conversion_finished] reads the document with
    [open(output_path, 'r', encoding='utf-8')]: the bytes are decoded by the
    strict UTF-8 codec and, in text mode, every [\r\n] and lone [\r] becomes
    [\n].  The text read can hold any code point, so it is a list of code
    points. *)

(** The code points of a string of the model. *)
Fixpoint codepoints (s : string) : list N :=
  match s with
  | EmptyString => []
  | String c s' => N_of_ascii c :: codepoints s'
  end.

Definition is_continuation (b : N) : bool := ((128 <=? b) && (b <=? 191))%N.

(** [bytes.decode('utf-8')]: the well-formed sequences of one to four bytes (no
    overlong form, no surrogate, nothing above U+10FFFF); [None] stands for
    [UnicodeDecodeError]. *)
Fixpoint utf8_decode (s : string) : option (list N) :=
  match s with
  | EmptyString => Some []
  | String c0 s1 =>
      let b0 := N_of_ascii c0 in
      if (b0 <? 128)%N then cons b0 <$> utf8_decode s1
      else if ((194 <=? b0) && (b0 <=? 223))%N then
        match s1 with
        | String c1 s2 =>
            let b1 := N_of_ascii c1 in
            if is_continuation b1
            then cons ((b0 - 192) * 64 + (b1 - 128))%N <$> utf8_decode s2
            else None
        | _ => None
        end
      else if ((224 <=? b0) && (b0 <=? 239))%N then
        match s1 with
        | String c1 (String c2 s3) =>
            let b1 := N_of_ascii c1 in
            let b2 := N_of_ascii c2 in
            if is_continuation b1 && is_continuation b2
               && (if (b0 =? 224)%N then (160 <=? b1)%N else true)
               && (if (b0 =? 237)%N then (b1 <=? 159)%N else true)
            then cons ((b0 - 224) * 4096 + (b1 - 128) * 64 + (b2 - 128))%N <$> utf8_decode s3
            else None
        | _ => None
        end
      else if ((240 <=? b0) && (b0 <=? 244))%N then
        match s1 with
        | String c1 (String c2 (String c3 s4)) =>
            let b1 := N_of_ascii c1 in
            let b2 := N_of_ascii c2 in
            let b3 := N_of_ascii c3 in
            if is_continuation b1 && is_continuation b2 && is_continuation b3
               && (if (b0 =? 240)%N then (144 <=? b1)%N else true)
               && (if (b0 =? 244)%N then (b1 <=? 143)%N else true)
            then cons ((b0 - 240) * 262144 + (b1 - 128) * 4096
                       + (b2 - 128) * 64 + (b3 - 128))%N <$> utf8_decode s4
            else None
        | _ => None
        end
      else None
  end.

(** Universal newlines on reading: [\r\n] and [\r] become [\n]. *)
Fixpoint universal_newlines (l : list N) : list N :=
  match l with
  | [] => []
  | c :: rest =>
      if (c =? 13)%N then
        match rest with
        | d :: rest' => if (d =? 10)%N then 10%N :: universal_newlines rest'
                        else 10%N :: universal_newlines rest
        | [] => [10%N]
        end
      else c :: universal_newlines rest
  end.

(** [with open(path, 'r', encoding='utf-8') as f: f.read()].  The message of
    the decoding error leaves out the offending byte and its position. *)
Definition read_text (fs : gmap string string) (path : string) : outcome (list N) :=
  match fs !! path with
  | None => Raises ("[Errno 2] No such file or directory: '" +:+ path +:+ "'")
  | Some bytes =>
      match utf8_decode bytes with
      | None => Raises "'utf-8' codec can't decode byte"
      | Some text => Returns (universal_newlines text)
      end
  end.

(** [s.endswith(suffix)] *)
Definition str_endswith (s suffix : string) : bool :=
  (String.length suffix <=? String.length s)%nat
  && String.eqb (str_drop (String.length s - String.length suffix) s) suffix.

(** ** [DropArea]

    A drag or drop event is seen through [event.mimeData()]: whether it
    announces URLs, and the [toLocalFile()] of each URL of its list, in order.
    The two style sheets of the widget differ in the colour of the border and
    of the background. *)

Record MimeData := { hasUrls : bool; urls : list string }.

Inductive DropStyle := idle_style | hover_style.

Record DropArea := { drop_style : DropStyle }.

(** [dragEnterEvent]: the widget, and whether the drag was accepted
    ([event.acceptProposedAction()]); [urls()[0]] on an empty list raises
    [IndexError]. *)
Definition dragEnterEvent (self : DropArea) (mime : MimeData) : outcome (DropArea * bool) :=
  if hasUrls mime then
    match urls mime with
    | url :: _ =>
        if str_endswith url ".pptx" then Returns ({| drop_style := hover_style |}, true)
        else Returns (self, false)
    | [] => Raises "list index out of range"
    end
  else Returns (self, false).

Definition dragLeaveEvent (self : DropArea) : DropArea := {| drop_style := idle_style |}.

(** [dropEvent]: the path emitted by [file_dropped], and the widget. *)
Definition dropEvent (self : DropArea) (mime : MimeData) : outcome (string * DropArea) :=
  match urls mime with
  | file_path :: _ => Returns (file_path, {| drop_style := idle_style |})
  | [] => Raises "list index out of range"
  end.

(** ** [MainWindow]

    The window is the state its methods read and set.  The texts of the status
    bar and of the message boxes are Chinese sentences around a path or a
    message; they are kept as the kind of sentence and that argument. *)

Inductive StatusMessage :=
  | status_none
  | status_selected (name : string)
  | status_converting
  | status_done (path : string)
  | status_failed.

(** A [QMessageBox] shown to the user. *)
Inductive Dialog :=
  | information (path : string)
  | warning (msg : string)
  | critical (msg : string).

Record MainWindow := {
  current_file : option string;
  converter : option PPTXConverter;
  select_btn_enabled : bool;
  convert_btn_enabled : bool;
  progress_bar_visible : bool;
  progress_bar_value : Z;
  status_message : StatusMessage;
  (** the base name on the label of the drop area, once a file is chosen *)
  drop_label : option string;
  (** the text given to [preview_text.setText] *)
  preview_text : list N;
  (** the [html_content] placed in the page given to [html_preview.setHtml] *)
  html_preview : option (list N);
  (** the point sizes of the fonts of the two panes *)
  preview_pointSize : Z;
  html_pointSize : Z;
  (** the message boxes shown so far, oldest first *)
  dialogs : list Dialog
}.

(** [QProgressBar.setValue] with the default range 0..100: a value outside
    the range is ignored. *)
Definition setValue (old value : Z) : Z :=
  if ((0 <=? value) && (value <=? 100))%Z then value else old.

(** [process_file] *)
Definition process_file (self : MainWindow) (file_path : string) : MainWindow :=
  {| current_file := Some file_path;
     converter := converter self;
     select_btn_enabled := select_btn_enabled self;
     convert_btn_enabled := true;
     progress_bar_visible := progress_bar_visible self;
     progress_bar_value := progress_bar_value self;
     status_message := status_selected (basename file_path);
     drop_label := Some (basename file_path);
     preview_text := preview_text self;
     html_preview := html_preview self;
     preview_pointSize := preview_pointSize self;
     html_pointSize := html_pointSize self;
     dialogs := dialogs self |}.

(** [select_file]: [file_path] is what the open dialog returned, the empty
    string when it was cancelled. *)
Definition select_file (self : MainWindow) (file_path : string) : MainWindow :=
  if str_bool file_path then process_file self file_path else self.

(** [convert_file]: [getSaveFileName] is the user at the save dialog, from the
    suggested path to the chosen one (empty when cancelled).  The result is
    the window and the converter thread that was started, if any. *)
Definition convert_file (self : MainWindow) (getSaveFileName : string → string)
  : MainWindow * option PPTXConverter :=
  match current_file self with
  | None => (self, None)
  | Some file =>
      if negb (str_bool file) then (self, None)
      else
        let output_path := getSaveFileName (splitext_root file +:+ ".md") in
        if negb (str_bool output_path) then (self, None)
        else
          let thread := PPTXConverter_init file (Some output_path) in
          ({| current_file := current_file self;
              converter := Some thread;
              select_btn_enabled := false;
              convert_btn_enabled := false;
              progress_bar_visible := true;
              progress_bar_value := setValue (progress_bar_value self) 0;
              status_message := status_converting;
              drop_label := drop_label self;
              preview_text := preview_text self;
              html_preview := html_preview self;
              preview_pointSize := preview_pointSize self;
              html_pointSize := html_pointSize self;
              dialogs := dialogs self |}, Some thread)
  end.

(** [update_progress] *)
Definition update_progress (self : MainWindow) (value : Z) : MainWindow :=
  {| current_file := current_file self;
     converter := converter self;
     select_btn_enabled := select_btn_enabled self;
     convert_btn_enabled := convert_btn_enabled self;
     progress_bar_visible := progress_bar_visible self;
     progress_bar_value := setValue (progress_bar_value self) value;
     status_message := status_message self;
     drop_label := drop_label self;
     preview_text := preview_text self;
     html_preview := html_preview self;
     preview_pointSize := preview_pointSize self;
     html_pointSize := html_pointSize self;
     dialogs := dialogs self |}.

(** [conversion_finished]: the interface is restored, then the document is
    read back and shown; [markdown] is [markdown.markdown].  An exception of
    the reading or of the rendering ends in a warning box, after what was set
    before it. *)
Definition conversion_finished (markdown : list N → outcome (list N))
    (fs : gmap string string) (self : MainWindow) (output_path : string) : MainWindow :=
  let restored (text : list N) (html : option (list N)) (box : Dialog) :=
    {| current_file := current_file self;
       converter := converter self;
       select_btn_enabled := true;
       convert_btn_enabled := true;
       progress_bar_visible := false;
       progress_bar_value := progress_bar_value self;
       status_message := status_done output_path;
       drop_label := drop_label self;
       preview_text := text;
       html_preview := html;
       preview_pointSize := preview_pointSize self;
       html_pointSize := html_pointSize self;
       dialogs := dialogs self ++ [box] |} in
  match read_text fs output_path with
  | Raises e => restored (preview_text self) (html_preview self) (warning e)
  | Returns md_content =>
      match markdown md_content with
      | Raises e => restored md_content (html_preview self) (warning e)
      | Returns html_content =>
          restored md_content (Some html_content) (information output_path)
      end
  end.

(** [conversion_error] *)
Definition conversion_error (self : MainWindow) (error_msg : string) : MainWindow :=
  {| current_file := current_file self;
     converter := converter self;
     select_btn_enabled := true;
     convert_btn_enabled := true;
     progress_bar_visible := false;
     progress_bar_value := progress_bar_value self;
     status_message := status_failed;
     drop_label := drop_label self;
     preview_text := preview_text self;
     html_preview := html_preview self;
     preview_pointSize := preview_pointSize self;
     html_pointSize := html_pointSize self;
     dialogs := dialogs self ++ [critical error_msg] |}.

(** The new point size of [zoom_text]: [max(10, size + direction * 3)]. *)
Definition zoom_size (size direction : Z) : Z := Z.max 10 (size + direction * 3).

Inductive Pane := markdown_pane | html_pane.

(** [text_edit.font().pointSize()] *)
Definition pointSize (self : MainWindow) (text_edit : Pane) : Z :=
  match text_edit with
  | markdown_pane => preview_pointSize self
  | html_pane => html_pointSize self
  end.

(** [zoom_text(text_edit, direction)], on one of the two panes. *)
Definition zoom_text (self : MainWindow) (text_edit : Pane) (direction : Z) : MainWindow :=
  {| current_file := current_file self;
     converter := converter self;
     select_btn_enabled := select_btn_enabled self;
     convert_btn_enabled := convert_btn_enabled self;
     progress_bar_visible := progress_bar_visible self;
     progress_bar_value := progress_bar_value self;
     status_message := status_message self;
     drop_label := drop_label self;
     preview_text := preview_text self;
     html_preview := html_preview self;
     preview_pointSize :=
       match text_edit with
       | markdown_pane => zoom_size (pointSize self markdown_pane) direction
       | html_pane => preview_pointSize self
       end;
     html_pointSize :=
       match text_edit with
       | markdown_pane => html_pointSize self
       | html_pane => zoom_size (pointSize self html_pane) direction
       end;
     dialogs := dialogs self |}.

(** The slot a signal of the converter thread is connected to. *)
Definition handle_signal (markdown : list N → outcome (list N)) (fs : gmap string string)
    (self : MainWindow) (s : Signal) : MainWindow :=
  match s with
  | progress_signal value => update_progress self value
  | finished_signal output_path => conversion_finished markdown fs self output_path
  | error_signal error_msg => conversion_error self error_msg
  end.

(** What reaches the window between the start of a conversion and its end,
    short of a click on one of the two buttons: a signal of the thread, a file
    dropped on the drop area ([file_dropped] is connected to [process_file]),
    a click on a zoom button. *)
Inductive UiEvent :=
  | from_thread (s : Signal)
  | file_dropped (file_path : string)
  | zoom_clicked (text_edit : Pane) (direction : Z).

Definition handle_event (markdown : list N → outcome (list N)) (fs : gmap string string)
    (self : MainWindow) (ev : UiEvent) : MainWindow :=
  match ev with
  | from_thread s => handle_signal markdown fs self s
  | file_dropped file_path => process_file self file_path
  | zoom_clicked text_edit direction => zoom_text self text_edit direction
  end.

Definition thread_signal (ev : UiEvent) : option Signal :=
  match ev with from_thread s => Some s | _ => None end.

(** The states the window goes through on a sequence of events. *)
Fixpoint window_states (markdown : list N → outcome (list N)) (fs : gmap string string)
    (self : MainWindow) (evs : list UiEvent) : list MainWindow :=
  match evs with
  | [] => [self]
  | ev :: rest => self :: window_states markdown fs (handle_event markdown fs self ev) rest
  end.

(** The window after a sequence of events. *)
Definition after_events (markdown : list N → outcome (list N)) (fs : gmap string string)
    (self : MainWindow) (evs : list UiEvent) : MainWindow :=
  foldl (handle_event markdown fs) self evs.

(** The progress values among a sequence of events. *)
Definition event_progress (ev : UiEvent) : option Z :=
  match ev with from_thread (progress_signal value) => Some value | _ => None end.

(** A window as [__init__] and [initUI] leave it, with fonts of the given
    point size. *)
Definition MainWindow_init (pointSize : Z) : MainWindow :=
  {| current_file := None;
     converter := None;
     select_btn_enabled := true;
     convert_btn_enabled := false;
     progress_bar_visible := false;
     progress_bar_value := -1;
     status_message := status_none;
     drop_label := None;
     preview_text := [];
     html_preview := None;
     preview_pointSize := pointSize;
     html_pointSize := pointSize;
     dialogs := [] |}.



(** A [markdown.markdown] for the samples: it wraps the text in a paragraph. *)
Definition demo_markdown (text : list N) : outcome (list N) :=
  Returns (codepoints "<p>" ++ text ++ codepoints "</p>").

(** * Properties *)

(** ** Strings *)

Lemma str_app_cons (c : ascii) (a b : string) : String c a +:+ b = String c (a +:+ b).
Proof. reflexivity. Qed.

Lemma str_app_nil_l (a : string) : "" +:+ a = a.
Proof. reflexivity. Qed.

Lemma str_app_assoc (a b c : string) : (a +:+ b) +:+ c = a +:+ (b +:+ c).
Proof.
  induction a as [|x a IH]; [reflexivity|].
  rewrite !str_app_cons. now rewrite IH.
Qed.

Lemma str_app_nil_r (a : string) : a +:+ "" = a.
Proof.
  induction a as [|x a IH]; [reflexivity|].
  rewrite str_app_cons. now rewrite IH.
Qed.

Lemma str_bool_true (s : string) : str_bool s = true ↔ s ≠ "".
Proof. destruct s; simpl; split; congruence. Qed.

Lemma lstrip_suffix (s : string) : ∃ p, s = p +:+ lstrip s.
Proof.
  induction s as [|c s [p Hp]]; simpl.
  - now exists "".
  - destruct (isspace c).
    + exists (String c p). rewrite str_app_cons. now rewrite <- Hp.
    + now exists "".
Qed.

Lemma rstrip_prefix (s : string) : ∃ q, s = rstrip s +:+ q.
Proof.
  induction s as [|c s [q Hq]]; simpl.
  - now exists "".
  - destruct (rstrip s) eqn:E.
    + destruct (isspace c).
      * now exists (String c s).
      * exists s. reflexivity.
    + exists q. rewrite str_app_cons. now rewrite <- Hq.
Qed.

(** [strip] removes a prefix and a suffix. *)
Lemma strip_infix (s : string) : ∃ p q, s = p +:+ strip s +:+ q.
Proof.
  destruct (lstrip_suffix s) as [p Hp]. destruct (rstrip_prefix (lstrip s)) as [q Hq].
  exists p, q. unfold strip. now rewrite <- Hq.
Qed.

Example strip_sample : strip (" " +:+ nl +:+ "a b" +:+ nl +:+ " ") = "a b".
Proof. reflexivity. Qed.

Example default_output_path :
  output_path (PPTXConverter_init "/d/talk.v2.pptx" None) = "/d/talk.v2.md" ∧
  output_path (PPTXConverter_init "/d/talk.pptx" (Some "")) = "/d/talk.md" ∧
  output_path (PPTXConverter_init "/d.x/talk" None) = "/d.x/talk.md".
Proof. repeat split; reflexivity. Qed.

(** A text that is not blank is not empty. *)
Lemma strip_nonempty (s : string) : strip s ≠ "" → s ≠ "".
Proof. intros H ->. now apply H. Qed.

(** ** The two loops *)

Lemma shapes_loop_app (shs : list Shape) (t : option Shape) (md : string) :
  shapes_loop shs t md = md +:+ paragraphs (omap (λ shape, shape_block shape t) shs).
Proof.
  revert md. induction shs as [|shape rest IH]; intros md; simpl.
  - now rewrite str_app_nil_r.
  - rewrite IH. destruct (shape_block shape t) as [s|]; simpl; [|reflexivity].
    now rewrite !str_app_assoc.
Qed.

Lemma shapes_loop_blocks (slide : Slide) (md : string) :
  shapes_loop (shape_list (shapes slide)) (title (shapes slide)) md
  = md +:+ paragraphs (content_blocks slide).
Proof. apply shapes_loop_app. Qed.

(** The signals of the slide loop are progress signals, one per slide started. *)
Lemma slides_loop_signals (total : Z) (sl : list Slide) :
  ∀ i md evs r, slides_loop total i sl md = (evs, r) →
    ∃ vs, evs = progress_signal <$> vs ∧ (length vs ≤ length sl)%nat ∧
      (∀ k v, vs !! k = Some v → progress_percent (Z.of_nat (i + k)) total = Returns v) ∧
      (∀ md', r = Returns md' → length vs = length sl).
Proof.
  induction sl as [|slide rest IH]; intros i md evs r H; simpl in H.
  - inversion H; subst. exists []. repeat split; simpl; auto. intros k v Hk. discriminate.
  - destruct (progress_percent (Z.of_nat i) total) as [v|e] eqn:Ev.
    2:{ inversion H; subst. exists []. repeat split; simpl; auto with lia.
        - intros k v Hk. discriminate.
        - intros md' Hmd. discriminate. }
    destruct (slide_heading i slide) as [h|e] eqn:Eh.
    2:{ inversion H; subst. exists [v]. repeat split; simpl; auto with lia.
        - intros [|k] v' Hk; simpl in Hk; [|discriminate].
          inversion Hk; subst. now rewrite Nat.add_0_r.
        - intros md' Hmd. discriminate. }
    destruct (slides_loop total (S i) rest _) as [evs' r'] eqn:El.
    inversion H; subst. destruct (IH _ _ _ _ El) as (vs & -> & Hlen & Hv & Hok).
    exists (v :: vs). repeat split; simpl; auto with lia.
    + intros [|k] v' Hk; simpl in Hk.
      * inversion Hk; subst. now rewrite Nat.add_0_r.
      * replace (i + S k)%nat with (S i + k)%nat by lia. now apply Hv.
    + intros md' Hmd. f_equal. now apply (Hok md').
Qed.

(** A loop that completes has appended the sections of its slides. *)
Lemma slides_loop_document (total : Z) (sl : list Slide) :
  ∀ i md evs md', slides_loop total i sl md = (evs, Returns md') →
    ∃ secs, sections_from i sl = Returns secs ∧ md' = md +:+ concat_str secs.
Proof.
  induction sl as [|slide rest IH]; intros i md evs md' H; simpl in H.
  - inversion H; subst. exists []. simpl. now rewrite str_app_nil_r.
  - destruct (progress_percent (Z.of_nat i) total) as [v|e]; [|discriminate].
    simpl. destruct (slide_heading i slide) as [h|e]; [|discriminate].
    destruct (slides_loop total (S i) rest _) as [evs' r'] eqn:El.
    inversion H; subst. destruct (IH _ _ _ _ El) as (secs & -> & ->).
    eexists; split; [reflexivity|].
    rewrite shapes_loop_blocks. unfold slide_section. simpl.
    now rewrite !str_app_assoc.
Qed.

Lemma sections_from_length (sl : list Slide) :
  ∀ i secs, sections_from i sl = Returns secs → length secs = length sl.
Proof.
  induction sl as [|slide rest IH]; intros i secs H; simpl in H.
  - now inversion H.
  - destruct (slide_heading i slide); [|discriminate].
    destruct (sections_from (S i) rest) eqn:E; [|discriminate].
    inversion H; subst. simpl. f_equal. eauto.
Qed.

Lemma sections_from_lookup (sl : list Slide) :
  ∀ i secs k slide, sections_from i sl = Returns secs → sl !! k = Some slide →
    ∃ h, slide_heading (i + k) slide = Returns h ∧
         secs !! k = Some (slide_section h (content_blocks slide)).
Proof.
  induction sl as [|s rest IH]; intros i secs k slide H Hk; simpl in H; [discriminate|].
  destruct (slide_heading i s) as [h|] eqn:Eh; [|discriminate].
  destruct (sections_from (S i) rest) as [secs'|] eqn:E; [|discriminate].
  inversion H; subst. destruct k as [|k]; simpl in Hk.
  - inversion Hk; subst. exists h. rewrite Nat.add_0_r. auto.
  - destruct (IH _ _ _ _ E Hk) as (h' & Hh & Hs). exists h'.
    replace (i + S k)%nat with (S i + k)%nat by lia. auto.
Qed.

(** ** The shape of a run *)

Lemma run_has_shape (env : Env) (fs : gmap string string) (self : PPTXConverter) :
  run_shape env fs self (run env fs self).
Proof.
  unfold run.
  destruct (Presentation env fs (pptx_path self)) as [prs|e] eqn:EP.
  2:{ now apply run_reader_raises. }
  destruct (slides_loop _ 0 (slides prs) _) as [evs r] eqn:EL.
  destruct r as [md|e].
  2:{ eapply run_loop_raises; eauto. }
  destruct (os_write env (output_path self) (utf8_encode md)) as [|e|e written] eqn:EW.
  - eapply run_completes; eauto.
  - eapply run_open_raises; eauto.
  - eapply run_write_raises; eauto.
Qed.

Lemma signals_app (a b : list Effect) : signals (a ++ b) = signals a ++ signals b.
Proof. apply omap_app. Qed.

Lemma signals_emit (evs : list Signal) : signals (Emit <$> evs) = evs.
Proof.
  induction evs as [|s evs IH]; [reflexivity|].
  change (s :: signals (Emit <$> evs) = s :: evs). now rewrite IH.
Qed.

Lemma progress_values_app (a b : list Effect) :
  progress_values (a ++ b) = progress_values a ++ progress_values b.
Proof. unfold progress_values. rewrite signals_app. apply omap_app. Qed.

Lemma progress_values_emit (vs : list Z) :
  progress_values (Emit <$> (progress_signal <$> vs)) = vs.
Proof.
  unfold progress_values. rewrite signals_emit.
  induction vs as [|v vs IH]; [reflexivity|].
  change (v :: omap progress_value (progress_signal <$> vs) = v :: vs). now rewrite IH.
Qed.

Lemma terminal_progress (vs : list Z) :
  filter (λ s, is_terminal s = true) (progress_signal <$> vs) = [].
Proof.
  induction vs as [|v vs IH]; simpl; [reflexivity|].
  rewrite filter_cons. simpl. destruct (decide (false = true)); [discriminate | exact IH].
Qed.

Lemma fs_after_app (fs : gmap string string) (a b : list Effect) :
  fs_after fs (a ++ b) = fs_after (fs_after fs a) b.
Proof. apply foldl_app. Qed.

Lemma fs_after_emit (fs : gmap string string) (evs : list Signal) :
  fs_after fs (Emit <$> evs) = fs.
Proof. revert fs. induction evs as [|s evs IH]; intros fs; simpl; auto. Qed.

(** The slide loop of a deck that was read: with [total_slides] the number of
    slides, the division never raises, so the loop emits a progress signal for
    each slide it starts. *)
Lemma progress_percent_returns (i total : Z) :
  total ≠ 0%Z → ∃ v, progress_percent i total = Returns v.
Proof.
  intros H. unfold progress_percent, py_truediv.
  destruct (Z.eqb_spec total 0) as [->|_]; [congruence|]. eauto.
Qed.

Lemma slides_loop_starts (total : Z) (i : nat) (slide : Slide) (rest : list Slide)
    (md : string) (evs : list Signal) (r : outcome string) :
  total ≠ 0%Z → slides_loop total i (slide :: rest) md = (evs, r) →
  ∃ v evs', evs = progress_signal v :: evs'.
Proof.
  intros Ht H. simpl in H.
  destruct (progress_percent_returns (Z.of_nat i) total Ht) as [v Hv]. rewrite Hv in H.
  destruct (slide_heading i slide).
  - destruct (slides_loop total (S i) rest _) as [evs' r']. inversion H; subst. eauto.
  - inversion H; subst. eauto.
Qed.

Lemma finished_not_progress (vs : list Z) (path : string) :
  Emit (finished_signal path) ∉ Emit <$> (progress_signal <$> vs).
Proof.
  intros H. apply list_elem_of_fmap in H as (s & Hs & Hin).
  apply list_elem_of_fmap in Hin as (v & -> & _). discriminate.
Qed.

(** A run that emits [finished_signal] went all the way: the deck was read,
    the loop completed and the file was written. *)
Lemma run_success (env : Env) (fs : gmap string string) (self : PPTXConverter) :
  succeeded (run env fs self) →
  ∃ prs vs md,
    Presentation env fs (pptx_path self) = Returns prs ∧
    slides_loop (Z.of_nat (length (slides prs))) 0 (slides prs)
      ("# " +:+ basename (pptx_path self) +:+ nl +:+ nl) = (progress_signal <$> vs, Returns md) ∧
    length vs = length (slides prs) ∧
    os_write env (output_path self) (utf8_encode md) = WriteOk ∧
    run env fs self =
      (Emit <$> (progress_signal <$> vs))
      ++ [FsPut (output_path self) ""; FsPut (output_path self) (utf8_encode md);
          Emit (progress_signal 100); Emit (finished_signal (output_path self))].
Proof.
  intros [path Hin]. destruct (run_has_shape env fs self) as
    [e HP | prs evs e HP HL | prs evs md e HP HL HW | prs evs md e w HP HL HW | prs evs md HP HL HW].
  - apply list_elem_of_singleton in Hin. discriminate.
  - destruct (slides_loop_signals _ _ _ _ _ _ HL) as (vs & -> & _).
    apply elem_of_app in Hin as [Hin|Hin]; [now apply finished_not_progress in Hin|].
    apply list_elem_of_singleton in Hin. discriminate.
  - destruct (slides_loop_signals _ _ _ _ _ _ HL) as (vs & -> & _).
    apply elem_of_app in Hin as [Hin|Hin]; [now apply finished_not_progress in Hin|].
    apply list_elem_of_singleton in Hin. discriminate.
  - destruct (slides_loop_signals _ _ _ _ _ _ HL) as (vs & -> & _).
    apply elem_of_app in Hin as [Hin|Hin]; [now apply finished_not_progress in Hin|].
    repeat (apply elem_of_cons in Hin as [Hin|Hin]; [discriminate|]).
    now apply elem_of_nil in Hin.
  - destruct (slides_loop_signals _ _ _ _ _ _ HL) as (vs & -> & _ & _ & Hlen).
    exists prs, vs, md. repeat split; eauto.
Qed.

(** The document of a successful run, and where it is. *)
Lemma run_success_document (env : Env) (fs : gmap string string) (self : PPTXConverter) :
  succeeded (run env fs self) →
  ∃ prs secs,
    Presentation env fs (pptx_path self) = Returns prs ∧
    sections_from 0 (slides prs) = Returns secs ∧
    fs_after fs (run env fs self) !! output_path self
    = Some (utf8_encode ("# " +:+ basename (pptx_path self) +:+ nl +:+ nl +:+ concat_str secs)).
Proof.
  intros H. destruct (run_success env fs self H) as (prs & vs & md & HP & HL & _ & _ & ->).
  destruct (slides_loop_document _ _ _ _ _ _ HL) as (secs & Hs & ->).
  exists prs, secs. repeat split; auto.
  rewrite fs_after_app, fs_after_emit. simpl.
  rewrite lookup_insert_eq. now rewrite !str_app_assoc.
Qed.

(** ** C7: one terminal result *)

(** C7. Every conversion run produces exactly one terminal result, either
    [finished_signal] with the output path (Success) or [error_signal] with a
    message (Failure): the signals of a run are progress signals followed by
    that one result. *)
Theorem run_one_terminal_result (env : Env) (fs : gmap string string) (self : PPTXConverter) :
  ∃ vs r,
    signals (run env fs self) = (progress_signal <$> vs) ++ [r] ∧
    terminal_results (run env fs self) = [r] ∧
    (r = finished_signal (output_path self) ∨ ∃ msg, r = error_signal msg).
Proof.
  unfold terminal_results.
  destruct (run_has_shape env fs self) as
    [e HP | prs evs e HP HL | prs evs md e HP HL HW | prs evs md e w HP HL HW | prs evs md HP HL HW].
  - exists [], (error_signal e). repeat split; eauto.
  - destruct (slides_loop_signals _ _ _ _ _ _ HL) as (vs & -> & _).
    exists vs, (error_signal e). rewrite signals_app, signals_emit.
    rewrite filter_app, terminal_progress. repeat split; eauto.
  - destruct (slides_loop_signals _ _ _ _ _ _ HL) as (vs & -> & _).
    exists vs, (error_signal e). rewrite signals_app, signals_emit.
    rewrite filter_app, terminal_progress. repeat split; eauto.
  - destruct (slides_loop_signals _ _ _ _ _ _ HL) as (vs & -> & _).
    exists vs, (error_signal e). rewrite signals_app, signals_emit.
    rewrite filter_app, terminal_progress. repeat split; eauto.
  - destruct (slides_loop_signals _ _ _ _ _ _ HL) as (vs & -> & _).
    exists (vs ++ [100%Z]), (finished_signal (output_path self)).
    rewrite signals_app, signals_emit, fmap_app, <- app_assoc.
    rewrite filter_app, terminal_progress. repeat split; eauto.
Qed.

(** ** C6: a reader failure *)

Lemma run_empty_deck (env : Env) (fs : gmap string string) (self : PPTXConverter) (prs : Prs) :
  Presentation env fs (pptx_path self) = Returns prs → slides prs = [] →
  run env fs self =
    let data := utf8_encode ("# " +:+ basename (pptx_path self) +:+ nl +:+ nl) in
    match os_write env (output_path self) data with
    | OpenRaises e => [Emit (error_signal e)]
    | WriteRaises e written =>
        [FsPut (output_path self) ""; FsPut (output_path self) (str_take written data);
         Emit (error_signal e)]
    | WriteOk =>
        [FsPut (output_path self) ""; FsPut (output_path self) data;
         Emit (progress_signal 100); Emit (finished_signal (output_path self))]
    end.
Proof.
  intros HP Hs. unfold run. rewrite HP, Hs. simpl.
  destruct (os_write env (output_path self) _); reflexivity.
Qed.

Lemma run_nonempty_deck_progress (env : Env) (fs : gmap string string) (self : PPTXConverter)
    (prs : Prs) :
  Presentation env fs (pptx_path self) = Returns prs → slides prs ≠ [] →
  ∃ v rest, progress_values (run env fs self) = v :: rest.
Proof.
  intros HP Hs. unfold run. rewrite HP.
  destruct (slides prs) as [|slide rest] eqn:E; [congruence|].
  destruct (slides_loop _ 0 (slide :: rest) _) as [evs r] eqn:EL.
  assert (Ht : Z.of_nat (length (slide :: rest)) ≠ 0%Z) by (cbn [length]; lia).
  destruct (slides_loop_starts _ _ _ _ _ _ _ Ht EL) as (v & evs' & ->).
  exists v. destruct r as [md|e]; [destruct (os_write env _ _)|];
    rewrite progress_values_app; simpl; eauto.
Qed.

(** C6 (amended). When the Reader fails, the run emits Failure with the
    Reader's message and nothing else: no progress event, no later step.  A run
    emits no progress event exactly when the Reader fails or when the deck is
    empty and writing the output fails. *)
Theorem reader_failure_no_progress (env : Env) (fs : gmap string string) (self : PPTXConverter) :
  (∀ msg, Presentation env fs (pptx_path self) = Raises msg →
     run env fs self = [Emit (error_signal msg)]) ∧
  (progress_values (run env fs self) = [] ↔
     (∃ msg, Presentation env fs (pptx_path self) = Raises msg) ∨
     (∃ prs, Presentation env fs (pptx_path self) = Returns prs ∧ slides prs = [] ∧
        os_write env (output_path self)
          (utf8_encode ("# " +:+ basename (pptx_path self) +:+ nl +:+ nl)) ≠ WriteOk)).
Proof.
  split.
  { intros msg H. unfold run. now rewrite H. }
  split.
  - intros Hnone. destruct (Presentation env fs (pptx_path self)) as [prs|e] eqn:HP; [|eauto].
    right. exists prs. split; [reflexivity|].
    destruct (slides prs) as [|slide rest] eqn:Es.
    + split; [reflexivity|]. intros HW.
      rewrite (run_empty_deck env fs self prs HP Es) in Hnone. cbv zeta in Hnone.
      rewrite HW in Hnone. discriminate.
    + destruct (run_nonempty_deck_progress env fs self prs HP) as (v & vs & Hv).
      { rewrite Es. discriminate. }
      rewrite Hv in Hnone. discriminate.
  - intros [[msg H] | (prs & HP & Hs & HW)].
    + unfold run. now rewrite H.
    + rewrite (run_empty_deck env fs self prs HP Hs). cbv zeta.
      destruct (os_write env (output_path self) _); [congruence | reflexivity | reflexivity].
Qed.

(** A plain text file under a deck's name: the Reader fails, Failure is the
    only signal. *)
Lemma reader_failure_no_progress_witness :
  run demo_env demo_fs (PPTXConverter_init "/d/notes.pptx" (Some "/out/notes.md"))
  = [Emit (error_signal "File is not a zip file")].
Proof.
  apply (proj1 (reader_failure_no_progress demo_env demo_fs
                  (PPTXConverter_init "/d/notes.pptx" (Some "/out/notes.md")))).
  vm_compute. reflexivity.
Defined.

(** C6 as stated fails: an empty deck whose output cannot be written emits no
    progress event although the Reader succeeded. *)
Lemma zero_progress_without_reader_failure :
  Presentation demo_env demo_fs
    (pptx_path (PPTXConverter_init "/d/empty.pptx" (Some "/ro/empty.md"))) = Returns deck_empty ∧
  progress_values (run demo_env demo_fs (PPTXConverter_init "/d/empty.pptx" (Some "/ro/empty.md")))
  = [].
Proof. split; vm_compute; reflexivity. Qed.

(** ** C5: the final progress event *)

(** C5 (amended). For every run that completes the per-slide loop and then
    writes the output successfully, a final progress event of exactly 100 is
    emitted after the loop, right after the write and before Success, whatever
    the per-slide values were. *)
Theorem final_progress_after_write (env : Env) (fs : gmap string string) (self : PPTXConverter)
    (prs : Prs) (evs : list Signal) (md : string) :
  Presentation env fs (pptx_path self) = Returns prs →
  slides_loop (Z.of_nat (length (slides prs))) 0 (slides prs)
    ("# " +:+ basename (pptx_path self) +:+ nl +:+ nl) = (evs, Returns md) →
  os_write env (output_path self) (utf8_encode md) = WriteOk →
  ∃ vs, evs = progress_signal <$> vs ∧ length vs = length (slides prs) ∧
    progress_values (run env fs self) = vs ++ [100%Z] ∧
    run env fs self =
      (Emit <$> evs)
      ++ [FsPut (output_path self) ""; FsPut (output_path self) (utf8_encode md);
          Emit (progress_signal 100); Emit (finished_signal (output_path self))].
Proof.
  intros HP HL HW.
  destruct (slides_loop_signals _ _ _ _ _ _ HL) as (vs & -> & _ & _ & Hlen).
  exists vs. split; [reflexivity|]. split; [eauto|].
  assert (Hrun : run env fs self =
      (Emit <$> (progress_signal <$> vs))
      ++ [FsPut (output_path self) ""; FsPut (output_path self) (utf8_encode md);
          Emit (progress_signal 100); Emit (finished_signal (output_path self))]).
  { unfold run. rewrite HP, HL, HW. reflexivity. }
  split; [|exact Hrun].
  rewrite Hrun, progress_values_app, progress_values_emit. reflexivity.
Qed.

Lemma final_progress_after_write_witness :
  ∃ vs, progress_values
          (run demo_env demo_fs (PPTXConverter_init "/d/talk.pptx" (Some "/out/talk.md")))
        = vs ++ [100%Z].
Proof.
  destruct (final_progress_after_write demo_env demo_fs
              (PPTXConverter_init "/d/talk.pptx" (Some "/out/talk.md")) deck3
              (fst (slides_loop 3 0 (slides deck3) ("# " +:+ "talk.pptx" +:+ nl +:+ nl)))
              (match snd (slides_loop 3 0 (slides deck3) ("# " +:+ "talk.pptx" +:+ nl +:+ nl)) with
               | Returns md => md | Raises _ => "" end))
    as (vs & _ & _ & Hv & _).
  - vm_compute. reflexivity.
  - vm_compute. reflexivity.
  - vm_compute. reflexivity.
  - exists vs. exact Hv.
Defined.

(** C5 as stated fails: the loop over a one-slide deck completes, the output
    cannot be opened, and no progress event of 100 is emitted. *)
Lemma loop_completed_without_final_progress :
  Presentation demo_env demo_fs
    (pptx_path (PPTXConverter_init "/d/one.pptx" (Some "/ro/one.md"))) = Returns deck_one ∧
  (∃ md, slides_loop 1 0 (slides deck_one) ("# " +:+ "one.pptx" +:+ nl +:+ nl)
         = ([progress_signal 0], Returns md)) ∧
  progress_values (run demo_env demo_fs (PPTXConverter_init "/d/one.pptx" (Some "/ro/one.md")))
  = [0%Z].
Proof.
  split; [vm_compute; reflexivity|]. split; [|vm_compute; reflexivity].
  eexists. vm_compute. reflexivity.
Qed.

(** ** C9: the document does not depend on the destination *)

(** A run reads the file system at the source path only. *)
Lemma run_reads_source_only (env : Env) (fs fs' : gmap string string) (self : PPTXConverter) :
  fs' !! pptx_path self = fs !! pptx_path self → run env fs' self = run env fs self.
Proof. intros H. unfold run, Presentation. now rewrite H. Qed.

(** C9. Converting the same source content, under the same path, to two
    destinations (given or defaulted) writes the same bytes at both: the
    document is determined by the base name of the source and by its deck.
    The two conversions may start from different file systems, such as the
    second one after the first, as long as the source file is the same. *)
Theorem same_document_any_destination (env : Env) (fs fs' : gmap string string) (src : string)
    (o1 o2 : option string) :
  fs' !! src = fs !! src →
  succeeded (run env fs (PPTXConverter_init src o1)) →
  succeeded (run env fs' (PPTXConverter_init src o2)) →
  ∃ prs secs,
    Presentation env fs src = Returns prs ∧
    sections_from 0 (slides prs) = Returns secs ∧
    fs_after fs (run env fs (PPTXConverter_init src o1)) !! output_path (PPTXConverter_init src o1)
    = Some (utf8_encode ("# " +:+ basename src +:+ nl +:+ nl +:+ concat_str secs)) ∧
    fs_after fs' (run env fs' (PPTXConverter_init src o2)) !! output_path (PPTXConverter_init src o2)
    = Some (utf8_encode ("# " +:+ basename src +:+ nl +:+ nl +:+ concat_str secs)).
Proof.
  intros Hsrc H1 H2.
  destruct (run_success_document _ _ _ H1) as (prs & secs & HP & Hs & Hd1).
  destruct (run_success_document _ _ _ H2) as (prs' & secs' & HP' & Hs' & Hd2).
  simpl in HP, HP'. unfold Presentation in HP'. rewrite Hsrc in HP'.
  fold (Presentation env fs src) in HP'. rewrite HP in HP'. inversion HP'; subst prs'.
  rewrite Hs in Hs'. inversion Hs'; subst secs'.
  exists prs, secs. auto.
Qed.

(** The three-slide deck converted to [/out/a.md] and then, from the file
    system the first conversion left, to the default destination. *)
Lemma same_document_any_destination_witness :
  fs_after demo_fs (run demo_env demo_fs (PPTXConverter_init "/d/talk.pptx" (Some "/out/a.md")))
    !! "/out/a.md"
  = fs_after
      (fs_after demo_fs
         (run demo_env demo_fs (PPTXConverter_init "/d/talk.pptx" (Some "/out/a.md"))))
      (run demo_env
         (fs_after demo_fs
            (run demo_env demo_fs (PPTXConverter_init "/d/talk.pptx" (Some "/out/a.md"))))
         (PPTXConverter_init "/d/talk.pptx" None))
    !! "/d/talk.md".
Proof.
  destruct (same_document_any_destination demo_env demo_fs
              (fs_after demo_fs
                 (run demo_env demo_fs (PPTXConverter_init "/d/talk.pptx" (Some "/out/a.md"))))
              "/d/talk.pptx" (Some "/out/a.md") None) as (prs & secs & _ & _ & H1 & H2).
  - vm_compute. reflexivity.
  - exists "/out/a.md". vm_compute. set_solver.
  - exists "/d/talk.md". vm_compute. set_solver.
  - change (output_path (PPTXConverter_init "/d/talk.pptx" (Some "/out/a.md")))
      with "/out/a.md" in H1.
    change (output_path (PPTXConverter_init "/d/talk.pptx" None)) with "/d/talk.md" in H2.
    rewrite H1, H2. reflexivity.
Defined.

(** ** C3, C4: the content blocks of a slide *)

Lemma shape_block_spec (shape : Shape) (t : option Shape) (s : string) :
  shape_block shape t = Some s ↔
  text shape = Some s ∧ strip s ≠ "" ∧ (∀ ts, t = Some ts → element shape ≠ element ts).
Proof.
  unfold shape_block. destruct (text shape) as [s'|]; [|split; [discriminate | intros [? _]; discriminate]].
  destruct (str_bool (strip s')) eqn:Eb; simpl.
  - apply str_bool_true in Eb. destruct t as [ts|]; simpl.
    + destruct (Nat.eqb_spec (element shape) (element ts)) as [Heq|Hne]; simpl.
      * split; [discriminate|]. intros (_ & _ & H). now destruct (H ts eq_refl).
      * split.
        -- intros [= <-]. repeat split; auto. now intros ? [= <-].
        -- now intros ([= <-] & _).
    + split.
      * intros [= <-]. repeat split; auto; discriminate.
      * now intros ([= <-] & _).
  - split; [discriminate|]. intros ([= <-] & Hs & _).
    apply str_bool_true in Hs. congruence.
Qed.

Lemma content_blocks_of_shapes (shs : list Shape) (t : option Shape) :
  omap (λ shape, shape_block shape t) shs
  = omap text (filter (λ shape, is_Some (shape_block shape t)) shs).
Proof.
  induction shs as [|shape rest IH]; [reflexivity|].
  rewrite filter_cons. cbn [omap list_omap]. fold (omap (λ shape, shape_block shape t) rest).
  destruct (shape_block shape t) as [s|] eqn:E.
  - destruct (decide (is_Some (Some s))) as [_|H]; [|destruct H; eauto].
    apply shape_block_spec in E as (Ht & _). cbn [omap list_omap]. rewrite Ht.
    f_equal. exact IH.
  - destruct (decide (is_Some (@None string))) as [[? H]|_]; [discriminate|]. exact IH.
Qed.

(** C3 (amended). The inner loop appends, in the order of the shape traversal,
    the texts of the shapes that have a text attribute, whose trimmed text is
    non-empty and that are not the title shape, and of those shapes only; each
    block is the text as the shape stores it (it is not trimmed), so it is
    non-empty and non-blank.  A shape without text contributes nothing, and the
    loop cannot fail. *)
Theorem content_blocks_are_stored_texts (slide : Slide) (md : string) :
  shapes_loop (shape_list (shapes slide)) (title (shapes slide)) md
  = md +:+ paragraphs (content_blocks slide) ∧
  content_blocks slide = omap text (content_shapes slide) ∧
  (∀ shape, shape ∈ content_shapes slide ↔
     shape ∈ shape_list (shapes slide) ∧
     ∃ s, text shape = Some s ∧ strip s ≠ "" ∧
          ∀ t, title (shapes slide) = Some t → element shape ≠ element t) ∧
  (∀ b, b ∈ content_blocks slide → b ≠ "" ∧ strip b ≠ "").
Proof.
  split; [apply shapes_loop_blocks|]. split; [apply content_blocks_of_shapes|]. split.
  - intros shape. unfold content_shapes. rewrite list_elem_of_filter. split.
    + intros [[s Hs] Hin]. split; [exact Hin|]. exists s. now apply shape_block_spec.
    + intros [Hin (s & Hs)]. split; [|exact Hin]. exists s. now apply shape_block_spec.
  - intros b Hb. unfold content_blocks in Hb. apply list_elem_of_omap in Hb as (shape & _ & Hs).
    apply shape_block_spec in Hs as (_ & Hs & _). split; [|exact Hs]. now apply strip_nonempty.
Qed.

(** The first slide of the three-slide deck: the title and the picture are
    left out, the text box gives the one block. *)
Lemma content_blocks_are_stored_texts_witness :
  content_blocks (mk_slide (Some (text_shape 2 "Intro"))
                    [text_shape 2 "Intro"; text_shape 3 "Welcome"; picture 4])
  = omap text [text_shape 3 "Welcome"] ∧
  "Welcome" ≠ "" ∧ strip "Welcome" ≠ "".
Proof.
  split.
  - exact (proj1 (proj2 (content_blocks_are_stored_texts
             (mk_slide (Some (text_shape 2 "Intro"))
                [text_shape 2 "Intro"; text_shape 3 "Welcome"; picture 4]) ""))).
  - apply (proj2 (proj2 (proj2 (content_blocks_are_stored_texts
             (mk_slide (Some (text_shape 2 "Intro"))
                [text_shape 2 "Intro"; text_shape 3 "Welcome"; picture 4]) "")))).
    vm_compute. set_solver.
Defined.

(** C3 as stated fails: the block of a padded text box keeps its blanks. *)
Lemma padded_block_not_trimmed :
  content_blocks slide_padded = [" hi "] ∧ spec_content_blocks slide_padded = ["hi"].
Proof. split; vm_compute; reflexivity. Qed.

(** C4. The title shape never contributes a content block, and it is left out
    by its identity: a shape that proxies the title's element is skipped
    whatever its text, and any other shape with a non-blank text contributes
    its text, also when that text equals the title's.  So the title's text is
    among the blocks only when another shape carries the same text. *)
Theorem title_excluded_by_identity (slide : Slide) (t : Shape) :
  title (shapes slide) = Some t →
  (∀ shape, shape ∈ content_shapes slide → element shape ≠ element t) ∧
  (∀ shape, element shape = element t → shape_block shape (title (shapes slide)) = None) ∧
  (∀ shape s, shape ∈ shape_list (shapes slide) → element shape ≠ element t →
     text shape = Some s → strip s ≠ "" →
     shape ∈ content_shapes slide ∧ s ∈ content_blocks slide) ∧
  (∀ s, text t = Some s → s ∈ content_blocks slide →
     ∃ shape, shape ∈ shape_list (shapes slide) ∧ element shape ≠ element t ∧
              text shape = Some s).
Proof.
  intros Ht. split; [|split; [|split]].
  - intros shape Hin. unfold content_shapes in Hin.
    apply list_elem_of_filter in Hin as [[s Hs] _].
    apply shape_block_spec in Hs as (_ & _ & Hne). now apply Hne.
  - intros shape Heq. destruct (shape_block shape (title (shapes slide))) as [s|] eqn:E; [|reflexivity].
    apply shape_block_spec in E as (_ & _ & Hne). now destruct (Hne t Ht).
  - intros shape s Hin Hne Hs Hstrip.
    assert (Hb : shape_block shape (title (shapes slide)) = Some s).
    { apply shape_block_spec. repeat split; auto. intros ts Hts. congruence. }
    split.
    + unfold content_shapes. apply list_elem_of_filter. split; [eauto | exact Hin].
    + unfold content_blocks. apply list_elem_of_omap. eauto.
  - intros s _ Hin. unfold content_blocks in Hin.
    apply list_elem_of_omap in Hin as (shape & Hshape & Hb).
    apply shape_block_spec in Hb as (Htext & _ & Hne). exists shape. auto.
Qed.

(** A text box that repeats the title: the title shape is left out, the text
    box is kept. *)
Lemma title_excluded_by_identity_witness :
  content_shapes slide_echo = [text_shape 3 "Intro"] ∧
  "Intro" ∈ content_blocks slide_echo.
Proof.
  split; [vm_compute; reflexivity|].
  apply (proj1 (proj2 (proj2 (title_excluded_by_identity slide_echo
                                (text_shape 2 "Intro") eq_refl)))
           (text_shape 3 "Intro") "Intro").
  - vm_compute. set_solver.
  - vm_compute. lia.
  - reflexivity.
  - vm_compute. discriminate.
Defined.

(** ** Lines of a document *)

Lemma lines_nonempty (s : string) : ∃ l ls, lines s = l :: ls.
Proof.
  induction s as [|c s (l & ls & IH)]; simpl; [eauto|].
  destruct (Ascii.eqb c "010"); [eauto|]. rewrite IH. eauto.
Qed.

Lemma lines_app_nl (a b : string) : lines (a +:+ nl +:+ b) = lines a ++ lines b.
Proof.
  induction a as [|c a IH].
  - reflexivity.
  - rewrite str_app_cons. cbn [lines]. rewrite IH.
    destruct (Ascii.eqb c "010"); [reflexivity|].
    destruct (lines_nonempty a) as (l & ls & ->). reflexivity.
Qed.

Lemma lines_heading (h : string) :
  ∃ l ls, lines h = l :: ls ∧ lines ("## " +:+ h) = ("## " +:+ l) :: ls.
Proof.
  destruct (lines_nonempty h) as (l & ls & E). exists l, ls. split; [exact E|].
  change ("## " +:+ h) with (String "#" (String "#" (String " " h))).
  cbn [lines]. rewrite E. reflexivity.
Qed.

Lemma lines_title (h : string) :
  ∃ l ls, lines h = l :: ls ∧ lines ("# " +:+ h) = ("# " +:+ l) :: ls.
Proof.
  destruct (lines_nonempty h) as (l & ls & E). exists l, ls. split; [exact E|].
  change ("# " +:+ h) with (String "#" (String " " h)).
  cbn [lines]. rewrite E. reflexivity.
Qed.

Section LineCount.
Variable P : string → bool.

Lemma count_lines_app_nl (a b : string) :
  count_lines P (a +:+ nl +:+ b) = count_lines P a + count_lines P b.
Proof. unfold count_lines. now rewrite lines_app_nl, filter_app, length_app. Qed.

Lemma count_lines_blank (a : string) :
  P "" = false → count_lines P (nl +:+ a) = count_lines P a.
Proof.
  intros H. change (nl +:+ a) with ("" +:+ nl +:+ a). rewrite count_lines_app_nl.
  unfold count_lines at 1. cbn [lines]. rewrite filter_cons, filter_nil.
  destruct (decide (P "" = true)); [congruence | reflexivity].
Qed.

Lemma count_filter_none (ls : list string) :
  forallb (λ l, negb (P l)) ls = true → length (filter (λ l, P l = true) ls) = 0.
Proof.
  induction ls as [|l ls IH]; [reflexivity|]. cbn [forallb]. intros H.
  apply andb_prop in H as [Hl Hls]. rewrite filter_cons.
  destruct (decide (P l = true)) as [E|_]; [rewrite E in Hl; discriminate | now apply IH].
Qed.

(** The paragraphs of a slide and what follows them. *)
Lemma count_lines_paragraphs (blocks : list string) (rest : string) :
  P "" = false →
  (∀ b, b ∈ blocks → count_lines P b = 0) →
  count_lines P (paragraphs blocks +:+ rest) = count_lines P rest.
Proof.
  intros H0. induction blocks as [|b bs IH]; intros Hb; [reflexivity|].
  cbn [paragraphs]. rewrite !str_app_assoc, count_lines_app_nl, count_lines_blank by exact H0.
  rewrite IH, Hb; [reflexivity | left | intros b' Hin; apply Hb; now right].
Qed.

(** One section and what follows it. *)
Lemma count_lines_section (h : string) (blocks : list string) (rest : string) :
  P "" = false →
  (∀ b, b ∈ blocks → count_lines P b = 0) →
  count_lines P (slide_section h blocks +:+ rest)
  = count_lines P ("## " +:+ h) + count_lines P "---" + count_lines P rest.
Proof.
  intros H0 Hb. unfold slide_section.
  rewrite !str_app_assoc.
  rewrite <- (str_app_assoc "## " h), count_lines_app_nl, count_lines_blank by exact H0.
  rewrite count_lines_paragraphs by assumption.
  rewrite count_lines_app_nl, count_lines_blank by exact H0. lia.
Qed.
End LineCount.

Lemma no_marker_h2 (ls : list string) :
  forallb (λ l, negb (is_h2_line l) && negb (is_hr_line l)) ls = true →
  forallb (λ l, negb (is_h2_line l)) ls = true.
Proof.
  induction ls as [|l ls IH]; [reflexivity|]. cbn [forallb]. intros H.
  apply andb_prop in H as [Hl Hls]. apply andb_prop in Hl as [-> _]. now apply IH.
Qed.

Lemma no_marker_hr (ls : list string) :
  forallb (λ l, negb (is_h2_line l) && negb (is_hr_line l)) ls = true →
  forallb (λ l, negb (is_hr_line l)) ls = true.
Proof.
  induction ls as [|l ls IH]; [reflexivity|]. cbn [forallb]. intros H.
  apply andb_prop in H as [Hl Hls]. apply andb_prop in Hl as [_ ->]. now apply IH.
Qed.

Lemma is_h2_line_heading (l : string) : is_h2_line ("## " +:+ l) = true.
Proof. unfold is_h2_line. destruct l; reflexivity. Qed.

Lemma count_heading_line (h : string) :
  no_marker_tail h = true →
  count_lines is_h2_line ("## " +:+ h) = 1 ∧ count_lines is_hr_line ("## " +:+ h) = 0.
Proof.
  unfold no_marker_tail, count_lines. intros H.
  destruct (lines_heading h) as (l & ls & E & ->). rewrite E in H. cbn [tail] in H.
  rewrite !filter_cons.
  destruct (decide (is_h2_line ("## " +:+ l) = true)) as [_|Hn];
    [|destruct Hn; apply is_h2_line_heading].
  destruct (decide (is_hr_line ("## " +:+ l) = true)) as [Hy|_]; [discriminate Hy|].
  cbn [length]. now rewrite (count_filter_none _ _ (no_marker_h2 _ H)),
                            (count_filter_none _ _ (no_marker_hr _ H)).
Qed.

Lemma count_title_line (base : string) :
  no_marker_tail base = true →
  count_lines is_h2_line ("# " +:+ base) = 0 ∧ count_lines is_hr_line ("# " +:+ base) = 0.
Proof.
  unfold no_marker_tail, count_lines. intros H.
  destruct (lines_title base) as (l & ls & E & ->). rewrite E in H. cbn [tail] in H.
  rewrite !filter_cons.
  destruct (decide (is_h2_line ("# " +:+ l) = true)) as [Hy|_]; [discriminate Hy|].
  destruct (decide (is_hr_line ("# " +:+ l) = true)) as [Hy|_]; [discriminate Hy|].
  now rewrite (count_filter_none _ _ (no_marker_h2 _ H)),
              (count_filter_none _ _ (no_marker_hr _ H)).
Qed.

Lemma count_block_lines (b : string) :
  no_marker_lines b = true →
  count_lines is_h2_line b = 0 ∧ count_lines is_hr_line b = 0.
Proof.
  unfold no_marker_lines, count_lines. intros H.
  now rewrite (count_filter_none _ _ (no_marker_h2 _ H)),
              (count_filter_none _ _ (no_marker_hr _ H)).
Qed.

Lemma slide_heading_cases (i : nat) (slide : Slide) (h : string) :
  slide_heading i slide = Returns h →
  match title (shapes slide) with
  | Some t => text t = Some h
  | None => h = "Slide " +:+ str_of_nat (i + 1)
  end.
Proof.
  unfold slide_heading. destruct (title (shapes slide)) as [t|].
  - destruct (text t); [|discriminate]. now intros [= ->].
  - now intros [= <-].
Qed.

(** The fallback heading is a single line. *)
Lemma lines_digits (d : Decimal.uint) (rest : string) :
  ∃ l ls, lines rest = l :: ls ∧
          lines (NilEmpty.string_of_uint d +:+ rest) = (NilEmpty.string_of_uint d +:+ l) :: ls.
Proof.
  destruct (lines_nonempty rest) as (l & ls & E). exists l, ls. split; [exact E|].
  induction d as [|d IH|d IH|d IH|d IH|d IH|d IH|d IH|d IH|d IH|d IH];
    cbn [NilEmpty.string_of_uint]; rewrite ?str_app_nil_l, ?str_app_cons;
    try exact E; cbn [lines]; rewrite IH; reflexivity.
Qed.

Lemma fallback_heading_plain (n : nat) : no_marker_tail ("Slide " +:+ str_of_nat n) = true.
Proof.
  unfold no_marker_tail, str_of_nat.
  destruct (lines_digits (Nat.to_uint n) "") as (l & ls & E & H).
  rewrite str_app_nil_r in H. cbn [lines] in E. inversion E; subst l ls.
  change ("Slide " +:+ NilEmpty.string_of_uint (Nat.to_uint n))
    with (String "S" (String "l" (String "i" (String "d" (String "e" (String " "
            (NilEmpty.string_of_uint (Nat.to_uint n)))))))).
  cbn [lines]. rewrite H. reflexivity.
Qed.

Lemma count_sections (sl : list Slide) :
  ∀ i secs, sections_from i sl = Returns secs →
    (∀ k slide, sl !! k = Some slide →
       (∀ h, slide_heading (i + k) slide = Returns h → no_marker_tail h = true) ∧
       (∀ b, b ∈ content_blocks slide → no_marker_lines b = true)) →
    count_lines is_h2_line (concat_str secs) = length sl ∧
    count_lines is_hr_line (concat_str secs) = length sl.
Proof.
  induction sl as [|slide rest IH]; intros i secs H Hplain; simpl in H.
  - inversion H; subst. split; reflexivity.
  - destruct (slide_heading i slide) as [h|] eqn:Eh; [|discriminate].
    destruct (sections_from (S i) rest) as [secs'|] eqn:E; [|discriminate].
    inversion H; subst. cbn [concat_str length].
    destruct (Hplain 0 slide eq_refl) as [Hh Hb]. rewrite Nat.add_0_r in Hh.
    destruct (count_heading_line h (Hh h Eh)) as [Hh2 Hhr].
    destruct (IH (S i) secs' E) as [IH2 IHr].
    { intros k s Hk. replace (S i + k) with (i + S k) by lia. now apply (Hplain (S k)). }
    rewrite !count_lines_section; try reflexivity.
    + rewrite Hh2, Hhr, IH2, IHr. split; reflexivity.
    + intros b Hin. now apply count_block_lines, Hb.
    + intros b Hin. now apply count_block_lines, Hb.
Qed.

(** [basename] gives the part after the last slash. *)
Lemma rfind_none_app (c : ascii) (dir name : string) :
  rfind c name = (-1)%Z →
  rfind c (dir +:+ String c name) = Z.of_nat (String.length dir).
Proof.
  intros Hn. induction dir as [|a dir IH].
  - rewrite str_app_nil_l. cbn [rfind]. rewrite Hn. cbn. now rewrite Ascii.eqb_refl.
  - rewrite str_app_cons. cbn [rfind String.length]. rewrite IH.
    destruct (Z.leb_spec 0 (Z.of_nat (String.length dir))); lia.
Qed.

Lemma str_drop_app (a b : string) : str_drop (String.length a) (a +:+ b) = b.
Proof. induction a as [|c a IH]; [reflexivity|]. rewrite str_app_cons. exact IH. Qed.

Lemma basename_spec (dir name : string) :
  rfind "/" name = (-1)%Z → basename (dir +:+ "/" +:+ name) = name.
Proof.
  intros Hn. unfold basename.
  change (dir +:+ "/" +:+ name) with (dir +:+ String "/" name).
  rewrite (rfind_none_app _ _ _ Hn).
  replace (Z.to_nat (Z.of_nat (String.length dir) + 1)) with (String.length (dir +:+ "/")).
  - rewrite <- (str_drop_app (dir +:+ "/") name) at 2. now rewrite str_app_assoc.
  - clear Hn. induction dir as [|a dir IH]; [reflexivity|].
    rewrite str_app_cons. cbn [String.length]. rewrite IH. lia.
Qed.

(** A deck that was read, whose title placeholders all have text and whose
    output can be written, is converted with success. *)
Lemma slides_loop_returns (total : Z) (sl : list Slide) :
  total ≠ 0%Z →
  (∀ slide t, slide ∈ sl → title (shapes slide) = Some t → is_Some (text t)) →
  ∀ i md, ∃ evs md', slides_loop total i sl md = (evs, Returns md').
Proof.
  intros Ht. induction sl as [|slide rest IH]; intros Htxt i md; simpl; [eauto|].
  destruct (progress_percent_returns (Z.of_nat i) total Ht) as [v ->].
  assert (Hh : ∃ h, slide_heading i slide = Returns h).
  { unfold slide_heading. destruct (title (shapes slide)) as [t|] eqn:E; [|eauto].
    destruct (Htxt slide t ltac:(left) E) as [s ->]. eauto. }
  destruct Hh as [h ->].
  edestruct IH as (evs & md' & ->); [|eauto].
  intros s t Hin. apply Htxt. now right.
Qed.

Lemma run_succeeds (env : Env) (fs : gmap string string) (self : PPTXConverter) (prs : Prs) :
  Presentation env fs (pptx_path self) = Returns prs →
  titles_have_text prs →
  (∀ data, os_write env (output_path self) data = WriteOk) →
  succeeded (run env fs self).
Proof.
  intros HP Ht HW. exists (output_path self). unfold run. rewrite HP.
  destruct (slides prs) as [|slide rest] eqn:Es.
  - simpl. rewrite HW. set_solver.
  - rewrite <- Es.
    destruct (slides_loop_returns (Z.of_nat (length (slides prs))) (slides prs)) with
      (i := 0) (md := "# " +:+ basename (pptx_path self) +:+ nl +:+ nl) as (evs & md' & ->).
    + rewrite Es. cbn [length]. lia.
    + exact Ht.
    + rewrite HW. set_solver.
Qed.

(** ** C1: the structure of the document *)

(** C1 (amended). The document written by a successful run over a deck of N
    slides is the level-1 heading of the source's base name (the part of the
    path after its last slash, extension kept) and a blank line, followed by N
    sections, one per slide in order; a section is the level-2 heading, a
    blank line, each content block followed by a blank line, then a [---] line
    and a blank line, also after the last slide.  When no line of a content
    block, and no line after the first of a title or of the base name, itself
    starts with [## ] or is [---], the document has exactly N level-2 heading
    lines and exactly N horizontal-rule lines. *)
Theorem document_structure (env : Env) (fs : gmap string string) (self : PPTXConverter) :
  succeeded (run env fs self) →
  ∃ prs secs,
    Presentation env fs (pptx_path self) = Returns prs ∧
    fs_after fs (run env fs self) !! output_path self
    = Some (utf8_encode ("# " +:+ basename (pptx_path self) +:+ nl +:+ nl +:+ concat_str secs)) ∧
    (∀ dir name, pptx_path self = dir +:+ "/" +:+ name → rfind "/" name = (-1)%Z →
       basename (pptx_path self) = name) ∧
    length secs = length (slides prs) ∧
    (∀ i slide, slides prs !! i = Some slide →
       ∃ h, slide_heading i slide = Returns h ∧
            secs !! i = Some ("## " +:+ h +:+ nl +:+ nl +:+
                              paragraphs (content_blocks slide) +:+ "---" +:+ nl +:+ nl)) ∧
    (plain_texts (basename (pptx_path self)) prs →
       count_lines is_h2_line
         ("# " +:+ basename (pptx_path self) +:+ nl +:+ nl +:+ concat_str secs)
       = length (slides prs) ∧
       count_lines is_hr_line
         ("# " +:+ basename (pptx_path self) +:+ nl +:+ nl +:+ concat_str secs)
       = length (slides prs)).
Proof.
  intros H. destruct (run_success_document env fs self H) as (prs & secs & HP & Hs & Hd).
  exists prs, secs. split; [exact HP|]. split; [exact Hd|]. split.
  { intros dir name -> Hn. now apply basename_spec. }
  split; [now apply (sections_from_length _ 0)|]. split.
  { intros i slide Hi. apply (sections_from_lookup _ 0 secs i slide Hs Hi). }
  intros [Hbase Hplain].
  destruct (count_title_line _ Hbase) as [Hb2 Hbr].
  destruct (count_sections (slides prs) 0 secs Hs) as [Hs2 Hsr].
  { intros k slide Hk. destruct (Hplain slide) as [Ht Hb].
    { apply list_elem_of_lookup. eauto. }
    split; [|exact Hb]. intros h Hh. apply slide_heading_cases in Hh.
    destruct (title (shapes slide)) as [t|]; [now apply (Ht t) | subst h].
    apply fallback_heading_plain. }
  rewrite <- (str_app_assoc "# " (basename (pptx_path self))).
  rewrite !count_lines_app_nl, !count_lines_blank by reflexivity.
  rewrite Hb2, Hbr, Hs2, Hsr. split; reflexivity.
Qed.

(** The three-slide deck of the specification's round-trip scenario. *)
Lemma document_structure_witness :
  fs_after demo_fs (run demo_env demo_fs (PPTXConverter_init "/d/talk.pptx" (Some "/out/talk.md")))
    !! "/out/talk.md"
  = Some ("# talk.pptx" +:+ nl +:+ nl +:+
          "## Intro" +:+ nl +:+ nl +:+ "Welcome" +:+ nl +:+ nl +:+ "---" +:+ nl +:+ nl +:+
          "## Slide 2" +:+ nl +:+ nl +:+ "Point A" +:+ nl +:+ nl +:+ "Point B" +:+ nl +:+ nl +:+
          "---" +:+ nl +:+ nl +:+
          "## Conclusion" +:+ nl +:+ nl +:+ "---" +:+ nl +:+ nl) ∧
  ∃ prs secs,
    Presentation demo_env demo_fs "/d/talk.pptx" = Returns prs ∧
    length secs = length (slides prs) ∧
    count_lines is_h2_line ("# " +:+ basename "/d/talk.pptx" +:+ nl +:+ nl +:+ concat_str secs)
    = length (slides prs).
Proof.
  split; [vm_compute; reflexivity|].
  destruct (document_structure demo_env demo_fs
              (PPTXConverter_init "/d/talk.pptx" (Some "/out/talk.md")))
    as (prs & secs & HP & _ & _ & Hlen & _ & Hcount).
  - exists "/out/talk.md". vm_compute. set_solver.
  - exists prs, secs. split; [exact HP|]. split; [exact Hlen|].
    apply Hcount. change (pptx_path _) with "/d/talk.pptx" in HP |- *.
    assert (Hprs : Returns prs = Returns deck3) by (rewrite <- HP; vm_compute; reflexivity).
    inversion Hprs; subst prs; clear Hprs.
    split; [vm_compute; reflexivity|].
    intros slide Hin. cbn in Hin. set_unfold.
    destruct Hin as [->|[->|[->|[]]]]; split.
    + intros t s Ht Hs. inversion Ht; subst t. inversion Hs; subst s. reflexivity.
    + intros b Hb. vm_compute in Hb. set_unfold. destruct Hb as [->|[]]. reflexivity.
    + intros t s Ht. discriminate Ht.
    + intros b Hb. vm_compute in Hb. set_unfold. destruct Hb as [->|[->|[]]]; reflexivity.
    + intros t s Ht Hs. inversion Ht; subst t. inversion Hs; subst s. reflexivity.
    + intros b Hb. vm_compute in Hb. set_unfold. destruct Hb.
Defined.

(** C1 as stated fails: a one-slide deck whose text box reads [---] gives a
    document with two horizontal-rule lines. *)
Lemma rule_text_adds_separator :
  length (slides deck_rule) = 1 ∧
  fs_after demo_fs (run demo_env demo_fs (PPTXConverter_init "/d/rule.pptx" (Some "/out/rule.md")))
    !! "/out/rule.md"
  = Some (utf8_encode ("# rule.pptx" +:+ nl +:+ nl +:+ "## Slide 1" +:+ nl +:+ nl +:+
                       "---" +:+ nl +:+ nl +:+ "---" +:+ nl +:+ nl)) ∧
  count_lines is_hr_line ("# rule.pptx" +:+ nl +:+ nl +:+ "## Slide 1" +:+ nl +:+ nl +:+
                          "---" +:+ nl +:+ nl +:+ "---" +:+ nl +:+ nl) = 2.
Proof. repeat split; vm_compute; reflexivity. Qed.

(** ** C2: the heading of a slide *)

(** C2 (amended). In the document of a successful run, the level-2 heading of
    a slide that has a title placeholder is the placeholder's text exactly as
    stored, neither trimmed nor replaced when it is empty or blank, and the
    heading of a slide without a title placeholder is ["Slide {i+1}"] with the
    1-based index.  So the heading is the trimmed title exactly when the stored
    title has no surrounding whitespace and is not empty. *)
Theorem heading_is_stored_title (env : Env) (fs : gmap string string) (self : PPTXConverter) :
  succeeded (run env fs self) →
  ∃ prs secs,
    Presentation env fs (pptx_path self) = Returns prs ∧
    fs_after fs (run env fs self) !! output_path self
    = Some (utf8_encode ("# " +:+ basename (pptx_path self) +:+ nl +:+ nl +:+ concat_str secs)) ∧
    ∀ i slide, slides prs !! i = Some slide →
      ∃ h rest,
        secs !! i = Some ("## " +:+ h +:+ nl +:+ nl +:+ rest) ∧
        match title (shapes slide) with
        | Some t => text t = Some h
        | None => h = "Slide " +:+ str_of_nat (i + 1)
        end ∧
        ((∀ t s, title (shapes slide) = Some t → text t = Some s → strip s = s ∧ s ≠ "") →
         h = spec_heading i slide).
Proof.
  intros H. destruct (run_success_document env fs self H) as (prs & secs & HP & Hs & Hd).
  exists prs, secs. split; [exact HP|]. split; [exact Hd|].
  intros i slide Hi.
  destruct (sections_from_lookup _ 0 secs i slide Hs Hi) as (h & Hh & Hsec).
  exists h, (paragraphs (content_blocks slide) +:+ "---" +:+ nl +:+ nl).
  split; [exact Hsec|]. simpl in Hh. pose proof (slide_heading_cases i slide h Hh) as Hc.
  split; [exact Hc|]. intros Htrim. unfold spec_heading.
  destruct (title (shapes slide)) as [t|]; [|exact Hc].
  rewrite Hc. destruct (Htrim t h eq_refl Hc) as [-> Hne].
  apply str_bool_true in Hne. now rewrite Hne.
Qed.

Lemma heading_is_stored_title_witness :
  ∃ prs (secs : list string),
    Presentation demo_env demo_fs "/d/talk.pptx" = Returns prs ∧
    ∀ i slide, slides prs !! i = Some slide →
      ∃ h rest, secs !! i = Some ("## " +:+ h +:+ nl +:+ nl +:+ rest) ∧
        match title (shapes slide) with
        | Some t => text t = Some h
        | None => h = "Slide " +:+ str_of_nat (i + 1)
        end.
Proof.
  destruct (heading_is_stored_title demo_env demo_fs
              (PPTXConverter_init "/d/talk.pptx" (Some "/out/talk.md")))
    as (prs & secs & HP & _ & Hh).
  - exists "/out/talk.md". vm_compute. set_solver.
  - exists prs, secs. split; [exact HP|]. intros i slide Hi.
    destruct (Hh i slide Hi) as (h & rest & H1 & H2 & _). eauto.
Defined.

(** C2 as stated fails: a padded title is emitted with its blanks, and an
    empty title placeholder gives an empty heading, not the fallback. *)
Lemma padded_and_empty_titles :
  fs_after demo_fs (run demo_env demo_fs (PPTXConverter_init "/d/padded.pptx" (Some "/out/p.md")))
    !! "/out/p.md"
  = Some ("# padded.pptx" +:+ nl +:+ nl +:+
          "##  Intro " +:+ nl +:+ nl +:+ " hi " +:+ nl +:+ nl +:+ "---" +:+ nl +:+ nl +:+
          "## " +:+ nl +:+ nl +:+ "body" +:+ nl +:+ nl +:+ "---" +:+ nl +:+ nl) ∧
  slide_heading 0 slide_padded = Returns " Intro " ∧
  spec_heading 0 slide_padded = "Intro" ∧
  slide_heading 1 slide_blank_title = Returns "" ∧
  spec_heading 1 slide_blank_title = "Slide 2".
Proof. repeat split; vm_compute; reflexivity. Qed.

(** ** Floating-point evaluation of the percentage *)

Section FloatFacts.
Local Open Scope R_scope.



Lemma p2_pos e : 0 < p2 e.
Proof. apply powerRZ_lt. lra. Qed.

Lemma p2_add a b : p2 (a + b) = p2 a * p2 b.
Proof. apply powerRZ_add. lra. Qed.

Lemma p2_neg a : p2 (- a) = / p2 a.
Proof. apply powerRZ_neg'. Qed.

Lemma p2_IZR (k : Z) : (0 <= k)%Z → IZR (2 ^ k) = p2 k.
Proof.
  intros Hk. unfold p2. rewrite <- (Z2Nat.id k Hk) at 1 2.
  rewrite <- pow_IZR. apply pow_powerRZ.
Qed.

Lemma scale_ratio (p q e : Z) :
  (0 < q)%Z →
  IZR (scale_num p e) / IZR (scale_den q e) = IZR p / IZR q * p2 (- e).
Proof.
  intros Hq. unfold scale_num, scale_den.
  assert (Hq' : 0 < IZR q) by now apply IZR_lt.
  destruct (Z.ltb_spec e 0) as [He|He].
  - rewrite mult_IZR, p2_IZR by lia. field. lra.
  - rewrite mult_IZR, p2_IZR by lia. rewrite p2_neg.
    pose proof (p2_pos e). field. lra.
Qed.

Lemma scale_den_pos (q e : Z) : (0 < q)%Z → (0 < scale_den q e)%Z.
Proof.
  intros Hq. unfold scale_den. destruct (Z.ltb_spec e 0); [lia|].
  apply Z.mul_pos_pos; [lia|]. apply Z.pow_pos_nonneg; lia.
Qed.

Lemma scale_num_pos (p e : Z) : (0 < p)%Z → (0 < scale_num p e)%Z.
Proof.
  intros Hp. unfold scale_num. destruct (Z.ltb_spec e 0); [|lia].
  apply Z.mul_pos_pos; [lia|]. apply Z.pow_pos_nonneg; lia.
Qed.

Lemma p2_52 : p2 52 = 4503599627370496.
Proof. rewrite <- p2_IZR by lia. reflexivity. Qed.

Lemma p2_53 : p2 53 = 9007199254740992.
Proof. rewrite <- p2_IZR by lia. reflexivity. Qed.

Lemma p2_1 : p2 1 = 2.
Proof. rewrite <- p2_IZR by lia. reflexivity. Qed.

Lemma log2_bounds (p : Z) : (0 < p)%Z → p2 (Z.log2 p) <= IZR p < 2 * p2 (Z.log2 p).
Proof.
  intros Hp. destruct (Z.log2_spec p Hp) as [H1 H2].
  pose proof (Z.log2_nonneg p) as H0.
  split.
  - rewrite <- p2_IZR by lia. now apply IZR_le.
  - replace (2 * p2 (Z.log2 p)) with (p2 (Z.succ (Z.log2 p))).
    + rewrite <- p2_IZR by lia. now apply IZR_lt.
    + unfold Z.succ. rewrite p2_add, p2_1. ring.
Qed.

Lemma ratio_exponent_spec (p q : Z) :
  (0 < p)%Z → (0 < q)%Z →
  p2 52 <= IZR p / IZR q * p2 (- ratio_exponent p q) < p2 53.
Proof.
  intros Hp Hq. unfold ratio_exponent.
  set (e0 := (Z.log2 p - Z.log2 q - 52)%Z).
  assert (Hq' : 0 < IZR q) by now apply IZR_lt.
  assert (Hp' : 0 < IZR p) by now apply IZR_lt.
  pose proof (log2_bounds p Hp) as [Hp1 Hp2].
  pose proof (log2_bounds q Hq) as [Hq1 Hq2].
  pose proof (p2_pos (Z.log2 p)) as Hlp. pose proof (p2_pos (Z.log2 q)) as Hlq.
  assert (He0 : p2 (- e0) = p2 (Z.log2 q) * p2 52 / p2 (Z.log2 p)).
  { unfold e0. replace (- (Z.log2 p - Z.log2 q - 52))%Z with (Z.log2 q + 52 + - Z.log2 p)%Z by lia.
    rewrite !p2_add, p2_neg. field. lra. }
  set (x := IZR p / IZR q) in *.
  assert (Hx : x * p2 (- e0) = (IZR p / p2 (Z.log2 p)) * (p2 (Z.log2 q) / IZR q) * p2 52).
  { rewrite He0. unfold x. field. lra. }
  assert (Ha : 1 <= IZR p / p2 (Z.log2 p) < 2).
  { split.
    - apply Rmult_le_reg_r with (p2 (Z.log2 p)); [lra|]. field_simplify; lra.
    - apply Rmult_lt_reg_r with (p2 (Z.log2 p)); [lra|]. field_simplify; lra. }
  assert (Hb : / 2 < p2 (Z.log2 q) / IZR q <= 1).
  { split.
    - apply Rmult_lt_reg_r with (IZR q); [lra|]. field_simplify; lra.
    - apply Rmult_le_reg_r with (IZR q); [lra|]. field_simplify; lra. }
  set (a := IZR p / p2 (Z.log2 p)) in *. set (b := p2 (Z.log2 q) / IZR q) in *.
  assert (Hab : / 2 < a * b < 2) by nra.
  rewrite p2_52, p2_53 in *.
  assert (Htest : (scale_num p e0 < scale_den q e0 * 2 ^ 52)%Z ↔ x * p2 (- e0) < 4503599627370496).
  { pose proof (scale_den_pos q e0 Hq) as Hd.
    assert (Hd' : 0 < IZR (scale_den q e0)) by now apply IZR_lt.
    unfold x. rewrite <- scale_ratio by exact Hq. split.
    - intros H. apply IZR_lt in H. rewrite mult_IZR in H.
      change (IZR (2 ^ 52)) with 4503599627370496 in H.
      apply Rmult_lt_reg_r with (IZR (scale_den q e0)); [lra|]. field_simplify; lra.
    - intros H. apply lt_IZR. rewrite mult_IZR. change (IZR (2 ^ 52)) with 4503599627370496.
      apply Rmult_lt_compat_r with (r := IZR (scale_den q e0)) in H; [|lra].
      field_simplify in H; lra. }
  destruct (Z.ltb_spec (scale_num p e0) (scale_den q e0 * 2 ^ 52)) as [E|E].
  - apply Htest in E.
    replace (- (e0 - 1))%Z with (- e0 + 1)%Z by lia. rewrite p2_add, p2_1.
    rewrite Hx in *. nra.
  - assert (¬ x * p2 (- e0) < 4503599627370496) by (intros H; apply Htest in H; lia).
    rewrite Hx in *. nra.
Qed.


Lemma round_half_even_spec (p q : Z) :
  (0 < p)%Z → (0 < q)%Z →
  (2 ^ 52 <= Fnum (round_half_even p q) < 2 ^ 53)%Z ∧
  Rabs (F2R (round_half_even p q) - IZR p / IZR q) <= IZR p / IZR q * ulp_rel.
Proof.
  intros Hp Hq. pose proof (ratio_exponent_spec p q Hp Hq) as Hrho.
  unfold round_half_even.
  set (e := ratio_exponent p q) in *.
  set (a := scale_num p e). set (b := scale_den q e).
  pose proof (scale_num_pos p e Hp) as Ha. pose proof (scale_den_pos q e Hq) as Hb.
  fold a in Ha. fold b in Hb.
  rewrite <- scale_ratio in Hrho by exact Hq. fold a b in Hrho.
  rewrite p2_52, p2_53 in Hrho.
  assert (Ha' : 0 < IZR a) by now apply IZR_lt.
  assert (Hb' : 0 < IZR b) by now apply IZR_lt.
  (* the integer bounds on the scaled fraction *)
  assert (Hlo : (2 ^ 52 * b <= a)%Z).
  { apply le_IZR. rewrite mult_IZR. change (IZR (2 ^ 52)) with 4503599627370496.
    destruct Hrho as [H _]. apply Rmult_le_compat_r with (r := IZR b) in H; [|lra].
    field_simplify in H; lra. }
  assert (Hhi : (a < 2 ^ 53 * b)%Z).
  { apply lt_IZR. rewrite mult_IZR. change (IZR (2 ^ 53)) with 9007199254740992.
    destruct Hrho as [_ H]. apply Rmult_lt_compat_r with (r := IZR b) in H; [|lra].
    field_simplify in H; lra. }
  pose proof (Z.div_mod a b ltac:(lia)) as Hdm.
  pose proof (Z.mod_pos_bound a b Hb) as Hr.
  set (m := (a / b)%Z) in *. set (r := (a mod b)%Z) in *.
  assert (Hm : (2 ^ 52 <= m < 2 ^ 53)%Z).
  { change (2 ^ 52)%Z with 4503599627370496%Z in *.
    change (2 ^ 53)%Z with 9007199254740992%Z in *. nia. }
  set (m' := match (2 * r ?= b)%Z with
             | Lt => m | Gt => (m + 1)%Z | Eq => if Z.even m then m else (m + 1)%Z end).
  assert (Hm' : (m <= m' <= m + 1)%Z ∧ (2 * Z.abs (m' * b - a) <= b)%Z).
  { unfold m'. destruct (Z.compare_spec (2 * r) b) as [E|E|E].
    - destruct (Z.even m); split; lia.
    - split; lia.
    - split; lia. }
  destruct Hm' as [Hm'1 Hm'2].
  (* the value of the result is m' * 2^e in both cases *)
  assert (Hval : ∀ f, f = (if (m' =? 2 ^ 53)%Z then {| Fnum := 2 ^ 52; Fexp := e + 1 |}
                           else {| Fnum := m'; Fexp := e |}) →
                 (2 ^ 52 <= Fnum f < 2 ^ 53)%Z ∧ F2R f = IZR m' * p2 e).
  { intros f ->. destruct (Z.eqb_spec m' (2 ^ 53)) as [E|E]; unfold F2R; cbn [Fnum Fexp].
    - split; [lia|]. rewrite E. fold (p2 (e + 1)). rewrite p2_add, p2_1.
      change (IZR (2 ^ 52)) with 4503599627370496.
      change (IZR (2 ^ 53)) with 9007199254740992. ring.
    - split; [lia|]. reflexivity. }
  destruct (Hval _ eq_refl) as [Hnum HF]. split; [exact Hnum|].
  rewrite HF. clear Hval HF Hnum.
  assert (Hx : IZR p / IZR q = IZR a / IZR b * p2 e).
  { unfold a, b. rewrite scale_ratio by exact Hq. rewrite p2_neg.
    pose proof (p2_pos e). field. split; [lra|]. apply Rgt_not_eq. now apply IZR_lt. }
  rewrite Hx. pose proof (p2_pos e) as He.
  replace (IZR m' * p2 e - IZR a / IZR b * p2 e) with ((IZR m' - IZR a / IZR b) * p2 e) by ring.
  rewrite Rabs_mult, (Rabs_pos_eq (p2 e)) by lra.
  replace (IZR a / IZR b * p2 e * ulp_rel) with (IZR a / IZR b * ulp_rel * p2 e) by ring.
  apply Rmult_le_compat_r; [lra|].
  (* |m' - a/b| <= 1/2 <= (a/b) * 2^-53 *)
  assert (Habs : Rabs (IZR m' - IZR a / IZR b) <= / 2).
  { replace (IZR m' - IZR a / IZR b) with ((IZR m' * IZR b - IZR a) / IZR b) by (field; lra).
    unfold Rdiv. rewrite Rabs_mult, (Rabs_pos_eq (/ IZR b)).
    2:{ left. now apply Rinv_0_lt_compat. }
    rewrite <- mult_IZR, <- minus_IZR, <- abs_IZR.
    apply IZR_le in Hm'2. rewrite mult_IZR in Hm'2.
    apply Rmult_le_reg_r with (IZR b); [lra|]. field_simplify; lra. }
  unfold ulp_rel. lra.
Qed.

Lemma floor_div_bounds (a b : Z) :
  (0 < b)%Z → IZR (a / b) <= IZR a / IZR b < IZR (a / b) + 1.
Proof.
  intros Hb. assert (Hb' : 0 < IZR b) by now apply IZR_lt.
  pose proof (Z.div_mod a b ltac:(lia)) as Hdm.
  pose proof (Z.mod_pos_bound a b Hb) as Hr.
  assert (H1 : (b * (a / b) <= a)%Z) by lia.
  assert (H2 : (a < b * (a / b) + b)%Z) by lia.
  apply IZR_le in H1. apply IZR_lt in H2. rewrite plus_IZR in H2. rewrite mult_IZR in H1, H2.
  split.
  - apply Rmult_le_reg_r with (IZR b); [lra|]. field_simplify; lra.
  - apply Rmult_lt_reg_r with (IZR b); [lra|]. field_simplify; lra.
Qed.

Lemma scale_value (m e : Z) :
  IZR (scale_num m (- e)) / IZR (scale_den 1 (- e)) = IZR m * p2 e.
Proof.
  rewrite scale_ratio by lia. rewrite Z.opp_involutive. field.
Qed.

Lemma float_to_int_spec (f : pyfloat) :
  IZR (float_to_int f) <= F2R f < IZR (float_to_int f) + 1.
Proof.
  unfold float_to_int, F2R. fold (p2 (Fexp f)). rewrite <- scale_value.
  apply floor_div_bounds. apply scale_den_pos. lia.
Qed.

Lemma float_of_ratio_spec (p q : Z) :
  (0 < p)%Z → (0 < q)%Z →
  (0 < Fnum (float_of_ratio p q))%Z ∧
  Rabs (F2R (float_of_ratio p q) - IZR p / IZR q) <= IZR p / IZR q * ulp_rel.
Proof.
  intros Hp Hq. unfold float_of_ratio.
  destruct (Z.eqb_spec p 0) as [E|_]; [lia|].
  destruct (round_half_even_spec p q Hp Hq) as [Hn Hr]. split; [|exact Hr].
  change (2 ^ 52)%Z with 4503599627370496%Z in Hn. lia.
Qed.

Lemma float_mul_100_spec (f : pyfloat) :
  (0 < Fnum f)%Z →
  Rabs (F2R (float_mul f (float_of_int 100)) - 100 * F2R f) <= 100 * F2R f * ulp_rel.
Proof.
  intros Hf. unfold float_mul. cbn [float_of_int Fnum Fexp]. rewrite Z.add_0_r.
  assert (Hp : (0 < scale_num (Fnum f * 100) (- Fexp f))%Z) by (apply scale_num_pos; lia).
  assert (Hq : (0 < scale_den 1 (- Fexp f))%Z) by (apply scale_den_pos; lia).
  destruct (float_of_ratio_spec _ _ Hp Hq) as [_ H].
  rewrite scale_value, mult_IZR in H. unfold F2R. fold (p2 (Fexp f)).
  replace (100 * (IZR (Fnum f) * p2 (Fexp f))) with (IZR (Fnum f) * 100 * p2 (Fexp f)) by ring.
  exact H.
Qed.

Lemma Rabs_bound (a b : R) : Rabs a <= b → - b <= a <= b.
Proof. unfold Rabs. destruct (Rcase_abs a); lra. Qed.

(** The percentage of slide [i] of [N], for a deck of at most [2^45] slides. *)
Lemma percent_bounds (i N : Z) :
  (0 <= i < N)%Z → (N <= 2 ^ 45)%Z →
  ∃ v, progress_percent i N = Returns v ∧
       (0 <= v)%Z ∧ (i * 100 / N - 1 <= v <= i * 100 / N)%Z ∧
       (((i * 100) mod N)%Z ≠ 0%Z → v = (i * 100 / N)%Z).
Proof.
  intros [Hi HiN] HN. unfold progress_percent, py_truediv.
  destruct (Z.eqb_spec N 0) as [E|_]; [lia|].
  eexists; split; [reflexivity|].
  destruct (Z.eq_dec i 0%Z) as [->|Hi0].
  { change (float_to_int (float_mul (float_of_ratio 0 N) (float_of_int 100))) with 0%Z.
    rewrite Z.mul_0_l, Z.div_0_l by lia. cbn. repeat split; try lia. }
  assert (Hip : (0 < i)%Z) by lia. assert (HNp : (0 < N)%Z) by lia.
  destruct (float_of_ratio_spec i N Hip HNp) as [Hn1 Hr1].
  set (f1 := float_of_ratio i N) in *.
  pose proof (float_mul_100_spec f1 Hn1) as Hr2.
  set (f2 := float_mul f1 (float_of_int 100)) in *.
  pose proof (float_to_int_spec f2) as [Hv1 Hv2].
  set (v := float_to_int f2) in *.
  set (x := IZR i / IZR N) in *. set (y1 := F2R f1) in *. set (y2 := F2R f2) in *.
  (* the exact percentage and its floor *)
  set (k := (i * 100 / N)%Z).
  pose proof (Z.div_mod (i * 100) N ltac:(lia)) as Hdm.
  pose proof (Z.mod_pos_bound (i * 100) N HNp) as Hmod. fold k in Hdm.
  set (r := ((i * 100) mod N)%Z) in *.
  assert (Hk : (0 <= k <= 99)%Z) by (unfold k in *; nia).
  assert (HN' : 0 < IZR N) by now apply IZR_lt.
  assert (HNb : IZR N <= 35184372088832).
  { change 35184372088832 with (IZR (2 ^ 45)). now apply IZR_le. }
  assert (Hx : 100 * x = IZR k + IZR r / IZR N).
  { unfold x. apply (f_equal IZR) in Hdm. rewrite plus_IZR, !mult_IZR in Hdm.
    field_simplify; [|lra|lra]. apply Rmult_eq_reg_r with (IZR N); [|lra].
    field_simplify; lra. }
  assert (Hxpos : 0 < x) by (unfold x; apply Rdiv_lt_0_compat; [now apply IZR_lt | lra]).
  assert (Hrb : 0 <= IZR r / IZR N <= 1 - / IZR N).
  { assert (H1 : 0 <= IZR r) by (apply IZR_le; lia).
    assert (H2 : IZR r <= IZR N - 1) by (rewrite <- minus_IZR; apply IZR_le; lia).
    split.
    - apply Rmult_le_reg_r with (IZR N); [lra|]. field_simplify; lra.
    - apply Rmult_le_reg_r with (IZR N); [lra|]. field_simplify; lra. }
  assert (HinvN : / 35184372088832 <= / IZR N) by (apply Rinv_le_contravar; lra).
  assert (Hk' : 0 <= IZR k <= 99) by (split; apply IZR_le; lia).
  unfold ulp_rel in *.
  apply Rabs_bound in Hr1. apply Rabs_bound in Hr2.
  assert (Hy1 : x * (1 - / 9007199254740992) <= y1 <= x * (1 + / 9007199254740992)) by lra.
  assert (Hy2 : 100 * y1 * (1 - / 9007199254740992) <= y2
                <= 100 * y1 * (1 + / 9007199254740992)) by lra.
  set (w := 100 * x) in *.
  assert (Hwx : w = 100 * x) by reflexivity.
  assert (Hw : 0 < w <= 100) by lra.
  assert (Hy : w - w * (3 * / 9007199254740992) <= y2 <= w + w * (3 * / 9007199254740992)) by nra.
  assert (Hlow : IZR k - 1 < y2) by lra.
  assert (Hupp : y2 < IZR k + 1) by lra.
  assert (Hvk1 : (k - 1 <= v)%Z).
  { apply Z.lt_succ_r, lt_IZR. unfold Z.succ. rewrite minus_IZR, plus_IZR. lra. }
  assert (Hvk2 : (v <= k)%Z).
  { apply Z.lt_succ_r, lt_IZR. unfold Z.succ. rewrite plus_IZR. lra. }
  assert (Hv0 : (0 <= v)%Z).
  { apply Z.lt_succ_r, lt_IZR. unfold Z.succ. rewrite plus_IZR.
    assert (0 < y1) by nra. assert (0 < y2) by nra. lra. }
  repeat split; try lia.
  intros Hr0. assert (Hr1' : 1 <= IZR r) by (apply IZR_le; lia).
  assert (Hrn : / IZR N <= IZR r / IZR N).
  { apply Rmult_le_reg_r with (IZR N); [lra|]. field_simplify; lra. }
  assert (Hge : IZR k <= y2) by lra.
  assert (Hvk : (k <= v)%Z).
  { apply Z.lt_succ_r, lt_IZR. unfold Z.succ. rewrite plus_IZR. lra. }
  lia.
Qed.

End FloatFacts.

(** ** The model of the floating-point expression is IEEE 754 binary64 *)

Section Digits.
Local Open Scope Z_scope.

Lemma digits2_pos_bounds (p : positive) :
  2 ^ (Zpos (digits2_pos p) - 1) <= Zpos p < 2 ^ Zpos (digits2_pos p).
Proof.
  induction p as [p IH|p IH|]; cbn [digits2_pos].
  - rewrite Pos2Z.inj_succ. replace (Z.succ (Z.pos (digits2_pos p)) - 1) with (Z.pos (digits2_pos p)) by lia.
    rewrite Z.pow_succ_r by lia.
    replace (Z.pos (digits2_pos p)) with (Z.succ (Z.pos (digits2_pos p) - 1)) at 1 by lia.
    rewrite Z.pow_succ_r by lia. lia.
  - rewrite Pos2Z.inj_succ. replace (Z.succ (Z.pos (digits2_pos p)) - 1) with (Z.pos (digits2_pos p)) by lia.
    rewrite Z.pow_succ_r by lia.
    replace (Z.pos (digits2_pos p)) with (Z.succ (Z.pos (digits2_pos p) - 1)) at 1 by lia.
    rewrite Z.pow_succ_r by lia. lia.
  - cbn. lia.
Qed.

Lemma digits2_pos_unique (p : positive) (d : Z) :
  2 ^ (d - 1) <= Zpos p < 2 ^ d → Zpos (digits2_pos p) = d.
Proof.
  intros [H1 H2]. pose proof (digits2_pos_bounds p) as [B1 B2].
  assert (Hd : 0 < d).
  { destruct (Z.ltb_spec 0 d); [assumption|].
    destruct (Z.eq_dec d 0) as [->|]; [cbn in H2; lia|].
    rewrite Z.pow_neg_r in H2 by lia. lia. }
  destruct (Z.lt_trichotomy (Zpos (digits2_pos p)) d) as [Hlt|[Heq|Hgt]]; [|exact Heq|].
  - assert (2 ^ Zpos (digits2_pos p) <= 2 ^ (d - 1)) by (apply Z.pow_le_mono_r; lia). lia.
  - assert (2 ^ d <= 2 ^ (Zpos (digits2_pos p) - 1)) by (apply Z.pow_le_mono_r; lia). lia.
Qed.

Lemma fexp_normal (e : Z) : -1021 <= e → fexp 53 1024 e = e - 53.
Proof. intros H. unfold fexp, emin. lia. Qed.

End Digits.

Section IEEE.
Local Open Scope R_scope.



Lemma located_floor (m : Z) (l : location) (rho : R) :
  located m l rho → IZR m <= rho < IZR m + 1.
Proof. destruct l as [|[]]; simpl; lra. Qed.

Lemma located_unique (m m' : Z) (l l' : location) (rho : R) :
  located m l rho → located m' l' rho → m = m' ∧ l = l'.
Proof.
  intros H H'. pose proof (located_floor _ _ _ H) as F. pose proof (located_floor _ _ _ H') as F'.
  assert (m = m').
  { assert (IZR m < IZR m' + 1) by lra. assert (IZR m' < IZR m + 1) by lra.
    rewrite <- plus_IZR in *. apply lt_IZR in H0, H1. lia. }
  subst m'. split; [reflexivity|].
  destruct l as [|[]], l' as [|[]]; simpl in *; try reflexivity; lra.
Qed.

Lemma loc_record_inverse (mrs : shr_record) :
  shr_record_of_loc (shr_m mrs) (loc_of_shr_record mrs) = mrs.
Proof. destruct mrs as [m [] []]; reflexivity. Qed.

Lemma shr_1_located (mrs : shr_record) (rho : R) :
  (0 <= shr_m mrs)%Z →
  located (shr_m mrs) (loc_of_shr_record mrs) rho →
  located (shr_m (shr_1 mrs)) (loc_of_shr_record (shr_1 mrs)) (rho / 2) ∧
  shr_m (shr_1 mrs) = (shr_m mrs / 2)%Z.
Proof.
  destruct mrs as [m r s]. cbn [shr_m]. intros Hm H.
  destruct m as [|[p|p|]|p]; try lia.
  - (* 0 *) split; [|reflexivity]. destruct r, s; cbn in *; lra.
  - (* 2p+1 *)
    assert (E : IZR (Z.pos p~1) = 2 * IZR (Z.pos p) + 1).
    { rewrite Pos2Z.inj_xI, plus_IZR, mult_IZR. reflexivity. }
    split.
    + destruct r, s; cbn [shr_1 shr_m loc_of_shr_record orb located] in *; rewrite E in H; lra.
    + cbn [shr_1 shr_m]. rewrite Pos2Z.inj_xI.
      apply Z.div_unique with 1%Z; lia.
  - (* 2p *)
    assert (E : IZR (Z.pos p~0) = 2 * IZR (Z.pos p)).
    { rewrite Pos2Z.inj_xO, mult_IZR. reflexivity. }
    split.
    + destruct r, s; cbn [shr_1 shr_m loc_of_shr_record orb located] in *; rewrite E in H; lra.
    + cbn [shr_1 shr_m]. rewrite Pos2Z.inj_xO.
      apply Z.div_unique with 0%Z; lia.
  - (* 1 *) split; [|reflexivity].
    destruct r, s; cbn [shr_1 shr_m loc_of_shr_record orb located] in *; lra.
Qed.

Lemma iter_pos_nat (A : Type) (f : A → A) (p : positive) (x : A) :
  SpecFloat.iter_pos f p x = Nat.iter (Pos.to_nat p) f x.
Proof.
  revert x. induction p as [p IH|p IH|]; intros x; cbn [SpecFloat.iter_pos].
  - rewrite !IH. rewrite Pos2Nat.inj_xI.
    replace (S (2 * Pos.to_nat p)) with (Pos.to_nat p + (Pos.to_nat p + 1))%nat by lia.
    rewrite !Nat.iter_add. reflexivity.
  - rewrite !IH. rewrite Pos2Nat.inj_xO.
    replace (2 * Pos.to_nat p)%nat with (Pos.to_nat p + Pos.to_nat p)%nat by lia.
    rewrite Nat.iter_add. reflexivity.
  - reflexivity.
Qed.

Lemma shr_iter_located (n : nat) (mrs : shr_record) (rho : R) :
  (0 <= shr_m mrs)%Z →
  located (shr_m mrs) (loc_of_shr_record mrs) rho →
  located (shr_m (Nat.iter n shr_1 mrs)) (loc_of_shr_record (Nat.iter n shr_1 mrs))
    (rho / IZR (2 ^ Z.of_nat n)) ∧
  shr_m (Nat.iter n shr_1 mrs) = (shr_m mrs / 2 ^ Z.of_nat n)%Z.
Proof.
  intros Hm H. induction n as [|n [IH1 IH2]].
  - cbn [Nat.iter nat_rect]. change (2 ^ Z.of_nat 0)%Z with 1%Z. rewrite Z.div_1_r.
    split; [|reflexivity]. now replace (rho / 1) with rho by field.
  - cbn [Nat.iter nat_rect]. fold (Nat.iter n shr_1 mrs).
    assert (Hpos : (0 <= shr_m (Nat.iter n shr_1 mrs))%Z).
    { rewrite IH2. apply Z.div_pos; [lia|]. apply Z.pow_pos_nonneg; lia. }
    destruct (shr_1_located _ _ Hpos IH1) as [H1 H2].
    rewrite Nat2Z.inj_succ, Z.pow_succ_r by lia. split.
    + rewrite mult_IZR.
      replace (rho / (2 * IZR (2 ^ Z.of_nat n))) with (rho / IZR (2 ^ Z.of_nat n) / 2); [exact H1|].
      assert (0 < IZR (2 ^ Z.of_nat n)) by (apply IZR_lt, Z.pow_pos_nonneg; lia).
      field. lra.
    + rewrite H2, IH2. rewrite Z.div_div; [|apply Z.pow_nonzero; lia | lia].
      f_equal. lia.
Qed.

Lemma shr_located (mrs : shr_record) (e n : Z) (rho : R) :
  (0 <= n)%Z → (0 <= shr_m mrs)%Z →
  located (shr_m mrs) (loc_of_shr_record mrs) rho →
  snd (shr mrs e n) = (e + n)%Z ∧
  shr_m (fst (shr mrs e n)) = (shr_m mrs / 2 ^ n)%Z ∧
  located (shr_m (fst (shr mrs e n))) (loc_of_shr_record (fst (shr mrs e n)))
    (rho / IZR (2 ^ n)).
Proof.
  intros Hn Hm H. unfold shr. destruct n as [|p|p]; try lia.
  - cbn [fst snd]. rewrite Z.add_0_r. change (2 ^ 0)%Z with 1%Z. rewrite Z.div_1_r.
    repeat split. now replace (rho / 1) with rho by field.
  - cbn [fst snd]. rewrite iter_pos_nat.
    destruct (shr_iter_located (Pos.to_nat p) mrs rho Hm H) as [H1 H2].
    rewrite positive_nat_Z in H1, H2. auto.
Qed.



Lemma Zdigits2_unique (m d : Z) :
  (0 < m)%Z → (2 ^ (d - 1) <= m < 2 ^ d)%Z → Zdigits2 m = d.
Proof.
  intros Hm H. destruct m as [|p|p]; try lia. cbn [Zdigits2]. now apply digits2_pos_unique.
Qed.

Lemma Zdigits2_bounds (m : Z) :
  (0 < m)%Z → (2 ^ (Zdigits2 m - 1) <= m < 2 ^ Zdigits2 m)%Z ∧ (0 < Zdigits2 m)%Z.
Proof.
  intros Hm. destruct m as [|p|p]; try lia. cbn [Zdigits2]. split; [apply digits2_pos_bounds | lia].
Qed.

Lemma shr_fexp_exact_53 (m e : Z) :
  (2 ^ 52 <= m < 2 ^ 53)%Z → (-1074 <= e)%Z →
  shr_fexp 53 1024 m e loc_Exact = ({| shr_m := m; shr_r := false; shr_s := false |}, e).
Proof.
  intros Hm He. unfold shr_fexp.
  rewrite (Zdigits2_unique m 53) by (cbn; lia).
  rewrite fexp_normal by lia.
  replace (53 + e - 53 - e)%Z with 0%Z by lia. reflexivity.
Qed.

Lemma binary_round_aux_rne (mx ex : Z) (lx : location) (rho : R) :
  (2 ^ 52 <= mx)%Z → located mx lx rho →
  (-1021 <= Zdigits2 mx + ex)%Z → (Zdigits2 mx + ex <= 1000)%Z →
  ∃ M E, binary_round_aux 53 1024 false mx ex lx = S754_finite false (Z.to_pos M) E ∧
         (2 ^ 52 <= M < 2 ^ 53)%Z ∧
         (Zdigits2 mx + ex - 53 <= E <= Zdigits2 mx + ex - 52)%Z ∧
         is_rne (rho * p2 ex) M E.
Proof.
  intros Hmx Hloc Hlo Hhi.
  assert (Hpos : (0 < mx)%Z) by (change (2 ^ 52)%Z with 4503599627370496%Z in Hmx; lia).
  destruct (Zdigits2_bounds mx Hpos) as [[Hd1 Hd2] Hd0].
  set (d := Zdigits2 mx) in *.
  assert (Hd : (53 <= d)%Z).
  { destruct (Z.ltb_spec d 53) as [Hlt|]; [|assumption].
    assert (2 ^ d <= 2 ^ 52)%Z by (apply Z.pow_le_mono_r; lia). lia. }
  set (n := (d - 53)%Z).
  unfold binary_round_aux.
  (* first shift: down to 53 digits *)
  assert (Hshr : shr_fexp 53 1024 mx ex lx = shr (shr_record_of_loc mx lx) ex n).
  { unfold shr_fexp. fold d. rewrite fexp_normal by lia. f_equal. unfold n. lia. }
  rewrite Hshr.
  assert (Hrec : shr_m (shr_record_of_loc mx lx) = mx) by (destruct lx as [|[]]; reflexivity).
  assert (Hrecl : loc_of_shr_record (shr_record_of_loc mx lx) = lx) by (destruct lx as [|[]]; reflexivity).
  destruct (shr_located (shr_record_of_loc mx lx) ex n rho) as (He' & Hm' & Hl').
  { unfold n. lia. } { rewrite Hrec. lia. } { now rewrite Hrec, Hrecl. }
  destruct (shr (shr_record_of_loc mx lx) ex n) as [mrs' e'] eqn:Eshr.
  cbn [fst snd] in He', Hm', Hl'. rewrite Hrec in Hm'.
  set (m' := shr_m mrs') in *. set (l' := loc_of_shr_record mrs') in *.
  assert (Hn0 : (0 <= n)%Z) by (unfold n; lia).
  assert (Hpn : (0 < 2 ^ n)%Z) by (apply Z.pow_pos_nonneg; lia).
  assert (Hm'b : (2 ^ 52 <= m' < 2 ^ 53)%Z).
  { rewrite Hm'. split.
    - apply Z.div_le_lower_bound; [lia|].
      rewrite <- Z.pow_add_r by lia. replace (n + 52)%Z with (d - 1)%Z by (unfold n; lia). lia.
    - apply Z.div_lt_upper_bound; [lia|].
      rewrite <- Z.pow_add_r by lia. replace (n + 53)%Z with d by (unfold n; lia). lia. }
  (* rounding *)
  set (m'' := SpecFloat.round_nearest_even m' l').
  assert (Hm'' : (m' <= m'' <= m' + 1)%Z).
  { unfold m'', SpecFloat.round_nearest_even. destruct l' as [|[]]; try lia.
    destruct (Z.even m'); lia. }
  assert (Hrne : is_rne (rho * p2 ex) (fst (carry m'' e')) (snd (carry m'' e'))).
  { exists m', e', l'. split; [exact Hm'b|]. split; [|symmetry; apply surjective_pairing].
    replace (rho * p2 ex * p2 (- e')) with (rho / IZR (2 ^ n)); [exact Hl'|].
    rewrite He', p2_neg, p2_add, (p2_IZR n Hn0).
    pose proof (p2_pos ex). pose proof (p2_pos n). field. split; lra. }
  unfold carry in Hrne.
  change (2 ^ 52)%Z with 4503599627370496%Z in *.
  change (2 ^ 53)%Z with 9007199254740992%Z in *.
  destruct (Z.eqb_spec m'' 9007199254740992) as [Ecarry|Ecarry]; cbn [fst snd] in Hrne.
  - (* the significand overflowed to 2^53 *)
    rewrite Ecarry.
    assert (Hshr2 : shr_fexp 53 1024 9007199254740992 e' loc_Exact
                    = ({| shr_m := 4503599627370496; shr_r := false; shr_s := false |},
                       (e' + 1)%Z)).
    { unfold shr_fexp. change (Zdigits2 9007199254740992) with 54%Z.
      rewrite fexp_normal by lia. replace (54 + e' - 53 - e')%Z with 1%Z by lia. reflexivity. }
    rewrite Hshr2. cbn [shr_m].
    destruct (Z.leb_spec (e' + 1) (1024 - 53)) as [_|Hbad]; [|lia].
    exists 4503599627370496%Z, (e' + 1)%Z. unfold n in He'. repeat split; try lia. exact Hrne.
  - rewrite (shr_fexp_exact_53 m'' e') by (cbn; lia). cbn [shr_m].
    destruct m'' as [|q|q] eqn:Eq; try lia.
    destruct (Z.leb_spec e' (1024 - 53)) as [_|Hbad]; [|lia].
    exists (Z.pos q), e'. unfold n in He'. repeat split; try lia. exact Hrne.
Qed.

Lemma p2_ge_2 (k : Z) : (1 <= k)%Z → 2 <= p2 k.
Proof.
  intros Hk. rewrite <- p2_IZR by lia. apply IZR_le.
  change 2%Z with (2 ^ 1)%Z at 1. apply Z.pow_le_mono_r; lia.
Qed.

Lemma exponent_unique (x : R) (e e' : Z) :
  0 < x →
  p2 52 <= x * p2 (- e) < p2 53 → p2 52 <= x * p2 (- e') < p2 53 → e = e'.
Proof.
  assert (Hlt : ∀ a b, 0 < x → (a < b)%Z →
            p2 52 <= x * p2 (- a) < p2 53 → p2 52 <= x * p2 (- b) < p2 53 → False).
  { intros a b Hx Hab [Ha1 Ha2] [Hb1 Hb2].
    replace (- a)%Z with (- b + (b - a))%Z in * by lia. rewrite p2_add in *.
    pose proof (p2_ge_2 (b - a) ltac:(lia)). pose proof (p2_pos (- b)).
    rewrite p2_52, p2_53 in *. nra. }
  intros Hx H H'. destruct (Z.lt_trichotomy e e') as [L|[E|L]]; [|exact E|].
  - destruct (Hlt e e' Hx L H H').
  - destruct (Hlt e' e Hx L H' H).
Qed.

Lemma is_rne_unique (x : R) (M E M' E' : Z) :
  0 < x → is_rne x M E → is_rne x M' E' → M = M' ∧ E = E'.
Proof.
  intros Hx (m & e & l & Hm & Hl & Hc) (m' & e' & l' & Hm' & Hl' & Hc').
  assert (Hb : ∀ m e l, (2 ^ 52 <= m < 2 ^ 53)%Z → located m l (x * p2 (- e)) →
                        p2 52 <= x * p2 (- e) < p2 53).
  { clear. intros m e l [H1 H2] Hl. apply located_floor in Hl.
    apply IZR_le in H1. assert (H3 : (m + 1 <= 2 ^ 53)%Z) by lia. apply IZR_le in H3.
    rewrite plus_IZR in H3. rewrite p2_52, p2_53.
    change (IZR (2 ^ 52)) with 4503599627370496 in H1.
    change (IZR (2 ^ 53)) with 9007199254740992 in H3. lra. }
  assert (e = e') by (eapply exponent_unique; eauto). subst e'.
  destruct (located_unique _ _ _ _ _ Hl Hl') as [-> ->].
  rewrite <- Hc' in Hc. now inversion Hc.
Qed.

(** The rounding of the model is the same rounding. *)
Lemma round_half_even_is_rne (p q : Z) :
  (0 < p)%Z → (0 < q)%Z →
  is_rne (IZR p / IZR q) (Fnum (round_half_even p q)) (Fexp (round_half_even p q)).
Proof.
  intros Hp Hq. pose proof (ratio_exponent_spec p q Hp Hq) as Hrho.
  unfold round_half_even.
  set (e := ratio_exponent p q) in *.
  set (a := scale_num p e). set (b := scale_den q e).
  pose proof (scale_num_pos p e Hp) as Ha. pose proof (scale_den_pos q e Hq) as Hb.
  fold a in Ha. fold b in Hb.
  rewrite <- scale_ratio in Hrho by exact Hq. fold a b in Hrho.
  rewrite p2_52, p2_53 in Hrho.
  assert (Ha' : 0 < IZR a) by now apply IZR_lt.
  assert (Hb' : 0 < IZR b) by now apply IZR_lt.
  pose proof (Z.div_mod a b ltac:(lia)) as Hdm.
  pose proof (Z.mod_pos_bound a b Hb) as Hr.
  pose proof (floor_div_bounds a b Hb) as Hfl.
  set (m := (a / b)%Z) in *. set (r := (a mod b)%Z) in *.
  assert (Hm : (2 ^ 52 <= m < 2 ^ 53)%Z).
  { change (2 ^ 52)%Z with 4503599627370496%Z. change (2 ^ 53)%Z with 9007199254740992%Z.
    split.
    - apply Z.lt_succ_r, lt_IZR. unfold Z.succ. rewrite plus_IZR. lra.
    - apply lt_IZR. lra. }
  assert (Hfrac : IZR a / IZR b = IZR m + IZR r / IZR b).
  { apply (f_equal IZR) in Hdm. rewrite plus_IZR, mult_IZR in Hdm. rewrite Hdm. field. lra. }
  set (l := if (r =? 0)%Z then loc_Exact else loc_Inexact (2 * r ?= b)%Z).
  exists m, e, l. split; [exact Hm|]. split.
  - rewrite <- scale_ratio by exact Hq. fold a b. rewrite Hfrac. unfold l.
    destruct (Z.eqb_spec r 0) as [E0|E0].
    + simpl. rewrite E0. lra.
    + assert (Hrpos : 0 < IZR r) by (apply IZR_lt; lia).
      assert (Hrb : IZR r < IZR b) by (apply IZR_lt; lia).
      destruct (Z.compare_spec (2 * r) b) as [E|E|E]; simpl.
      * apply (f_equal IZR) in E. rewrite mult_IZR in E.
        replace (IZR r / IZR b) with (/ 2); [reflexivity|]. rewrite <- E. field. lra.
      * apply IZR_lt in E. rewrite mult_IZR in E. split.
        -- assert (0 < IZR r / IZR b) by (apply Rdiv_lt_0_compat; lra). lra.
        -- assert (IZR r / IZR b < / 2); [|lra].
           apply Rmult_lt_reg_r with (IZR b); [lra|]. field_simplify; lra.
      * apply IZR_lt in E. rewrite mult_IZR in E. split.
        -- assert (/ 2 < IZR r / IZR b); [|lra].
           apply Rmult_lt_reg_r with (IZR b); [lra|]. field_simplify; lra.
        -- assert (IZR r / IZR b < 1); [|lra].
           apply Rmult_lt_reg_r with (IZR b); [lra|]. field_simplify; lra.
  - assert (Hdec : SpecFloat.round_nearest_even m l
                   = match (2 * r ?= b)%Z with
                     | Lt => m | Gt => (m + 1)%Z
                     | Eq => if Z.even m then m else (m + 1)%Z end).
    { unfold l. destruct (Z.eqb_spec r 0) as [E0|E0].
      - rewrite E0. simpl. destruct b; try lia; reflexivity.
      - destruct (2 * r ?= b)%Z; reflexivity. }
    rewrite Hdec. unfold carry.
    destruct (_ =? 2 ^ 53)%Z; reflexivity.
Qed.

Lemma new_location_located (a b q r : Z) :
  (0 < b)%Z → a = (b * q + r)%Z → (0 <= r < b)%Z →
  located q (new_location b r) (IZR a / IZR b).
Proof.
  intros Hb Ha Hr. assert (Hb' : 0 < IZR b) by now apply IZR_lt.
  assert (Hfrac : IZR a / IZR b = IZR q + IZR r / IZR b).
  { rewrite Ha, plus_IZR, mult_IZR. field. lra. }
  rewrite Hfrac. unfold new_location, new_location_even, new_location_odd.
  assert (Hlt : ∀ k, (2 * k < b)%Z → IZR k / IZR b < / 2).
  { intros k Hk. apply IZR_lt in Hk. rewrite mult_IZR in Hk.
    apply Rmult_lt_reg_r with (IZR b); [lra|]. field_simplify; lra. }
  assert (Hgt : ∀ k, (b < 2 * k)%Z → / 2 < IZR k / IZR b).
  { intros k Hk. apply IZR_lt in Hk. rewrite mult_IZR in Hk.
    apply Rmult_lt_reg_r with (IZR b); [lra|]. field_simplify; lra. }
  assert (Hone : IZR r / IZR b < 1).
  { assert (IZR r < IZR b) by (apply IZR_lt; lia).
    apply Rmult_lt_reg_r with (IZR b); [lra|]. field_simplify; lra. }
  assert (Hzero : r = 0%Z → IZR q + IZR r / IZR b = IZR q).
  { intros ->. field. lra. }
  assert (Hrpos : r ≠ 0%Z → 0 < IZR r / IZR b).
  { intros E0. apply Rdiv_lt_0_compat; [apply IZR_lt; lia | lra]. }
  destruct (Z.even b) eqn:Eb; destruct (Z.eqb_spec r 0) as [E0|E0];
    try (simpl; now apply Hzero); specialize (Hrpos E0).
  - destruct (Z.compare_spec (2 * r) b) as [E|E|E]; simpl.
    + apply (f_equal IZR) in E. rewrite mult_IZR in E.
      replace (IZR r / IZR b) with (/ 2); [reflexivity|]. rewrite <- E. field. lra.
    + pose proof (Hlt r E). lra.
    + pose proof (Hgt r E). lra.
  - assert (Hodd : Z.odd b = true) by (rewrite <- Z.negb_even, Eb; reflexivity).
    apply Z.odd_spec in Hodd as [j Hj].
    destruct (Z.compare_spec (2 * r + 1) b) as [E|E|E]; simpl.
    + pose proof (Hlt r ltac:(lia)). lra.
    + pose proof (Hlt r ltac:(lia)). lra.
    + pose proof (Hgt r ltac:(lia)). lra.
Qed.

Lemma binary_round_aux_exact_53 (m e : Z) :
  (2 ^ 52 <= m < 2 ^ 53)%Z → (-1074 <= e <= 971)%Z →
  binary_round_aux 53 1024 false m e loc_Exact = S754_finite false (Z.to_pos m) e.
Proof.
  intros Hm He. unfold binary_round_aux.
  rewrite (shr_fexp_exact_53 m e) by lia. cbn [shr_m loc_of_shr_record SpecFloat.round_nearest_even].
  rewrite (shr_fexp_exact_53 m e) by lia. cbn [shr_m].
  change (2 ^ 52)%Z with 4503599627370496%Z in Hm.
  destruct m as [|p|p]; try lia.
  destruct (Z.leb_spec e (1024 - 53)); [reflexivity | lia].
Qed.

Lemma pos_iter_xO (p k : positive) : Z.pos (Pos.iter xO p k) = (Z.pos p * 2 ^ Z.pos k)%Z.
Proof.
  induction k as [|k IH] using Pos.peano_ind.
  - cbn [Pos.iter]. rewrite Pos2Z.inj_xO. lia.
  - rewrite Pos.iter_succ, Pos2Z.inj_xO, IH, Pos2Z.inj_succ, Z.pow_succ_r by lia. lia.
Qed.

(** [float(n)] in [SpecFloat]: the normalised significand and its exponent. *)
Lemma SF_of_int_finite (n : Z) :
  (0 < n < 2 ^ 53)%Z →
  ∃ m e, SF_of_int n = S754_finite false m e ∧
         (2 ^ 52 <= Z.pos m < 2 ^ 53)%Z ∧ (-52 <= e <= 0)%Z ∧
         IZR (Z.pos m) * p2 e = IZR n.
Proof.
  intros [Hn Hn53]. destruct n as [|p|p]; try lia.
  unfold SF_of_int, binary_normalize, binary_round.
  pose proof (digits2_pos_bounds p) as [Hd1 Hd2].
  set (d := Z.pos (digits2_pos p)) in *.
  assert (Hd : (1 <= d <= 53)%Z).
  { split; [unfold d; lia|]. destruct (Z.leb_spec d 53); [assumption|].
    assert (2 ^ 53 <= 2 ^ (d - 1))%Z by (apply Z.pow_le_mono_r; lia). lia. }
  rewrite fexp_normal by lia. unfold shl_align.
  destruct (d + 0 - 53 - 0)%Z as [|k|k] eqn:Ek; try lia.
  - assert (d = 53%Z) by lia.
    rewrite binary_round_aux_exact_53; [|replace 52%Z with (d - 1)%Z by lia;
      replace 53%Z with d at 2 by lia; lia | lia].
    assert (Hp52 : (2 ^ 52 <= Z.pos p)%Z) by (replace 52%Z with (d - 1)%Z by lia; lia).
    exists p, 0%Z. repeat split; try lia.
    unfold p2. rewrite powerRZ_O. ring.
  - assert (Hk : Z.pos k = (53 - d)%Z) by lia.
    assert (Hmz : (2 ^ 52 <= Z.pos (Pos.iter xO p k) < 2 ^ 53)%Z).
    { rewrite pos_iter_xO, Hk.
      assert (E52 : (2 ^ 52 = 2 ^ (d - 1) * 2 ^ (53 - d))%Z).
      { rewrite <- Z.pow_add_r by lia. f_equal. lia. }
      assert (E53 : (2 ^ 53 = 2 ^ d * 2 ^ (53 - d))%Z).
      { rewrite <- Z.pow_add_r by lia. f_equal. lia. }
      rewrite E52, E53.
      assert (0 < 2 ^ (53 - d))%Z by (apply Z.pow_pos_nonneg; lia). nia. }
    rewrite binary_round_aux_exact_53 by (try exact Hmz; lia).
    exists (Pos.iter xO p k), (d + 0 - 53)%Z. repeat split; try lia.
    rewrite pos_iter_xO, mult_IZR, p2_IZR by lia.
    rewrite Rmult_assoc, <- p2_add. replace (Z.pos k + (d + 0 - 53))%Z with 0%Z by lia.
    unfold p2. rewrite powerRZ_O. ring.
Qed.

Lemma SF_of_pyfloat_finite (f : pyfloat) (M E : Z) :
  (0 < M)%Z → Fnum f = M → Fexp f = E → SF_of_pyfloat f = S754_finite false (Z.to_pos M) E.
Proof.
  intros HM <- <-. unfold SF_of_pyfloat. destruct (Fnum f); try lia. reflexivity.
Qed.

(** IEEE division of two exactly converted ints is the correctly rounded
    quotient of the model. *)
Lemma SFdiv_round_half_even (i n : Z) :
  (0 < i < 2 ^ 53)%Z → (0 < n < 2 ^ 53)%Z →
  SFdiv 53 1024 (SF_of_int i) (SF_of_int n) = SF_of_pyfloat (round_half_even i n).
Proof.
  intros Hi Hn.
  destruct (SF_of_int_finite i Hi) as (m1 & e1 & -> & Hm1 & He1 & Hv1).
  destruct (SF_of_int_finite n Hn) as (m2 & e2 & -> & Hm2 & He2 & Hv2).
  unfold SFdiv, SFdiv_core_binary.
  rewrite (Zdigits2_unique (Z.pos m1) 53), (Zdigits2_unique (Z.pos m2) 53) by (cbn; lia).
  rewrite fexp_normal by lia.
  replace (Z.min (53 + e1 - (53 + e2) - 53) (e1 - e2))%Z with (e1 - e2 - 53)%Z by lia.
  replace (e1 - e2 - (e1 - e2 - 53))%Z with 53%Z by lia.
  rewrite Z.shiftl_mul_pow2 by lia.
  set (a := (Z.pos m1 * 2 ^ 53)%Z).
  pose proof (Z_div_mod a (Z.pos m2) ltac:(lia)) as Hdm.
  destruct (Z.div_eucl a (Z.pos m2)) as [q r]. destruct Hdm as [Hdm Hr].
  pose proof (new_location_located a (Z.pos m2) q r ltac:(lia) Hdm ltac:(lia)) as Hloc.
  change (2 ^ 52)%Z with 4503599627370496%Z in *.
  change (2 ^ 53)%Z with 9007199254740992%Z in *.
  assert (Hq : (4503599627370496 <= q < 18014398509481984)%Z) by (unfold a in Hdm; nia).
  assert (Hdq : (53 <= Zdigits2 q <= 54)%Z).
  { destruct (Zdigits2_bounds q ltac:(lia)) as [[B1 B2] B0]. split.
    - destruct (Z.leb_spec 53 (Zdigits2 q)); [assumption|].
      assert (2 ^ Zdigits2 q <= 2 ^ 52)%Z by (apply Z.pow_le_mono_r; lia).
      change (2 ^ 52)%Z with 4503599627370496%Z in *. lia.
    - destruct (Z.leb_spec (Zdigits2 q) 54); [assumption|].
      assert (2 ^ 54 <= 2 ^ (Zdigits2 q - 1))%Z by (apply Z.pow_le_mono_r; lia).
      change (2 ^ 54)%Z with 18014398509481984%Z in *. lia. }
  destruct (binary_round_aux_rne q (e1 - e2 - 53) (new_location (Z.pos m2) r) _
              ltac:(change (2 ^ 52)%Z with 4503599627370496%Z; lia) Hloc ltac:(lia) ltac:(lia))
    as (M & E & HSF & HM & _ & Hrne).
  cbn [xorb]. rewrite HSF.
  assert (Hx : IZR a / IZR (Z.pos m2) * p2 (e1 - e2 - 53) = IZR i / IZR n).
  { rewrite <- Hv1, <- Hv2. unfold a. rewrite mult_IZR.
    change (IZR 9007199254740992) with (IZR (2 ^ 53)). rewrite p2_IZR by lia.
    replace (e1 - e2 - 53)%Z with (e1 + (- e2 + - (53)))%Z by lia.
    rewrite !p2_add, !p2_neg.
    pose proof (p2_pos e2). pose proof (p2_pos 53).
    assert (0 < IZR (Z.pos m2)) by (apply IZR_lt; lia). field. repeat split; lra. }
  rewrite Hx in Hrne.
  assert (Hxpos : 0 < IZR i / IZR n).
  { apply Rdiv_lt_0_compat; apply IZR_lt; lia. }
  destruct (is_rne_unique _ _ _ _ _ Hxpos Hrne
              (round_half_even_is_rne i n ltac:(lia) ltac:(lia))) as [HMeq HEeq].
  symmetry. apply SF_of_pyfloat_finite; auto.
  change (2 ^ 52)%Z with 4503599627370496%Z in HM. lia.
Qed.

(** IEEE multiplication by [100.0] is the correctly rounded product of the
    model. *)
Lemma SFmul_100_float_mul (m e : Z) :
  (2 ^ 52 <= m < 2 ^ 53)%Z → (-1000 <= e <= 900)%Z →
  SFmul 53 1024 (S754_finite false (Z.to_pos m) e) (SF_of_int 100)
  = SF_of_pyfloat (float_mul {| Fnum := m; Fexp := e |} (float_of_int 100)).
Proof.
  intros Hm He.
  change (2 ^ 52)%Z with 4503599627370496%Z in *.
  change (2 ^ 53)%Z with 9007199254740992%Z in *.
  change (SF_of_int 100) with (S754_finite false 7036874417766400 (-46)).
  cbn [SFmul xorb]. rewrite Pos2Z.inj_mul, Z2Pos.id by lia.
  set (mx := (m * 7036874417766400)%Z).
  assert (Hmx : (2 ^ 104 <= mx < 2 ^ 106)%Z).
  { unfold mx. change (2 ^ 104)%Z with (4503599627370496 * 4503599627370496)%Z.
    change (2 ^ 106)%Z with (9007199254740992 * 9007199254740992)%Z. nia. }
  assert (Hdx : (105 <= Zdigits2 mx <= 106)%Z).
  { destruct (Zdigits2_bounds mx ltac:(lia)) as [[B1 B2] B0]. split.
    - destruct (Z.leb_spec 105 (Zdigits2 mx)); [assumption|].
      assert (2 ^ Zdigits2 mx <= 2 ^ 104)%Z by (apply Z.pow_le_mono_r; lia). lia.
    - destruct (Z.leb_spec (Zdigits2 mx) 106); [assumption|].
      assert (2 ^ 106 <= 2 ^ (Zdigits2 mx - 1))%Z by (apply Z.pow_le_mono_r; lia). lia. }
  destruct (binary_round_aux_rne mx (e + -46) loc_Exact (IZR mx)) as (M & E & HSF & HM & _ & Hrne).
  { change (2 ^ 104)%Z with (2 ^ 52 * 4503599627370496)%Z in Hmx. lia. }
  { reflexivity. } { lia. } { lia. }
  rewrite HSF.
  (* the product in the model *)
  unfold float_mul. cbn [float_of_int Fnum Fexp]. rewrite Z.add_0_r.
  assert (Hp : (0 < scale_num (m * 100) (- e))%Z) by (apply scale_num_pos; lia).
  assert (Hq : (0 < scale_den 1 (- e))%Z) by (apply scale_den_pos; lia).
  unfold float_of_ratio. destruct (Z.eqb_spec (scale_num (m * 100) (- e)) 0) as [E0|_]; [lia|].
  pose proof (round_half_even_is_rne _ _ Hp Hq) as Hmine.
  rewrite scale_value in Hmine.
  assert (Hx : IZR mx * p2 (e + -46) = IZR (m * 100) * p2 e).
  { unfold mx. rewrite !mult_IZR, p2_add.
    replace (p2 (-46)) with (/ 70368744177664).
    - field.
    - change (p2 (-46)) with (p2 (- (46))). rewrite p2_neg, <- p2_IZR by lia. reflexivity. }
  rewrite Hx in Hrne.
  assert (Hxpos : 0 < IZR (m * 100) * p2 e).
  { apply Rmult_lt_0_compat; [apply IZR_lt; lia | apply p2_pos]. }
  destruct (is_rne_unique _ _ _ _ _ Hxpos Hrne Hmine) as [HMeq HEeq].
  symmetry. apply SF_of_pyfloat_finite; auto.
  change (2 ^ 52)%Z with 4503599627370496%Z in HM. lia.
Qed.

Lemma p2_le (a b : Z) : (a <= b)%Z → p2 a <= p2 b.
Proof.
  intros H. replace b with (a + (b - a))%Z by lia. rewrite p2_add.
  assert (1 <= p2 (b - a)).
  { rewrite <- p2_IZR by lia. apply IZR_le.
    assert (0 < 2 ^ (b - a))%Z by (apply Z.pow_pos_nonneg; lia). lia. }
  pose proof (p2_pos a). nra.
Qed.

Lemma p2_lt_inv (a b : Z) : p2 a < p2 b → (a < b)%Z.
Proof.
  intros H. destruct (Z.ltb_spec a b) as [|Hge]; [assumption|].
  apply p2_le in Hge. lra.
Qed.

Lemma round_half_even_exponent (p q : Z) :
  (0 < p < 2 ^ 53)%Z → (0 < q < 2 ^ 53)%Z →
  (-106 <= Fexp (round_half_even p q) <= 1)%Z.
Proof.
  intros Hp Hq. pose proof (ratio_exponent_spec p q ltac:(lia) ltac:(lia)) as [H1 H2].
  assert (He : (-106 <= ratio_exponent p q <= 0)%Z).
  { set (e := ratio_exponent p q) in *.
    assert (Hp1 : 1 <= IZR p) by (apply IZR_le; lia).
    assert (Hp2 : IZR p < p2 53) by (rewrite <- p2_IZR by lia; apply IZR_lt; lia).
    assert (Hq1 : 1 <= IZR q) by (apply IZR_le; lia).
    assert (Hq2 : IZR q < p2 53) by (rewrite <- p2_IZR by lia; apply IZR_lt; lia).
    pose proof (p2_pos (- e)) as Hpe. rewrite p2_52, p2_53 in *.
    set (x := IZR p / IZR q) in *.
    assert (Hx1 : / 9007199254740992 < x).
    { unfold x. apply Rmult_lt_reg_r with (IZR q); [lra|]. field_simplify; lra. }
    assert (Hx2 : x < 9007199254740992).
    { unfold x. apply Rmult_lt_reg_r with (IZR q); [lra|]. field_simplify; try lra; nra. }
    split.
    - (* p2 (-e) < 2^53 / x < 2^106 *)
      assert (p2 (- e) < p2 106).
      { replace (p2 106) with (9007199254740992 * 9007199254740992).
        - assert (x * p2 (- e) < x * (9007199254740992 * 9007199254740992)); [|nra].
          assert (1 < x * 9007199254740992); [|nra].
          apply Rmult_lt_reg_l with (/ 9007199254740992); [lra|]. field_simplify. lra.
        - rewrite <- p2_IZR by lia. rewrite <- mult_IZR. reflexivity. }
      apply p2_lt_inv in H. lia.
    - (* 2^52 / x <= p2 (-e), with x < 2^53 *)
      assert (p2 (-1) < p2 (- e)).
      { replace (p2 (-1)) with (/ 2).
        - nra.
        - change (p2 (-1)) with (p2 (- (1))). rewrite p2_neg, p2_1. reflexivity. }
      apply p2_lt_inv in H. lia. }
  unfold round_half_even. fold (ratio_exponent p q).
  destruct (_ =? 2 ^ 53)%Z; cbn [Fexp]; lia.
Qed.

(** The floating-point expression of the model is the IEEE 754 binary64
    evaluation of [(i / n) * 100] for all ints below [2^53]. *)
Lemma percent_float_is_IEEE (i n : Z) :
  (0 <= i < 2 ^ 53)%Z → (0 < n < 2 ^ 53)%Z →
  SF_percent_float i n = SF_of_pyfloat (percent_float i n).
Proof.
  intros Hi Hn. unfold SF_percent_float, percent_float.
  destruct (Z.eq_dec i 0%Z) as [->|Hi0].
  { destruct (SF_of_int_finite n Hn) as (m2 & e2 & -> & _). reflexivity. }
  rewrite SFdiv_round_half_even by lia.
  unfold float_of_ratio at 1. destruct (Z.eqb_spec i 0) as [|_]; [lia|].
  destruct (round_half_even_spec i n ltac:(lia) ltac:(lia)) as [Hnum _].
  pose proof (round_half_even_exponent i n ltac:(lia) Hn) as Hexp.
  destruct (round_half_even i n) as [m e]. cbn [Fnum Fexp] in *.
  rewrite (SF_of_pyfloat_finite {| Fnum := m; Fexp := e |} m e) by
    (try reflexivity; change (2 ^ 52)%Z with 4503599627370496%Z in Hnum; lia).
  apply SFmul_100_float_mul; lia.
Qed.

End IEEE.

Lemma percent_below_100 (i N v : Z) :
  (0 <= i < N)%Z → (N <= 2 ^ 45)%Z → progress_percent i N = Returns v → (0 <= v <= 99)%Z.
Proof.
  intros Hi HN Hv. destruct (percent_bounds i N Hi HN) as (v' & Hv' & H0 & [_ Hk] & _).
  rewrite Hv in Hv'. inversion Hv'; subst v'.
  assert (i * 100 / N < 100)%Z by (apply Z.div_lt_upper_bound; lia). lia.
Qed.

Lemma percent_mono (i j N vi vj : Z) :
  (0 <= i <= j)%Z → (j < N)%Z → (N <= 2 ^ 45)%Z →
  progress_percent i N = Returns vi → progress_percent j N = Returns vj → (vi <= vj)%Z.
Proof.
  intros [Hi Hij] Hj HN Hvi Hvj.
  destruct (Z.eq_dec i j) as [->|Hne].
  { rewrite Hvi in Hvj. inversion Hvj. lia. }
  destruct (percent_bounds i N ltac:(lia) HN) as (v1 & H1 & _ & [_ Hi2] & _).
  destruct (percent_bounds j N ltac:(lia) HN) as (v2 & H2 & _ & [Hj1 _] & Hjx).
  rewrite Hvi in H1. rewrite Hvj in H2. inversion H1; inversion H2; subst v1 v2.
  assert (Hk : (i * 100 / N <= j * 100 / N)%Z) by (apply Z.div_le_mono; lia).
  destruct (Z.eq_dec (i * 100 / N)%Z (j * 100 / N)%Z) as [Heq|Hlt]; [|lia].
  assert (Hmod : ((j * 100) mod N ≠ 0)%Z).
  { pose proof (Z.div_mod (i * 100) N ltac:(lia)) as Hdi.
    pose proof (Z.div_mod (j * 100) N ltac:(lia)) as Hdj.
    pose proof (Z.mod_pos_bound (i * 100) N ltac:(lia)).
    rewrite Heq in Hdi. lia. }
  rewrite (Hjx Hmod). lia.
Qed.

Lemma non_decreasing_adjacent (l : list Z) :
  (∀ k a b, l !! k = Some a → l !! S k = Some b → (a <= b)%Z) → non_decreasing l.
Proof.
  induction l as [|x [|y l] IH]; intros H; simpl; auto.
  split.
  - apply (H 0 x y); reflexivity.
  - apply IH. intros k a b Ha Hb. apply (H (S k) a b); assumption.
Qed.

Lemma progress_fmap_inj (a b : list Z) :
  progress_signal <$> a = progress_signal <$> b → a = b.
Proof.
  intros H. rewrite <- (progress_values_emit a), H. apply progress_values_emit.
Qed.

(** The progress values of the slide loop over a whole deck. *)
Lemma loop_progress_values (sl : list Slide) (md : string) (vs : list Z) (r : outcome string) :
  (Z.of_nat (length sl) <= 2 ^ 45)%Z →
  slides_loop (Z.of_nat (length sl)) 0 sl md = (progress_signal <$> vs, r) →
  ∀ i v, vs !! i = Some v →
    progress_percent (Z.of_nat i) (Z.of_nat (length sl)) = Returns v ∧
    (0 <= v <= 99)%Z ∧
    (spec_percent (Z.of_nat i) (Z.of_nat (length sl)) - 1 <= v
     <= spec_percent (Z.of_nat i) (Z.of_nat (length sl)))%Z ∧
    (((Z.of_nat i * 100) mod Z.of_nat (length sl))%Z ≠ 0%Z →
     v = spec_percent (Z.of_nat i) (Z.of_nat (length sl))).
Proof.
  intros HN HL i v Hi.
  destruct (slides_loop_signals _ _ _ _ _ _ HL) as (vs' & Heq & Hlen & Hv & _).
  apply progress_fmap_inj in Heq. subst vs'.
  pose proof (Hv i v Hi) as Hp. simpl in Hp.
  assert (Hlt : (i < length sl)%nat).
  { apply lookup_lt_Some in Hi. lia. }
  split; [exact Hp|].
  assert (Hrange : (0 <= Z.of_nat i < Z.of_nat (length sl))%Z) by lia.
  split; [now apply (percent_below_100 _ _ _ Hrange HN)|].
  destruct (percent_bounds _ _ Hrange HN) as (v' & Hv' & _ & Hb & Hx).
  rewrite Hp in Hv'. inversion Hv'; subst v'. unfold spec_percent. split; assumption.
Qed.

Lemma loop_progress_mono (sl : list Slide) (md : string) (vs : list Z) (r : outcome string) :
  (Z.of_nat (length sl) <= 2 ^ 45)%Z →
  slides_loop (Z.of_nat (length sl)) 0 sl md = (progress_signal <$> vs, r) →
  non_decreasing (vs ++ [100%Z]).
Proof.
  intros HN HL. apply non_decreasing_adjacent. intros k a b Ha Hb.
  pose proof (loop_progress_values sl md vs r HN HL) as Hv.
  destruct (slides_loop_signals _ _ _ _ _ _ HL) as (vs' & Heq & Hlen & _).
  apply progress_fmap_inj in Heq. subst vs'.
  assert (Hk : (k < length vs)%nat).
  { apply lookup_lt_Some in Hb. rewrite length_app in Hb. simpl in Hb. lia. }
  rewrite lookup_app_l in Ha by exact Hk.
  destruct (Hv k a Ha) as (Hpa & Ha99 & _).
  destruct (decide (S k < length vs)%nat) as [Hk'|Hk'].
  - rewrite lookup_app_l in Hb by exact Hk'.
    destruct (Hv (S k) b Hb) as (Hpb & _).
    apply (percent_mono (Z.of_nat k) (Z.of_nat (S k)) (Z.of_nat (length sl)) a b); auto; lia.
  - rewrite lookup_app_r in Hb by lia.
    replace (S k - length vs)%nat with 0%nat in Hb by lia. inversion Hb. lia.
Qed.

(** Slide 29 of 100: the IEEE product is 8162774324609023 * 2^-48, just below
    29, and truncates to 28. *)
Example percent_29_of_100 :
  SF_percent_float 29 100 = S754_finite false 8162774324609023 (-48) ∧
  progress_percent 29 100 = Returns 28%Z.
Proof. split; vm_compute; reflexivity. Qed.

(** ** C8: the sequence of progress values *)

Lemma progress_percent_first (N : Z) : N ≠ 0%Z → progress_percent 0 N = Returns 0%Z.
Proof.
  intros HN. unfold progress_percent, py_truediv.
  destruct (Z.eqb_spec N 0) as [E|_]; [congruence | reflexivity].
Qed.

(** C8 (amended). For every successful run over a deck with N slides: the
    emitted progress values are one value per slide followed by 100, which is
    the last; for N > 0 the first is 0; for N = 0 the only value is 100.  The
    value emitted before slide i is [int((i / N) * 100)] evaluated in binary64
    floating point.  For N at most 2^45 (as in every deck) the sequence is
    non-decreasing, and that value is floor(i * 100 / N) whenever i * 100 / N
    is not an integer, and floor(i * 100 / N) or one less when it is. *)
Theorem progress_sequence (env : Env) (fs : gmap string string) (self : PPTXConverter)
    (prs : Prs) :
  Presentation env fs (pptx_path self) = Returns prs →
  succeeded (run env fs self) →
  ∃ vs,
    progress_values (run env fs self) = vs ++ [100%Z] ∧
    length vs = length (slides prs) ∧
    (slides prs ≠ [] → head (progress_values (run env fs self)) = Some 0%Z) ∧
    last (progress_values (run env fs self)) = Some 100%Z ∧
    (slides prs = [] → progress_values (run env fs self) = [100%Z]) ∧
    (∀ i v, vs !! i = Some v →
       progress_percent (Z.of_nat i) (Z.of_nat (length (slides prs))) = Returns v) ∧
    ((Z.of_nat (length (slides prs)) <= 2 ^ 45)%Z →
     non_decreasing (progress_values (run env fs self)) ∧
     ∀ i v, vs !! i = Some v →
       (spec_percent (Z.of_nat i) (Z.of_nat (length (slides prs))) - 1 <= v
        <= spec_percent (Z.of_nat i) (Z.of_nat (length (slides prs))))%Z ∧
       (((Z.of_nat i * 100) mod Z.of_nat (length (slides prs)))%Z ≠ 0%Z →
        v = spec_percent (Z.of_nat i) (Z.of_nat (length (slides prs))))).
Proof.
  intros HP Hok.
  destruct (run_success env fs self Hok) as (prs' & vs & md & HP' & HL & Hlen & _ & Hrun).
  rewrite HP in HP'. inversion HP'; subst prs'. clear HP'.
  assert (Hvals : progress_values (run env fs self) = vs ++ [100%Z]).
  { rewrite Hrun, progress_values_app, progress_values_emit. reflexivity. }
  assert (Hpc : ∀ i v, vs !! i = Some v →
            progress_percent (Z.of_nat i) (Z.of_nat (length (slides prs))) = Returns v).
  { destruct (slides_loop_signals _ _ _ _ _ _ HL) as (vs' & Heq & _ & Hv & _).
    apply progress_fmap_inj in Heq. subst vs'. intros i v Hi. exact (Hv i v Hi). }
  exists vs. rewrite Hvals. split; [reflexivity|]. split; [exact Hlen|].
  split; [|split; [|split; [|split]]].
  - intros Hne. destruct vs as [|v vs].
    + destruct (slides prs); [congruence | discriminate].
    + pose proof (Hpc 0 v eq_refl) as Hv. rewrite progress_percent_first in Hv.
      * inversion Hv. reflexivity.
      * destruct (slides prs); [congruence | cbn [length]; lia].
  - apply last_snoc.
  - intros Hnil. rewrite Hnil in Hlen. destruct vs; [reflexivity | discriminate].
  - exact Hpc.
  - intros HN. split; [exact (loop_progress_mono _ _ _ _ HN HL)|].
    intros i v Hi. destruct (loop_progress_values _ _ _ _ HN HL i v Hi) as (_ & _ & H2 & H3).
    auto.
Qed.

Lemma progress_sequence_witness :
  ∃ vs, progress_values
          (run demo_env demo_fs (PPTXConverter_init "/d/talk.pptx" (Some "/out/talk.md")))
        = vs ++ [100%Z] ∧ length vs = 3.
Proof.
  destruct (progress_sequence demo_env demo_fs
              (PPTXConverter_init "/d/talk.pptx" (Some "/out/talk.md")) deck3)
    as (vs & Hv & Hlen & _).
  - vm_compute. reflexivity.
  - exists "/out/talk.md". vm_compute. set_solver.
  - exists vs. split; [exact Hv | exact Hlen].
Defined.

(** C8 as stated fails: in a successful run over a hundred slides the value
    emitted before slide 29 is 28, while floor(29 / 100 * 100) is 29. *)
Lemma progress_of_slide_29_of_100 :
  last (run demo_env demo_fs (PPTXConverter_init "/d/long.pptx" (Some "/out/long.md")))
  = Some (Emit (finished_signal "/out/long.md")) ∧
  progress_values (run demo_env demo_fs (PPTXConverter_init "/d/long.pptx" (Some "/out/long.md")))
    !! 29 = Some 28%Z ∧
  spec_percent 29 100 = 29%Z.
Proof. repeat split; vm_compute; reflexivity. Qed.

(** ** C10: the document is written before 100 is emitted *)

Lemma emit_100_not_in_loop (vs : list Z) :
  (∀ i v, vs !! i = Some v → (0 <= v <= 99)%Z) →
  Emit (progress_signal 100) ∉ Emit <$> (progress_signal <$> vs).
Proof.
  intros Hv H. apply list_elem_of_fmap in H as (s & Hs & Hin).
  apply list_elem_of_fmap in Hin as (v & -> & Hin). inversion Hs; subst v.
  apply list_elem_of_lookup in Hin as [i Hi]. specialize (Hv i _ Hi). lia.
Qed.

(** Where an effect that is not among the first part of a sequence sits. *)
Lemma split_after_prefix (l1 l2 pre post : list Effect) (x : Effect) :
  x ∉ l1 → l1 ++ l2 = pre ++ x :: post →
  ∃ k, pre = l1 ++ k ∧ l2 = k ++ x :: post.
Proof.
  intros Hx H. apply app_eq_inv in H as [(k & H1 & H2) | (k & H1 & H2)].
  - destruct k as [|y k].
    + exists []. rewrite app_nil_r in H1. subst. simpl in H2. now rewrite app_nil_r.
    + simpl in H2. inversion H2; subst. destruct Hx. set_solver.
  - exists k. auto.
Qed.

(** C10. In every run (over a deck of at most 2^45 slides, as every deck
    is), when the progress value 100 is emitted the destination file already
    holds the full document, and Success is emitted only after that event, as
    the last effect of the run and carrying the output path. *)
Theorem written_before_final_progress (env : Env) (fs : gmap string string)
    (self : PPTXConverter) :
  (∀ prs, Presentation env fs (pptx_path self) = Returns prs →
          (Z.of_nat (length (slides prs)) <= 2 ^ 45)%Z) →
  (∀ pre post, run env fs self = pre ++ Emit (progress_signal 100) :: post →
     ∃ prs secs,
       Presentation env fs (pptx_path self) = Returns prs ∧
       sections_from 0 (slides prs) = Returns secs ∧
       fs_after fs pre !! output_path self
       = Some (utf8_encode ("# " +:+ basename (pptx_path self) +:+ nl +:+ nl +:+ concat_str secs))) ∧
  (∀ pre post path, run env fs self = pre ++ Emit (finished_signal path) :: post →
     path = output_path self ∧ post = [] ∧ Emit (progress_signal 100) ∈ pre).
Proof.
  intros HN. split.
  - intros pre post Hsplit.
    destruct (run_has_shape env fs self) as
      [e HP | prs evs e HP HL | prs evs md e HP HL HW | prs evs md e w HP HL HW | prs evs md HP HL HW].
    + destruct pre as [|? [|]]; discriminate.
    + destruct (slides_loop_signals _ _ _ _ _ _ HL) as (vs & -> & _).
      pose proof (loop_progress_values _ _ _ _ (HN prs HP) HL) as Hv.
      apply split_after_prefix in Hsplit as (k & _ & Hk).
      * destruct k as [|? [|]]; discriminate.
      * apply emit_100_not_in_loop. intros i v Hi. now destruct (Hv i v Hi) as (_ & ? & _).
    + destruct (slides_loop_signals _ _ _ _ _ _ HL) as (vs & -> & _).
      pose proof (loop_progress_values _ _ _ _ (HN prs HP) HL) as Hv.
      apply split_after_prefix in Hsplit as (k & _ & Hk).
      * destruct k as [|? [|]]; discriminate.
      * apply emit_100_not_in_loop. intros i v Hi. now destruct (Hv i v Hi) as (_ & ? & _).
    + destruct (slides_loop_signals _ _ _ _ _ _ HL) as (vs & -> & _).
      pose proof (loop_progress_values _ _ _ _ (HN prs HP) HL) as Hv.
      apply split_after_prefix in Hsplit as (k & _ & Hk).
      * destruct k as [|? [|? [|? [|]]]]; discriminate.
      * apply emit_100_not_in_loop. intros i v Hi. now destruct (Hv i v Hi) as (_ & ? & _).
    + destruct (slides_loop_signals _ _ _ _ _ _ HL) as (vs & -> & _).
      pose proof (loop_progress_values _ _ _ _ (HN prs HP) HL) as Hv.
      destruct (slides_loop_document _ _ _ _ _ _ HL) as (secs & Hs & ->).
      apply split_after_prefix in Hsplit as (k & -> & Hk).
      * exists prs, secs. split; [exact HP|]. split; [exact Hs|].
        destruct k as [|? [|? [|? [|? [|]]]]]; try discriminate.
        inversion Hk; subst. rewrite fs_after_app, fs_after_emit. simpl.
        rewrite lookup_insert_eq. now rewrite !str_app_assoc.
      * apply emit_100_not_in_loop. intros i v Hi. now destruct (Hv i v Hi) as (_ & ? & _).
  - intros pre post path Hsplit.
    destruct (run_has_shape env fs self) as
      [e HP | prs evs e HP HL | prs evs md e HP HL HW | prs evs md e w HP HL HW | prs evs md HP HL HW].
    + destruct pre as [|? [|]]; discriminate.
    + destruct (slides_loop_signals _ _ _ _ _ _ HL) as (vs & -> & _).
      apply split_after_prefix in Hsplit as (k & _ & Hk); [|apply finished_not_progress].
      destruct k as [|? [|]]; discriminate.
    + destruct (slides_loop_signals _ _ _ _ _ _ HL) as (vs & -> & _).
      apply split_after_prefix in Hsplit as (k & _ & Hk); [|apply finished_not_progress].
      destruct k as [|? [|]]; discriminate.
    + destruct (slides_loop_signals _ _ _ _ _ _ HL) as (vs & -> & _).
      apply split_after_prefix in Hsplit as (k & _ & Hk); [|apply finished_not_progress].
      destruct k as [|? [|? [|? [|]]]]; discriminate.
    + destruct (slides_loop_signals _ _ _ _ _ _ HL) as (vs & -> & _).
      apply split_after_prefix in Hsplit as (k & -> & Hk); [|apply finished_not_progress].
      destruct k as [|? [|? [|? [|? [|]]]]]; try discriminate.
      inversion Hk; subst. repeat split; auto. set_solver.
Qed.

(** The three-slide deck: the five effects before the event 100 leave the
    document in place. *)
Lemma written_before_final_progress_witness :
  ∃ prs secs,
    Presentation demo_env demo_fs "/d/talk.pptx" = Returns prs ∧
    sections_from 0 (slides prs) = Returns secs ∧
    fs_after demo_fs
      (take 5 (run demo_env demo_fs (PPTXConverter_init "/d/talk.pptx" (Some "/out/talk.md"))))
      !! "/out/talk.md"
    = Some (utf8_encode ("# " +:+ basename "/d/talk.pptx" +:+ nl +:+ nl +:+ concat_str secs)).
Proof.
  apply (proj1 (written_before_final_progress demo_env demo_fs
                  (PPTXConverter_init "/d/talk.pptx" (Some "/out/talk.md"))
                  ltac:(intros prs H; vm_compute in H; inversion H; subst; vm_compute;
                        discriminate))
           (take 5 (run demo_env demo_fs
                      (PPTXConverter_init "/d/talk.pptx" (Some "/out/talk.md"))))
           [Emit (finished_signal "/out/talk.md")]).
  vm_compute. reflexivity.
Defined.

(** ** Paths *)

Lemma str_length_app (a b : string) :
  String.length (a +:+ b) = (String.length a + String.length b)%nat.
Proof.
  induction a as [|c a IH]; [reflexivity|].
  rewrite str_app_cons. cbn [String.length]. now rewrite IH.
Qed.

Lemma str_take_drop (n : nat) (s : string) : str_take n s +:+ str_drop n s = s.
Proof.
  revert s. induction n as [|n IH]; intros [|c s]; try reflexivity.
  cbn [str_take str_drop]. rewrite str_app_cons. now rewrite IH.
Qed.

Lemma str_take_app (a b : string) : str_take (String.length a) (a +:+ b) = a.
Proof.
  induction a as [|c a IH].
  - rewrite str_app_nil_l. now destruct b.
  - rewrite str_app_cons. cbn [String.length str_take]. now rewrite IH.
Qed.

Lemma str_eqb_eq (a b : string) : String.eqb a b = true ↔ a = b.
Proof. apply String.eqb_eq. Qed.

(** [s.endswith(suffix)] holds when [s] is something followed by [suffix]. *)
Lemma str_endswith_spec (s suffix : string) :
  str_endswith s suffix = true ↔ ∃ p, s = p +:+ suffix.
Proof.
  unfold str_endswith. rewrite andb_true_iff, Nat.leb_le, str_eqb_eq. split.
  - intros [_ H]. set (n := (String.length s - String.length suffix)%nat) in H.
    exists (str_take n s). rewrite <- H. symmetry. apply str_take_drop.
  - intros [p ->]. rewrite str_length_app. split; [lia|].
    replace (String.length p + String.length suffix - String.length suffix)%nat
      with (String.length p) by lia.
    apply str_drop_app.
Qed.

Lemma rfind_lower (c : ascii) (s : string) : (-1 <= rfind c s)%Z.
Proof.
  induction s as [|a s IH]; cbn [rfind]; [lia|].
  destruct (Z.leb_spec 0 (rfind c s)); [lia|]. destruct (Ascii.eqb a c); lia.
Qed.

Lemma rfind_upper (c : ascii) (s : string) : (rfind c s < Z.of_nat (String.length s))%Z.
Proof.
  induction s as [|a s IH]; cbn [rfind String.length]; [lia|].
  destruct (Z.leb_spec 0 (rfind c s)); [lia|]. destruct (Ascii.eqb a c); lia.
Qed.

(** A character that does not occur in [b] is found in [a +:+ b] where it is
    found in [a]. *)
Lemma rfind_app_none (c : ascii) (a b : string) :
  rfind c b = (-1)%Z → rfind c (a +:+ b) = rfind c a.
Proof.
  intros Hb. induction a as [|x a IH].
  - now rewrite str_app_nil_l.
  - rewrite str_app_cons. cbn [rfind]. now rewrite IH.
Qed.

(** A character that occurs in [b] is found in [a +:+ b] where it is found in
    [b], shifted by the length of [a]. *)
Lemma rfind_app_some (c : ascii) (a b : string) :
  (0 <= rfind c b)%Z → rfind c (a +:+ b) = (Z.of_nat (String.length a) + rfind c b)%Z.
Proof.
  intros Hb. induction a as [|x a IH].
  - rewrite str_app_nil_l. cbn [String.length]. lia.
  - rewrite str_app_cons. cbn [rfind String.length]. rewrite IH.
    destruct (Z.leb_spec 0 (Z.of_nat (String.length a) + rfind c b)); lia.
Qed.

Lemma rfind_cons_none (c : ascii) (s : string) :
  rfind c s = (-1)%Z → rfind c (String c s) = 0%Z.
Proof. intros H. cbn [rfind]. rewrite H. cbn. now rewrite Ascii.eqb_refl. Qed.

(** The base name holds no slash. *)
Lemma basename_no_sep (p : string) : rfind "/" (basename p) = (-1)%Z.
Proof.
  unfold basename. induction p as [|a p IH]; [reflexivity|].
  cbn [rfind]. pose proof (rfind_lower "/" p) as Hl.
  destruct (Z.leb_spec 0 (rfind "/" p)) as [H|H].
  - replace (Z.to_nat (rfind "/" p + 1 + 1)) with (S (Z.to_nat (rfind "/" p + 1))) by lia.
    exact IH.
  - assert (E : rfind "/" p = (-1)%Z) by lia.
    destruct (Ascii.eqb_spec a "/"%char) as [->|Hne].
    + cbn. exact E.
    + change (Z.to_nat (-1 + 1)) with 0%nat. cbn [str_drop rfind]. rewrite E.
      change (0 <=? -1)%Z with false. cbv iota.
      destruct (Ascii.eqb_spec a "/"%char); [contradiction | reflexivity].
Qed.

Lemma str_take_rfind (c : ascii) (s : string) :
  (0 <= rfind c s)%Z →
  ∃ d, str_take (Z.to_nat (rfind c s + 1)) s = d +:+ String c "".
Proof.
  induction s as [|a s IH]; cbn [rfind]; [lia|].
  pose proof (rfind_lower c s) as Hl.
  destruct (Z.leb_spec 0 (rfind c s)) as [H|H].
  - intros _. destruct (IH H) as [d Hd].
    replace (Z.to_nat (rfind c s + 1 + 1)) with (S (Z.to_nat (rfind c s + 1))) by lia.
    cbn [str_take]. rewrite Hd. exists (String a d). now rewrite str_app_cons.
  - destruct (Ascii.eqb_spec a c) as [->|Hne]; [|lia].
    intros _. exists "". cbn. now destruct s.
Qed.

(** What comes before the base name is empty or ends with a slash. *)
Lemma basename_dir (p : string) :
  ∃ d, p = d +:+ basename p ∧ (d = "" ∨ ∃ d', d = d' +:+ "/").
Proof.
  unfold basename. exists (str_take (Z.to_nat (rfind "/" p + 1)) p).
  split; [symmetry; apply str_take_drop|].
  pose proof (rfind_lower "/" p) as Hl.
  destruct (Z.leb_spec 0 (rfind "/" p)) as [H|H].
  - right. apply str_take_rfind, H.
  - left. replace (rfind "/" p) with (-1)%Z by lia. now destruct p.
Qed.

Lemma rfind_occurs (c : ascii) (a b : string) : (0 <= rfind c (a +:+ String c b))%Z.
Proof.
  pose proof (rfind_lower c b) as Hl.
  destruct (Z.leb_spec 0 (rfind c b)) as [H|H].
  - rewrite rfind_app_some; cbn [rfind]; destruct (Z.leb_spec 0 (rfind c b)); lia.
  - rewrite rfind_none_app by lia. lia.
Qed.

(** After the last occurrence of a character there is none. *)
Lemma rfind_drop_after (c : ascii) (s : string) (n : nat) :
  (rfind c s < Z.of_nat n)%Z → rfind c (str_drop n s) = (-1)%Z.
Proof.
  revert n. induction s as [|a s IH]; intros [|n] H; try reflexivity.
  - pose proof (rfind_lower c (String a s)). cbn [str_drop]. lia.
  - cbn [str_drop]. apply IH. cbn [rfind] in H. pose proof (rfind_lower c s).
    destruct (Z.leb_spec 0 (rfind c s)); lia.
Qed.

(** At the last occurrence of a character starts that character, followed by
    a text without it. *)
Lemma str_drop_rfind (c : ascii) (s : string) :
  (0 <= rfind c s)%Z →
  ∃ e, str_drop (Z.to_nat (rfind c s)) s = String c e ∧ rfind c e = (-1)%Z.
Proof.
  induction s as [|a s IH]; cbn [rfind]; [lia|].
  pose proof (rfind_lower c s) as Hl.
  destruct (Z.leb_spec 0 (rfind c s)) as [H|H].
  - intros _. destruct (IH H) as (e & He & Hn).
    replace (Z.to_nat (rfind c s + 1)) with (S (Z.to_nat (rfind c s))) by lia.
    cbn [str_drop]. eauto.
  - destruct (Ascii.eqb_spec a c) as [->|Hne]; [|lia].
    intros _. exists s. split; [reflexivity | lia].
Qed.

Lemma str_drop_drop (n m : nat) (s : string) :
  str_drop n (str_drop m s) = str_drop (m + n) s.
Proof.
  revert s. induction m as [|m IH]; intros s; [reflexivity|].
  destruct s as [|c s]; cbn [str_drop Nat.add].
  - now destruct n.
  - apply IH.
Qed.

Lemma rfind_cons_other (c a : ascii) (s : string) :
  a ≠ c → rfind c s = (-1)%Z → rfind c (String a s) = (-1)%Z.
Proof.
  intros Hne H. cbn [rfind]. rewrite H. change (0 <=? -1)%Z with false. cbv iota.
  destruct (Ascii.eqb_spec a c); [contradiction | reflexivity].
Qed.

Lemma all_dots_no_sep (s : string) : all_dots s = true → rfind "/" s = (-1)%Z.
Proof.
  induction s as [|a s IH]; [reflexivity|]. cbn [all_dots].
  rewrite andb_true_iff. intros [Ha Hs]. apply Ascii.eqb_eq in Ha. subst a.
  apply rfind_cons_other; [discriminate | auto].
Qed.

Lemma all_dots_rfind (s : string) :
  all_dots s = true → rfind "." s = (Z.of_nat (String.length s) - 1)%Z.
Proof.
  induction s as [|a s IH]; [reflexivity|]. cbn [all_dots].
  rewrite andb_true_iff. intros [Ha Hs]. apply Ascii.eqb_eq in Ha. subst a.
  cbn [rfind String.length]. rewrite (IH Hs).
  destruct (Z.leb_spec 0 (Z.of_nat (String.length s) - 1)) as [H|H]; [lia|].
  rewrite Ascii.eqb_refl. lia.
Qed.

Lemma all_dots_take (n : nat) (s : string) : all_dots s = true → all_dots (str_take n s) = true.
Proof.
  revert s. induction n as [|n IH]; intros [|a s]; try reflexivity.
  cbn [all_dots str_take]. rewrite !andb_true_iff. intros [Ha Hs]. auto.
Qed.

Lemma str_take_app_more (a b : string) (k : nat) :
  str_take (String.length a + k) (a +:+ b) = a +:+ str_take k b.
Proof.
  induction a as [|c a IH].
  - now rewrite !str_app_nil_l.
  - rewrite !str_app_cons. cbn [String.length Nat.add str_take]. now rewrite IH.
Qed.

Lemma str_take_app_le (n : nat) (a b : string) :
  (n ≤ String.length a)%nat → str_take n (a +:+ b) = str_take n a.
Proof.
  revert a. induction n as [|n IH]; intros [|c a] H; cbn [String.length] in H; try lia.
  - rewrite str_app_nil_l. now destruct b.
  - reflexivity.
  - rewrite str_app_cons. cbn [str_take]. rewrite IH by lia. reflexivity.
Qed.

(** The index after the last slash of [pre +:+ name], for a directory part
    [pre] and a name without slash. *)
Lemma rfind_sep_dir (pre name : string) :
  pre = "" ∨ (∃ d, pre = d +:+ "/") → rfind "/" name = (-1)%Z →
  (rfind "/" (pre +:+ name) + 1)%Z = Z.of_nat (String.length pre).
Proof.
  intros Hpre Hn. rewrite rfind_app_none by exact Hn.
  destruct Hpre as [->|[d ->]]; [reflexivity|].
  change (d +:+ "/") with (d +:+ String "/" ""). rewrite rfind_none_app by reflexivity.
  rewrite str_length_app. cbn [String.length]. lia.
Qed.

(** [splitext]: the extension of [stem.ext] is cut off. *)
Lemma splitext_root_ext (pre stem ext : string) :
  pre = "" ∨ (∃ d, pre = d +:+ "/") →
  rfind "/" stem = (-1)%Z → all_dots stem = false →
  rfind "." ext = (-1)%Z → rfind "/" ext = (-1)%Z →
  splitext_root (pre +:+ stem +:+ "." +:+ ext) = pre +:+ stem.
Proof.
  intros Hpre Hstem Hdots Hext Hsep.
  change ("." +:+ ext) with (String "." ext).
  assert (Hname : rfind "/" (stem +:+ String "." ext) = (-1)%Z).
  { rewrite rfind_app_none; [exact Hstem|]. apply rfind_cons_other; [discriminate | exact Hsep]. }
  pose proof (rfind_sep_dir pre _ Hpre Hname) as Hs.
  assert (Hd : rfind "." (pre +:+ stem +:+ String "." ext)
               = Z.of_nat (String.length (pre +:+ stem))).
  { rewrite <- str_app_assoc. now apply rfind_none_app. }
  unfold splitext_root. rewrite Hd, Hs.
  assert (Hlt : (rfind "/" (pre +:+ stem +:+ String "." ext)
                 <? Z.of_nat (String.length (pre +:+ stem)))%Z = true).
  { apply Z.ltb_lt. rewrite str_length_app. lia. }
  rewrite Hlt, !Nat2Z.id.
  rewrite <- (str_app_assoc pre stem), str_take_app, str_drop_app, Hdots.
  reflexivity.
Qed.

(** [splitext]: a name whose dots are all leading has no extension. *)
Lemma splitext_root_noext (pre dots rest : string) :
  pre = "" ∨ (∃ d, pre = d +:+ "/") →
  all_dots dots = true → rfind "." rest = (-1)%Z → rfind "/" rest = (-1)%Z →
  splitext_root (pre +:+ dots +:+ rest) = pre +:+ dots +:+ rest.
Proof.
  intros Hpre Hdots Hrest Hsep.
  assert (Hname : rfind "/" (dots +:+ rest) = (-1)%Z).
  { rewrite rfind_app_none by exact Hsep. now apply all_dots_no_sep. }
  pose proof (rfind_sep_dir pre _ Hpre Hname) as Hs.
  unfold splitext_root.
  set (p := pre +:+ dots +:+ rest) in *.
  destruct (Z.ltb_spec (rfind "/" p) (rfind "." p)) as [Hlt|Hge]; [|reflexivity].
  rewrite Hs, Nat2Z.id.
  assert (Hd : rfind "." (dots +:+ rest) = (Z.of_nat (String.length dots) - 1)%Z).
  { rewrite rfind_app_none by exact Hrest. now apply all_dots_rfind. }
  destruct dots as [|c dots'].
  { exfalso. cbn [String.length] in Hd.
    unfold p in Hlt, Hs. rewrite str_app_nil_l in Hlt, Hs.
    rewrite (rfind_app_none "." pre rest Hrest) in Hlt.
    destruct Hpre as [->|[d ->]]; [cbn in Hlt, Hs; lia|].
    rewrite (rfind_app_none "." d "/") in Hlt by reflexivity.
    pose proof (rfind_upper "." d). rewrite str_length_app in Hs. cbn [String.length] in Hs. lia. }
  assert (Hdot : rfind "." p = (Z.of_nat (String.length pre) + Z.of_nat (String.length dots'))%Z).
  { unfold p. rewrite rfind_app_some; rewrite Hd; cbn [String.length]; lia. }
  rewrite Hdot.
  replace (Z.to_nat (Z.of_nat (String.length pre) + Z.of_nat (String.length dots')))
    with (String.length pre + String.length dots')%nat by lia.
  unfold p. rewrite str_take_app_more, str_drop_app.
  rewrite str_take_app_le by (cbn [String.length]; lia).
  now rewrite all_dots_take.
Qed.

Lemma rfind_none_no_occurrence (c : ascii) (s : string) :
  rfind c s = (-1)%Z → ∀ a b, s ≠ a +:+ String c b.
Proof. intros H a b ->. pose proof (rfind_occurs c a b). lia. Qed.

(** X1. The text [run] puts in the level-1 heading, and [process_file] in the
    status bar and on the drop area, is the last component of the path: what
    follows the last slash, the whole path when it has no slash. *)
Theorem basename_last_component (p : string) :
  ∃ d, p = d +:+ basename p ∧ (d = "" ∨ ∃ d', d = d' +:+ "/") ∧
       ∀ a b, basename p ≠ a +:+ "/" +:+ b.
Proof.
  destruct (basename_dir p) as (d & Hd & Hdir). exists d. repeat split; auto.
  apply (rfind_none_no_occurrence "/"), basename_no_sep.
Qed.

(** [splitext] takes an extension off the end of the path: nothing, or a dot
    followed by a text with neither dot nor slash. *)
Lemma splitext_root_prefix (p : string) :
  ∃ ext, p = splitext_root p +:+ ext ∧
    (ext = "" ∨ ∃ e, ext = String "." e ∧ rfind "." e = (-1)%Z ∧ rfind "/" e = (-1)%Z).
Proof.
  unfold splitext_root.
  destruct (Z.ltb_spec (rfind "/" p) (rfind "." p)) as [Hlt|Hge].
  2:{ exists "". rewrite str_app_nil_r. auto. }
  destruct (all_dots _).
  { exists "". rewrite str_app_nil_r. auto. }
  pose proof (rfind_lower "/" p) as Hl.
  exists (str_drop (Z.to_nat (rfind "." p)) p). split; [symmetry; apply str_take_drop|].
  right. destruct (str_drop_rfind "." p ltac:(lia)) as (e & He & Hn).
  exists e. repeat split; auto.
  assert (Hs : rfind "/" (str_drop (Z.to_nat (rfind "." p)) p) = (-1)%Z).
  { apply rfind_drop_after. lia. }
  rewrite He in Hs. cbn [rfind] in Hs. pose proof (rfind_lower "/" e).
  destruct (Z.leb_spec 0 (rfind "/" e)); [lia|]. lia.
Qed.

(** X2. [__init__] without a destination (none given, or an empty one): the
    destination is the source path with its extension, if it has one,
    replaced by [.md]; an extension is a final dot followed by a text with
    neither dot nor slash. *)
Theorem default_output_path_shape (pptx : string) (output : option string) :
  output = None ∨ output = Some "" →
  ∃ root ext,
    pptx = root +:+ ext ∧
    output_path (PPTXConverter_init pptx output) = root +:+ ".md" ∧
    pptx_path (PPTXConverter_init pptx output) = pptx ∧
    (ext = "" ∨ ∃ e, ext = "." +:+ e ∧ (∀ a b, e ≠ a +:+ "." +:+ b) ∧ (∀ a b, e ≠ a +:+ "/" +:+ b)).
Proof.
  intros Ho. destruct (splitext_root_prefix pptx) as (ext & Hp & Hext).
  exists (splitext_root pptx), ext. split; [exact Hp|]. split.
  { destruct Ho as [->| ->]; reflexivity. }
  split; [reflexivity|].
  destruct Hext as [->|(e & -> & Hd & Hs)]; [now left|].
  right. exists e. repeat split.
  - apply (rfind_none_no_occurrence "."), Hd.
  - apply (rfind_none_no_occurrence "/"), Hs.
Qed.

Lemma default_output_path_shape_witness :
  ∃ root ext, "/d/talk.v2.pptx" = root +:+ ext ∧
    output_path (PPTXConverter_init "/d/talk.v2.pptx" (Some "")) = root +:+ ".md" ∧
    pptx_path (PPTXConverter_init "/d/talk.v2.pptx" (Some "")) = "/d/talk.v2.pptx" ∧
    (ext = "" ∨ ∃ e, ext = "." +:+ e ∧ (∀ a b, e ≠ a +:+ "." +:+ b) ∧ (∀ a b, e ≠ a +:+ "/" +:+ b)).
Proof. apply (default_output_path_shape "/d/talk.v2.pptx" (Some "")). right. reflexivity. Defined.

(** X3. [__init__] on [stem.ext]: for a file name made of a stem that is not
    only dots, a dot and an extension without dot, the default destination
    is [stem.md] in the same directory. *)
Theorem default_output_replaces_extension (pre stem ext : string) :
  pre = "" ∨ (∃ d, pre = d +:+ "/") →
  rfind "/" stem = (-1)%Z → all_dots stem = false →
  rfind "." ext = (-1)%Z → rfind "/" ext = (-1)%Z →
  output_path (PPTXConverter_init (pre +:+ stem +:+ "." +:+ ext) None)
  = pre +:+ stem +:+ ".md".
Proof.
  intros Hpre Hstem Hdots Hext Hsep. unfold PPTXConverter_init. cbn [output_path].
  rewrite splitext_root_ext by assumption. now rewrite str_app_assoc.
Qed.

Lemma default_output_replaces_extension_witness :
  output_path (PPTXConverter_init ("/home/u/" +:+ "talk.v2" +:+ "." +:+ "pptx") None)
  = "/home/u/" +:+ "talk.v2" +:+ ".md".
Proof.
  apply (default_output_replaces_extension "/home/u/" "talk.v2" "pptx");
    [right; now exists "/home/u" | reflexivity..].
Defined.

(** X4. [__init__] on a name without extension: when every dot of the file name
    is a leading dot (no dot at all, or a hidden file such as [.pptx]), the
    default destination is the whole source path followed by [.md]. *)
Theorem default_output_appends_md (pre dots rest : string) :
  pre = "" ∨ (∃ d, pre = d +:+ "/") →
  all_dots dots = true → rfind "." rest = (-1)%Z → rfind "/" rest = (-1)%Z →
  output_path (PPTXConverter_init (pre +:+ dots +:+ rest) None)
  = pre +:+ dots +:+ rest +:+ ".md".
Proof.
  intros Hpre Hdots Hrest Hsep. unfold PPTXConverter_init. cbn [output_path].
  rewrite splitext_root_noext by assumption. now rewrite !str_app_assoc.
Qed.

Lemma default_output_appends_md_witness :
  output_path (PPTXConverter_init ("/d.x/" +:+ "." +:+ "pptx") None)
  = "/d.x/" +:+ "." +:+ "pptx" +:+ ".md".
Proof.
  apply (default_output_appends_md "/d.x/" "." "pptx");
    [right; now exists "/d.x" | reflexivity..].
Defined.

(** ** What a run does to the file system *)

Lemma run_frame (env : Env) (fs : gmap string string) (self : PPTXConverter) (p : string) :
  p ≠ output_path self → fs_after fs (run env fs self) !! p = fs !! p.
Proof.
  intros Hp.
  destruct (run_has_shape env fs self) as
    [e HP | prs evs e HP HL | prs evs md e HP HL HW | prs evs md e w HP HL HW | prs evs md HP HL HW];
    rewrite ?fs_after_app, ?fs_after_emit; cbn [fs_after foldl apply_effect];
    rewrite ?lookup_insert_ne by congruence; reflexivity.
Qed.

(** X5. A run changes no file but its destination: every other path holds
    after the run what it held before, whether the run succeeds or fails. *)
Theorem run_writes_destination_only (env : Env) (fs : gmap string string)
    (self : PPTXConverter) (p : string) :
  p ≠ output_path self → fs_after fs (run env fs self) !! p = fs !! p.
Proof. apply run_frame. Qed.

Lemma run_writes_destination_only_witness :
  fs_after demo_fs (run demo_env demo_fs (PPTXConverter_init "/d/talk.pptx" None))
    !! "/d/talk.pptx" = demo_fs !! "/d/talk.pptx".
Proof.
  apply (run_writes_destination_only demo_env demo_fs
           (PPTXConverter_init "/d/talk.pptx" None) "/d/talk.pptx").
  vm_compute. discriminate.
Defined.

(** X6. A run that fails leaves the file system as it found it, unless it is the
    writing itself that failed, after the file was opened: the destination
    then holds the bytes of the document that were written before the error. *)
Theorem failed_run_file_system (env : Env) (fs : gmap string string) (self : PPTXConverter) :
  ¬ succeeded (run env fs self) →
  fs_after fs (run env fs self) = fs ∨
  ∃ prs secs e written,
    Presentation env fs (pptx_path self) = Returns prs ∧
    sections_from 0 (slides prs) = Returns secs ∧
    let data := utf8_encode ("# " +:+ basename (pptx_path self) +:+ nl +:+ nl +:+ concat_str secs) in
    os_write env (output_path self) data = WriteRaises e written ∧
    fs_after fs (run env fs self) = <[output_path self := str_take written data]> fs.
Proof.
  intros Hf.
  destruct (run_has_shape env fs self) as
    [e HP | prs evs e HP HL | prs evs md e HP HL HW | prs evs md e w HP HL HW | prs evs md HP HL HW].
  - now left.
  - left. now rewrite fs_after_app, fs_after_emit.
  - left. now rewrite fs_after_app, fs_after_emit.
  - right. destruct (slides_loop_document _ _ _ _ _ _ HL) as (secs & Hs & Hmd).
    exists prs, secs, e, w. rewrite !str_app_assoc in Hmd. cbv zeta. rewrite <- Hmd.
    repeat split; auto.
    rewrite fs_after_app, fs_after_emit. cbn [fs_after foldl apply_effect].
    apply insert_insert_eq.
  - exfalso. apply Hf. exists (output_path self). set_solver.
Qed.

Lemma failed_run_file_system_witness :
  let self := {| pptx_path := "/d/talk.pptx"; output_path := "/ro/talk.md" |} in
  fs_after demo_fs (run demo_env demo_fs self) = demo_fs ∨
  ∃ prs secs e written,
    Presentation demo_env demo_fs (pptx_path self) = Returns prs ∧
    sections_from 0 (slides prs) = Returns secs ∧
    let data := utf8_encode ("# " +:+ basename (pptx_path self) +:+ nl +:+ nl +:+ concat_str secs) in
    os_write demo_env (output_path self) data = WriteRaises e written ∧
    fs_after demo_fs (run demo_env demo_fs self) = <[output_path self := str_take written data]> demo_fs.
Proof.
  intros self. apply (failed_run_file_system demo_env demo_fs self).
  intros [path Hin]. vm_compute in Hin.
  repeat (apply elem_of_cons in Hin as [Hin|Hin]; [discriminate|]).
  now apply elem_of_nil in Hin.
Defined.

(** X7. Converting again, with a destination that is not the source, repeats the
    same signals and leaves the same files. *)
Theorem run_twice (env : Env) (fs : gmap string string) (self : PPTXConverter) :
  output_path self ≠ pptx_path self →
  let fs1 := fs_after fs (run env fs self) in
  run env fs1 self = run env fs self ∧ fs_after fs1 (run env fs1 self) = fs1.
Proof.
  intros Hne fs1.
  assert (Hrun : run env fs1 self = run env fs self).
  { apply run_reads_source_only. unfold fs1. apply run_frame. congruence. }
  split; [exact Hrun|]. rewrite Hrun. unfold fs1.
  destruct (run_has_shape env fs self) as
    [e HP | prs evs e HP HL | prs evs md e HP HL HW | prs evs md e w HP HL HW | prs evs md HP HL HW];
    rewrite ?fs_after_app, ?fs_after_emit; cbn [fs_after foldl apply_effect];
    rewrite ?fs_after_app, ?fs_after_emit; cbn [fs_after foldl apply_effect];
    rewrite ?insert_insert_eq; reflexivity.
Qed.

Lemma run_twice_witness :
  let self := PPTXConverter_init "/d/talk.pptx" None in
  let fs1 := fs_after demo_fs (run demo_env demo_fs self) in
  run demo_env fs1 self = run demo_env demo_fs self ∧
  fs_after fs1 (run demo_env fs1 self) = fs1.
Proof.
  intros self. apply (run_twice demo_env demo_fs self). vm_compute. discriminate.
Defined.

(** X8. A thread built without a destination, for a source whose name does not
    end in [.md], leaves the source file as it is. *)
Theorem default_run_keeps_source (env : Env) (fs : gmap string string) (pptx : string) :
  str_endswith pptx ".md" = false →
  let self := PPTXConverter_init pptx None in
  output_path self ≠ pptx ∧
  fs_after fs (run env fs self) !! pptx = fs !! pptx.
Proof.
  intros Hmd self.
  assert (Hne : output_path self ≠ pptx).
  { intros E. assert (H : str_endswith pptx ".md" = true); [|congruence].
    apply str_endswith_spec. exists (splitext_root pptx). symmetry. exact E. }
  split; [exact Hne|]. apply run_frame. congruence.
Qed.

Lemma default_run_keeps_source_witness :
  let self := PPTXConverter_init "/d/talk.pptx" None in
  output_path self ≠ "/d/talk.pptx" ∧
  fs_after demo_fs (run demo_env demo_fs self) !! "/d/talk.pptx" = demo_fs !! "/d/talk.pptx".
Proof. apply (default_run_keeps_source demo_env demo_fs "/d/talk.pptx"). reflexivity. Defined.

(** ** A title placeholder without text *)




(** ** Reading the document back *)

Lemma utf8_decode_encode_cons (c : ascii) (s : string) :
  utf8_decode (utf8_encode (String c s))
  = cons (N_of_ascii c) <$> utf8_decode (utf8_encode s).
Proof. destruct c as [[] [] [] [] [] [] [] []]; reflexivity. Qed.

(** Decoding what [encode('utf-8')] produced gives the text back. *)
Lemma utf8_decode_encode (s : string) : utf8_decode (utf8_encode s) = Some (codepoints s).
Proof.
  induction s as [|c s IH]; [reflexivity|].
  rewrite utf8_decode_encode_cons, IH. reflexivity.
Qed.

Lemma universal_newlines_no_cr (l : list N) : 13%N ∉ l → universal_newlines l = l.
Proof.
  induction l as [|c l IH]; intros H; [reflexivity|].
  apply not_elem_of_cons in H as [Hc Hl]. cbn [universal_newlines].
  destruct (N.eqb_spec c 13) as [->|_]; [congruence|]. now rewrite IH.
Qed.

Lemma codepoints_app (a b : string) : codepoints (a +:+ b) = codepoints a ++ codepoints b.
Proof.
  induction a as [|c a IH]; [reflexivity|].
  rewrite str_app_cons. cbn [codepoints]. now rewrite IH.
Qed.

Lemma read_text_written (env : Env) (fs : gmap string string) (self : PPTXConverter) :
  succeeded (run env fs self) →
  ∃ prs secs,
    Presentation env fs (pptx_path self) = Returns prs ∧
    sections_from 0 (slides prs) = Returns secs ∧
    read_text (fs_after fs (run env fs self)) (output_path self)
    = Returns (universal_newlines (codepoints
        ("# " +:+ basename (pptx_path self) +:+ nl +:+ nl +:+ concat_str secs))).
Proof.
  intros H. destruct (run_success_document env fs self H) as (prs & secs & HP & Hs & Hfs).
  exists prs, secs. split; [exact HP|]. split; [exact Hs|].
  unfold read_text. rewrite Hfs, utf8_decode_encode. reflexivity.
Qed.

(** X10. After a successful run [conversion_finished] reads back the document
    that [run] composed: the file is found and decodes, and the text differs
    from the document only where a shape text held a carriage return, which
    reading in text mode turns into a line feed. *)
Theorem written_document_reads_back (env : Env) (fs : gmap string string)
    (self : PPTXConverter) :
  succeeded (run env fs self) →
  ∃ prs secs,
    Presentation env fs (pptx_path self) = Returns prs ∧
    sections_from 0 (slides prs) = Returns secs ∧
    let doc := "# " +:+ basename (pptx_path self) +:+ nl +:+ nl +:+ concat_str secs in
    read_text (fs_after fs (run env fs self)) (output_path self)
    = Returns (universal_newlines (codepoints doc)) ∧
    (13%N ∉ codepoints doc →
     read_text (fs_after fs (run env fs self)) (output_path self) = Returns (codepoints doc)).
Proof.
  intros H. destruct (read_text_written env fs self H) as (prs & secs & HP & Hs & Hr).
  exists prs, secs. split; [exact HP|]. split; [exact Hs|]. cbv zeta.
  split; [exact Hr|]. intros Hcr. rewrite Hr. now rewrite universal_newlines_no_cr.
Qed.

Lemma written_document_reads_back_witness :
  let self := PPTXConverter_init "/d/one.pptx" None in
  ∃ prs secs,
    Presentation demo_env demo_fs (pptx_path self) = Returns prs ∧
    sections_from 0 (slides prs) = Returns secs ∧
    let doc := "# " +:+ basename (pptx_path self) +:+ nl +:+ nl +:+ concat_str secs in
    read_text (fs_after demo_fs (run demo_env demo_fs self)) (output_path self)
    = Returns (universal_newlines (codepoints doc)) ∧
    (13%N ∉ codepoints doc →
     read_text (fs_after demo_fs (run demo_env demo_fs self)) (output_path self)
     = Returns (codepoints doc)).
Proof.
  intros self. apply (written_document_reads_back demo_env demo_fs self).
  exists "/d/one.md". vm_compute. set_solver.
Defined.

(** ** The drop area *)

(** X11. [dragEnterEvent] accepts a drag exactly when it announces URLs and the
    local file of the first one ends in [.pptx] (in lower case); the other
    URLs are not looked at.  The widget is highlighted when the drag is
    accepted and left as it is otherwise. *)
Theorem drag_accepted_iff (self w : DropArea) (mime : MimeData) (accepted : bool) :
  dragEnterEvent self mime = Returns (w, accepted) →
  (accepted = true ↔
     hasUrls mime = true ∧ ∃ stem rest, urls mime = (stem +:+ ".pptx") :: rest) ∧
  w = (if accepted then {| drop_style := hover_style |} else self).
Proof.
  unfold dragEnterEvent. destruct (hasUrls mime).
  2:{ intros H. inversion H; subst. split; [|reflexivity]. split; [discriminate|].
      intros [? _]. discriminate. }
  destruct (urls mime) as [|url rest]; [discriminate|].
  destruct (str_endswith url ".pptx") eqn:E; intros H; inversion H; subst.
  - split; [|reflexivity]. split; [|reflexivity]. intros _. split; [reflexivity|].
    apply str_endswith_spec in E as [stem ->]. eauto.
  - split; [|reflexivity]. split; [discriminate|].
    intros [_ (stem & rest' & Heq)]. inversion Heq; subst.
    assert (str_endswith (stem +:+ ".pptx") ".pptx" = true); [|congruence].
    apply str_endswith_spec. eauto.
Qed.

Lemma drag_accepted_iff_witness :
  let mime := {| hasUrls := true; urls := ["/d/talk.pptx"; "/d/notes.txt"] |} in
  (true = true ↔
     hasUrls mime = true ∧ ∃ stem rest, urls mime = (stem +:+ ".pptx") :: rest) ∧
  {| drop_style := hover_style |} = {| drop_style := hover_style |}.
Proof.
  intros mime.
  apply (drag_accepted_iff {| drop_style := idle_style |} {| drop_style := hover_style |}
           mime true).
  reflexivity.
Defined.

(** X12. A drop that follows an accepted drag of the same data does not raise: it
    gives a path ending in [.pptx] to [process_file] and puts the widget back
    to its idle style; the window then holds that path as its current file,
    shows its base name, and its convert button is enabled. *)
Theorem drop_after_accepted_drag (self entered : DropArea) (mime : MimeData) (w : MainWindow) :
  dragEnterEvent self mime = Returns (entered, true) →
  ∃ file_path stem,
    dropEvent entered mime = Returns (file_path, {| drop_style := idle_style |}) ∧
    file_path = stem +:+ ".pptx" ∧
    current_file (process_file w file_path) = Some file_path ∧
    convert_btn_enabled (process_file w file_path) = true ∧
    drop_label (process_file w file_path) = Some (basename file_path).
Proof.
  unfold dragEnterEvent, dropEvent. destruct (hasUrls mime); [|discriminate].
  destruct (urls mime) as [|url rest]; [discriminate|].
  destruct (str_endswith url ".pptx") eqn:E; [|discriminate]. intros _.
  apply str_endswith_spec in E as [stem ->].
  exists (stem +:+ ".pptx"), stem. repeat split; reflexivity.
Qed.

Lemma drop_after_accepted_drag_witness :
  let mime := {| hasUrls := true; urls := ["/d/talk.pptx"; "/d/notes.txt"] |} in
  ∃ file_path stem,
    dropEvent {| drop_style := hover_style |} mime
    = Returns (file_path, {| drop_style := idle_style |}) ∧
    file_path = stem +:+ ".pptx" ∧
    current_file (process_file (MainWindow_init 12) file_path) = Some file_path ∧
    convert_btn_enabled (process_file (MainWindow_init 12) file_path) = true ∧
    drop_label (process_file (MainWindow_init 12) file_path) = Some (basename file_path).
Proof.
  intros mime.
  apply (drop_after_accepted_drag {| drop_style := idle_style |} {| drop_style := hover_style |}
           mime (MainWindow_init 12)).
  reflexivity.
Defined.

(** ** Zooming *)

(** X13. [zoom_text] changes the size of the pane it is given only, never sets a
    size below 10, and a zoom in is undone by a zoom out only from size 10
    on, a zoom out by a zoom in only from size 13 on: below, the pair moves
    the size up to 10 or to 13. *)
Theorem zoom_text_sizes (self : MainWindow) (text_edit : Pane) (direction : Z) :
  (10 <= pointSize (zoom_text self text_edit direction) text_edit)%Z ∧
  pointSize (zoom_text self markdown_pane direction) html_pane = pointSize self html_pane ∧
  pointSize (zoom_text self html_pane direction) markdown_pane = pointSize self markdown_pane ∧
  pointSize (zoom_text (zoom_text self text_edit 1) text_edit (-1)) text_edit
  = Z.max 10 (pointSize self text_edit) ∧
  pointSize (zoom_text (zoom_text self text_edit (-1)) text_edit 1) text_edit
  = Z.max 13 (pointSize self text_edit).
Proof.
  destruct text_edit; cbn [pointSize zoom_text preview_pointSize html_pointSize];
    unfold zoom_size; repeat split; lia.
Qed.

(** ** The window *)

(** X14. [convert_file] starts no thread exactly when no file is selected (none
    yet, or an empty path) or the save dialog is cancelled; the window is
    then left as it was. *)
Theorem convert_file_without_thread (self : MainWindow) (getSaveFileName : string → string) :
  let no_choice :=
    current_file self = None ∨ current_file self = Some "" ∨
    ∃ file, current_file self = Some file ∧ getSaveFileName (splitext_root file +:+ ".md") = "" in
  (snd (convert_file self getSaveFileName) = None ↔ no_choice) ∧
  (convert_file self getSaveFileName = (self, None) ↔ no_choice).
Proof.
  cbv zeta. unfold convert_file. destruct (current_file self) as [file|] eqn:Ef.
  2:{ split; split; auto. }
  destruct file as [|c file]; cbn [str_bool negb].
  { split; split; auto. }
  destruct (getSaveFileName _) as [|c' out] eqn:Eo; cbn [str_bool negb snd fst].
  - split; (split; [|reflexivity]); intros _; right; right; eauto.
  - split; (split; [discriminate|]);
      (intros [H|[H|(f & Hf & Hd)]]; try discriminate; inversion Hf; subst f; congruence).
Qed.

(** X15. [convert_file] that starts a thread: the thread converts the current file
    to the path chosen in the dialog (a chosen path is not empty, so the
    default of [__init__] is never used); the window keeps the thread, shows
    the progress bar at 0 and disables its two buttons. *)
Theorem convert_file_starts_thread (self w : MainWindow) (getSaveFileName : string → string)
    (thread : PPTXConverter) :
  convert_file self getSaveFileName = (w, Some thread) →
  ∃ file,
    current_file self = Some file ∧ file ≠ "" ∧
    pptx_path thread = file ∧
    output_path thread = getSaveFileName (splitext_root file +:+ ".md") ∧
    output_path thread ≠ "" ∧
    converter w = Some thread ∧ current_file w = Some file ∧
    select_btn_enabled w = false ∧ convert_btn_enabled w = false ∧
    progress_bar_visible w = true ∧ progress_bar_value w = 0%Z ∧
    status_message w = status_converting ∧
    dialogs w = dialogs self ∧ preview_text w = preview_text self.
Proof.
  unfold convert_file. destruct (current_file self) as [file|] eqn:Ef; [|discriminate].
  destruct file as [|c file]; cbn [str_bool negb]; [discriminate|].
  destruct (getSaveFileName _) as [|c' out] eqn:Eo; cbn [str_bool negb]; [discriminate|].
  intros H. inversion H; subst. exists (String c file).
  cbn. repeat split; auto; discriminate.
Qed.

Lemma convert_file_starts_thread_witness :
  let self := process_file (MainWindow_init 12) "/d/talk.pptx" in
  let dlg := λ suggested : string, "/out/" +:+ basename suggested in
  ∃ file,
    current_file self = Some file ∧ file ≠ "" ∧
    pptx_path {| pptx_path := "/d/talk.pptx"; output_path := "/out/talk.md" |} = file ∧
    output_path {| pptx_path := "/d/talk.pptx"; output_path := "/out/talk.md" |}
    = dlg (splitext_root file +:+ ".md") ∧
    output_path {| pptx_path := "/d/talk.pptx"; output_path := "/out/talk.md" |} ≠ "" ∧
    converter (fst (convert_file self dlg))
    = Some {| pptx_path := "/d/talk.pptx"; output_path := "/out/talk.md" |} ∧
    current_file (fst (convert_file self dlg)) = Some file ∧
    select_btn_enabled (fst (convert_file self dlg)) = false ∧
    convert_btn_enabled (fst (convert_file self dlg)) = false ∧
    progress_bar_visible (fst (convert_file self dlg)) = true ∧
    progress_bar_value (fst (convert_file self dlg)) = 0%Z ∧
    status_message (fst (convert_file self dlg)) = status_converting ∧
    dialogs (fst (convert_file self dlg)) = dialogs self ∧
    preview_text (fst (convert_file self dlg)) = preview_text self.
Proof.
  intros self dlg.
  apply (convert_file_starts_thread self (fst (convert_file self dlg)) dlg
           {| pptx_path := "/d/talk.pptx"; output_path := "/out/talk.md" |}).
  reflexivity.
Defined.

(** X16. The disabled buttons do not keep a second conversion from starting while
    the first runs: a file dropped on the window enables the convert button
    again (the select button stays disabled and the progress bar visible),
    and a click on it starts a thread for the dropped file, which replaces
    the first thread in [self.converter]. *)
Theorem drop_during_conversion (self w1 : MainWindow) (dialog1 dialog2 : string → string)
    (thread1 : PPTXConverter) (file2 : string) :
  convert_file self dialog1 = (w1, Some thread1) →
  file2 ≠ "" → dialog2 (splitext_root file2 +:+ ".md") ≠ "" →
  let w2 := process_file w1 file2 in
  convert_btn_enabled w2 = true ∧ select_btn_enabled w2 = false ∧
  progress_bar_visible w2 = true ∧ converter w2 = Some thread1 ∧
  ∃ w3 thread2,
    convert_file w2 dialog2 = (w3, Some thread2) ∧
    pptx_path thread2 = file2 ∧ converter w3 = Some thread2.
Proof.
  intros H1 Hf Hd w2.
  assert (Hw1 : select_btn_enabled w1 = false ∧ progress_bar_visible w1 = true
                ∧ converter w1 = Some thread1).
  { unfold convert_file in H1. destruct (current_file self) as [file|]; [|discriminate].
    destruct (negb (str_bool file)); [discriminate|].
    destruct (negb (str_bool (dialog1 _))); [discriminate|].
    inversion H1; subst. auto. }
  destruct Hw1 as (Hs & Hv & Hc).
  repeat split; auto.
  unfold convert_file. cbn [w2 process_file current_file].
  apply str_bool_true in Hf. apply str_bool_true in Hd. rewrite Hf, Hd. cbn [negb].
  eexists _, _. split; [reflexivity|]. split; reflexivity.
Qed.

Lemma drop_during_conversion_witness :
  let self := process_file (MainWindow_init 12) "/d/talk.pptx" in
  let dlg := λ suggested : string, "/out/" +:+ basename suggested in
  let w2 := process_file (fst (convert_file self dlg)) "/d/one.pptx" in
  convert_btn_enabled w2 = true ∧ select_btn_enabled w2 = false ∧
  progress_bar_visible w2 = true ∧
  converter w2 = Some {| pptx_path := "/d/talk.pptx"; output_path := "/out/talk.md" |} ∧
  ∃ w3 thread2,
    convert_file w2 dlg = (w3, Some thread2) ∧
    pptx_path thread2 = "/d/one.pptx" ∧ converter w3 = Some thread2.
Proof.
  intros self dlg.
  apply (drop_during_conversion self (fst (convert_file self dlg)) dlg dlg
           {| pptx_path := "/d/talk.pptx"; output_path := "/out/talk.md" |} "/d/one.pptx");
    [reflexivity | discriminate | discriminate].
Defined.

(** ** Delivering the signals of a run to the window *)

(** The signals of a run: progress signals, then one terminal signal. *)
Lemma run_signals_form (env : Env) (fs : gmap string string) (self : PPTXConverter) :
  ∃ vs t, signals (run env fs self) = (progress_signal <$> vs) ++ [t] ∧
    ((succeeded (run env fs self) ∧ t = finished_signal (output_path self) ∧
      ∃ vs', vs = vs' ++ [100%Z] ∧
        ∃ prs r, Presentation env fs (pptx_path self) = Returns prs ∧
          slides_loop (Z.of_nat (length (slides prs))) 0 (slides prs)
            ("# " +:+ basename (pptx_path self) +:+ nl +:+ nl) = (progress_signal <$> vs', r))
     ∨ (¬ succeeded (run env fs self) ∧ (∃ e, t = error_signal e) ∧
        (vs = [] ∨
         ∃ prs r, Presentation env fs (pptx_path self) = Returns prs ∧
           slides_loop (Z.of_nat (length (slides prs))) 0 (slides prs)
             ("# " +:+ basename (pptx_path self) +:+ nl +:+ nl) = (progress_signal <$> vs, r)))).
Proof.
  assert (Hnot : ∀ vs tail, (∀ x, x ∈ tail → ∀ p, x ≠ Emit (finished_signal p)) →
            ¬ succeeded ((Emit <$> (progress_signal <$> vs)) ++ tail)).
  { intros vs tail Ht [path Hin]. apply elem_of_app in Hin as [Hin|Hin].
    - now apply finished_not_progress in Hin.
    - now apply (Ht _ Hin path). }
  destruct (run_has_shape env fs self) as
    [e HP | prs evs e HP HL | prs evs md e HP HL HW | prs evs md e w HP HL HW | prs evs md HP HL HW].
  - exists [], (error_signal e). split; [reflexivity|]. right. split; [|eauto].
    intros [path Hin]. apply list_elem_of_singleton in Hin. discriminate.
  - destruct (slides_loop_signals _ _ _ _ _ _ HL) as (vs & -> & _).
    exists vs, (error_signal e). rewrite signals_app, signals_emit. split; [reflexivity|].
    right. split; [|eauto 10]. apply (Hnot vs). intros x Hx p.
    apply list_elem_of_singleton in Hx. subst x. discriminate.
  - destruct (slides_loop_signals _ _ _ _ _ _ HL) as (vs & -> & _).
    exists vs, (error_signal e). rewrite signals_app, signals_emit. split; [reflexivity|].
    right. split; [|eauto 10]. apply (Hnot vs). intros x Hx p.
    apply list_elem_of_singleton in Hx. subst x. discriminate.
  - destruct (slides_loop_signals _ _ _ _ _ _ HL) as (vs & -> & _).
    exists vs, (error_signal e). rewrite signals_app, signals_emit. split; [reflexivity|].
    right. split; [|eauto 10]. apply (Hnot vs). intros x Hx p.
    repeat (apply elem_of_cons in Hx as [->|Hx]; [discriminate|]).
    now apply elem_of_nil in Hx.
  - destruct (slides_loop_signals _ _ _ _ _ _ HL) as (vs & -> & _).
    exists (vs ++ [100%Z]), (finished_signal (output_path self)).
    rewrite signals_app, signals_emit. split.
    { rewrite fmap_app, <- app_assoc. reflexivity. }
    left. split; [|eauto 10]. exists (output_path self). set_solver.
Qed.

(** Where the last element of a filtered list comes from. *)
Lemma omap_split_last {A B : Type} (f : A → option B) (l : list A) :
  ∀ (a : list B) (b : B), omap f l = a ++ [b] →
    ∃ pre x post, l = pre ++ x :: post ∧ omap f pre = a ∧ f x = Some b ∧ omap f post = [].
Proof.
  induction l as [|y l IH]; intros a b H.
  - destruct a; discriminate.
  - cbn [omap list_omap] in H. destruct (f y) as [z|] eqn:Ey.
    + destruct a as [|z' a].
      * inversion H; subst. exists [], y, l. auto.
      * inversion H; subst. destruct (IH _ _ H2) as (pre & x & post & -> & Hpre & Hx & Hpost).
        exists (y :: pre), x, post. repeat split; auto.
        cbn [omap list_omap]. rewrite Ey. now rewrite Hpre.
    + destruct (IH _ _ H) as (pre & x & post & -> & Hpre & Hx & Hpost).
      exists (y :: pre), x, post. repeat split; auto.
      cbn [omap list_omap]. now rewrite Ey.
Qed.

Lemma after_events_app (markdown : list N → outcome (list N)) (fs : gmap string string)
    (w : MainWindow) (a b : list UiEvent) :
  after_events markdown fs w (a ++ b)
  = after_events markdown fs (after_events markdown fs w a) b.
Proof. apply foldl_app. Qed.

(** Events other than the terminal signals leave the previews, the message
    boxes, the select button and the visibility of the progress bar alone,
    and do not disable the convert button. *)
Lemma quiet_events_frame (markdown : list N → outcome (list N)) (fs : gmap string string)
    (evs : list UiEvent) :
  ∀ (w : MainWindow) (vs : list Z),
    omap thread_signal evs = progress_signal <$> vs →
    let w' := after_events markdown fs w evs in
    preview_text w' = preview_text w ∧ html_preview w' = html_preview w ∧
    dialogs w' = dialogs w ∧ select_btn_enabled w' = select_btn_enabled w ∧
    progress_bar_visible w' = progress_bar_visible w ∧
    (convert_btn_enabled w = true → convert_btn_enabled w' = true).
Proof.
  induction evs as [|ev evs IH]; intros w vs H; cbv zeta.
  - repeat split; auto.
  - change (after_events markdown fs w (ev :: evs))
      with (after_events markdown fs (handle_event markdown fs w ev) evs).
    destruct ev as [s|file|pane d]; cbn [omap list_omap thread_signal] in H.
    + destruct vs as [|v vs]; [discriminate|]. inversion H; subst.
      destruct (IH (handle_event markdown fs w (from_thread (progress_signal v))) vs H2)
        as (-> & -> & -> & -> & -> & Hc).
      repeat split; auto.
    + destruct (IH (handle_event markdown fs w (file_dropped file)) vs H)
        as (-> & -> & -> & -> & -> & Hc).
      repeat split; auto.
    + destruct (IH (handle_event markdown fs w (zoom_clicked pane d)) vs H)
        as (-> & -> & -> & -> & -> & Hc).
      repeat split; auto.
Qed.

(** X17. Whatever a run does, once its signals have been delivered, in order and
    among drops and zooms, the window is usable again: both buttons are
    enabled, the progress bar is hidden, and one message box was shown. *)
Theorem conversion_restores_interface (markdown : list N → outcome (list N))
    (env : Env) (fs fs' : gmap string string) (thread : PPTXConverter)
    (w : MainWindow) (evs : list UiEvent) :
  omap thread_signal evs = signals (run env fs thread) →
  let w' := after_events markdown fs' w evs in
  select_btn_enabled w' = true ∧ convert_btn_enabled w' = true ∧
  progress_bar_visible w' = false ∧ ∃ box, dialogs w' = dialogs w ++ [box].
Proof.
  intros H. destruct (run_signals_form env fs thread) as (vs & t & Hs & Ht).
  rewrite Hs in H.
  destruct (omap_split_last _ _ _ _ H) as (pre & x & post & -> & Hpre & Hx & Hpost).
  cbv zeta. rewrite after_events_app.
  change (after_events markdown fs' (after_events markdown fs' w pre) (x :: post))
    with (after_events markdown fs' (handle_event markdown fs' (after_events markdown fs' w pre) x) post).
  destruct (quiet_events_frame markdown fs' pre w vs Hpre) as (_ & _ & Hd & _).
  set (w1 := after_events markdown fs' w pre) in *.
  assert (Hterm : select_btn_enabled (handle_event markdown fs' w1 x) = true ∧
                  convert_btn_enabled (handle_event markdown fs' w1 x) = true ∧
                  progress_bar_visible (handle_event markdown fs' w1 x) = false ∧
                  ∃ box, dialogs (handle_event markdown fs' w1 x) = dialogs w1 ++ [box]).
  { destruct x as [s| |]; try discriminate. cbn in Hx. inversion Hx; subst s.
    destruct Ht as [(_ & -> & _)|(_ & [e ->] & _)].
    - cbn [handle_event handle_signal]. unfold conversion_finished.
      destruct (read_text fs' _); [destruct (markdown _)|]; cbn; eauto 10.
    - cbn. eauto 10. }
  destruct Hterm as (H1 & H2 & H3 & box & H4).
  destruct (quiet_events_frame markdown fs' post (handle_event markdown fs' w1 x) [] Hpost)
    as (_ & _ & Hd' & Hs' & Hv' & Hc').
  rewrite Hs', Hv', Hd', H4, Hd, H1, H3. repeat split; eauto.
Qed.

Lemma conversion_restores_interface_witness :
  let thread := {| pptx_path := "/d/talk.pptx"; output_path := "/ro/talk.md" |} in
  let evs := [from_thread (progress_signal 0); file_dropped "/d/one.pptx";
              from_thread (progress_signal 33); zoom_clicked html_pane 1;
              from_thread (progress_signal 66);
              from_thread (error_signal "[Errno 13] Permission denied: '/ro/talk.md'");
              zoom_clicked markdown_pane (-1)] in
  let w := fst (convert_file (process_file (MainWindow_init 12) "/d/talk.pptx")
                  (λ _, "/ro/talk.md")) in
  let w' := after_events demo_markdown demo_fs w evs in
  select_btn_enabled w' = true ∧ convert_btn_enabled w' = true ∧
  progress_bar_visible w' = false ∧ ∃ box, dialogs w' = dialogs w ++ [box].
Proof.
  intros thread evs w.
  apply (conversion_restores_interface demo_markdown demo_env demo_fs demo_fs thread w evs).
  vm_compute. reflexivity.
Defined.

(** The signals of a run split a sequence of events that carries them at the
    terminal one. *)
Lemma events_split (env : Env) (fs : gmap string string) (thread : PPTXConverter)
    (evs : list UiEvent) :
  omap thread_signal evs = signals (run env fs thread) →
  ∃ pre t post vs,
    evs = pre ++ from_thread t :: post ∧
    signals (run env fs thread) = (progress_signal <$> vs) ++ [t] ∧
    omap thread_signal pre = progress_signal <$> vs ∧
    omap thread_signal post = progress_signal <$> [] ∧
    (succeeded (run env fs thread) → t = finished_signal (output_path thread)) ∧
    (¬ succeeded (run env fs thread) → ∃ e, t = error_signal e).
Proof.
  intros H. destruct (run_signals_form env fs thread) as (vs & t & Hs & Ht).
  rewrite Hs in H.
  destruct (omap_split_last _ _ _ _ H) as (pre & x & post & -> & Hpre & Hx & Hpost).
  destruct x as [s| |]; try discriminate. cbn in Hx. inversion Hx; subst s.
  exists pre, t, post, vs. repeat split; auto.
  - intros Hok. destruct Ht as [(_ & -> & _)|(Hno & _)]; [reflexivity | contradiction].
  - intros Hno. destruct Ht as [(Hok & _)|(_ & He & _)]; [contradiction | exact He].
Qed.

(** X18. After a successful run, with the files as the run left them: the Markdown
    pane shows the document that [run] composed (carriage returns read as
    line feeds); when [markdown.markdown] renders it, the HTML pane shows the
    rendering and the success box names the destination; when it raises, the
    HTML pane keeps what it had and a warning box carries the error. *)
Theorem successful_conversion_shows_document (markdown : list N → outcome (list N))
    (env : Env) (fs : gmap string string) (thread : PPTXConverter)
    (w : MainWindow) (evs : list UiEvent) :
  succeeded (run env fs thread) →
  omap thread_signal evs = signals (run env fs thread) →
  let w' := after_events markdown (fs_after fs (run env fs thread)) w evs in
  ∃ prs secs,
    Presentation env fs (pptx_path thread) = Returns prs ∧
    sections_from 0 (slides prs) = Returns secs ∧
    let md_content :=
      universal_newlines (codepoints
        ("# " +:+ basename (pptx_path thread) +:+ nl +:+ nl +:+ concat_str secs)) in
    preview_text w' = md_content ∧
    match markdown md_content with
    | Returns html_content =>
        html_preview w' = Some html_content ∧
        dialogs w' = dialogs w ++ [information (output_path thread)]
    | Raises e =>
        html_preview w' = html_preview w ∧ dialogs w' = dialogs w ++ [warning e]
    end.
Proof.
  intros Hok H. cbv zeta.
  destruct (read_text_written env fs thread Hok) as (prs & secs & HP & Hsec & Hread).
  exists prs, secs. split; [exact HP|]. split; [exact Hsec|].
  destruct (events_split env fs thread evs H)
    as (pre & t & post & vs & -> & _ & Hpre & Hpost & Ht & _).
  rewrite (Ht Hok). clear Ht.
  set (fs' := fs_after fs (run env fs thread)) in *.
  rewrite after_events_app.
  change (after_events markdown fs' (after_events markdown fs' w pre) (from_thread ?s :: post))
    with (after_events markdown fs'
            (handle_event markdown fs' (after_events markdown fs' w pre) (from_thread s)) post).
  destruct (quiet_events_frame markdown fs' pre w vs Hpre) as (Hp & Hh & Hd & _).
  set (w1 := after_events markdown fs' w pre) in *.
  destruct (quiet_events_frame markdown fs' post
              (handle_event markdown fs' w1 (from_thread (finished_signal (output_path thread))))
              [] Hpost) as (-> & -> & -> & _).
  cbn [handle_event handle_signal]. unfold conversion_finished. rewrite Hread.
  destruct (markdown _) as [html|e]; cbn; rewrite ?Hd, ?Hh; auto.
Qed.

Lemma successful_conversion_shows_document_witness :
  let thread := {| pptx_path := "/d/one.pptx"; output_path := "/out/one.md" |} in
  let evs := [from_thread (progress_signal 0); zoom_clicked html_pane 1;
              from_thread (progress_signal 100);
              from_thread (finished_signal "/out/one.md"); file_dropped "/d/talk.pptx"] in
  let w := MainWindow_init 12 in
  let w' := after_events demo_markdown (fs_after demo_fs (run demo_env demo_fs thread)) w evs in
  ∃ prs secs,
    Presentation demo_env demo_fs (pptx_path thread) = Returns prs ∧
    sections_from 0 (slides prs) = Returns secs ∧
    let md_content :=
      universal_newlines (codepoints
        ("# " +:+ basename (pptx_path thread) +:+ nl +:+ nl +:+ concat_str secs)) in
    preview_text w' = md_content ∧
    match demo_markdown md_content with
    | Returns html_content =>
        html_preview w' = Some html_content ∧
        dialogs w' = dialogs w ++ [information (output_path thread)]
    | Raises e =>
        html_preview w' = html_preview w ∧ dialogs w' = dialogs w ++ [warning e]
    end.
Proof.
  intros thread evs w.
  apply (successful_conversion_shows_document demo_markdown demo_env demo_fs thread w evs).
  - exists "/out/one.md". vm_compute. set_solver.
  - vm_compute. reflexivity.
Defined.

(** X19. After a failed run: one critical box carries the message of the run's
    [error_signal], and the two preview panes keep what they showed. *)
Theorem failed_conversion_reports_error (markdown : list N → outcome (list N))
    (env : Env) (fs fs' : gmap string string) (thread : PPTXConverter)
    (w : MainWindow) (evs : list UiEvent) :
  ¬ succeeded (run env fs thread) →
  omap thread_signal evs = signals (run env fs thread) →
  let w' := after_events markdown fs' w evs in
  ∃ msg,
    last (signals (run env fs thread)) = Some (error_signal msg) ∧
    dialogs w' = dialogs w ++ [critical msg] ∧
    preview_text w' = preview_text w ∧ html_preview w' = html_preview w.
Proof.
  intros Hno H. cbv zeta.
  destruct (events_split env fs thread evs H)
    as (pre & t & post & vs & -> & Hs & Hpre & Hpost & _ & Ht).
  destruct (Ht Hno) as [msg ->]. clear Ht. exists msg.
  split. { rewrite Hs. apply last_snoc. }
  rewrite after_events_app.
  change (after_events markdown fs' (after_events markdown fs' w pre) (from_thread ?s :: post))
    with (after_events markdown fs'
            (handle_event markdown fs' (after_events markdown fs' w pre) (from_thread s)) post).
  destruct (quiet_events_frame markdown fs' pre w vs Hpre) as (Hp & Hh & Hd & _).
  set (w1 := after_events markdown fs' w pre) in *.
  destruct (quiet_events_frame markdown fs' post
              (handle_event markdown fs' w1 (from_thread (error_signal msg)))
              [] Hpost) as (-> & -> & -> & _).
  cbn. rewrite Hd, Hp, Hh. auto.
Qed.

Lemma failed_conversion_reports_error_witness :
  let thread := {| pptx_path := "/d/notes.pptx"; output_path := "/out/notes.md" |} in
  let evs := [zoom_clicked html_pane 1; from_thread (error_signal "File is not a zip file")] in
  let w := MainWindow_init 12 in
  let w' := after_events demo_markdown demo_fs w evs in
  ∃ msg,
    last (signals (run demo_env demo_fs thread)) = Some (error_signal msg) ∧
    dialogs w' = dialogs w ++ [critical msg] ∧
    preview_text w' = preview_text w ∧ html_preview w' = html_preview w.
Proof.
  intros thread evs w.
  apply (failed_conversion_reports_error demo_markdown demo_env demo_fs demo_fs thread w evs).
  - intros [path Hin]. vm_compute in Hin.
    repeat (apply elem_of_cons in Hin as [Hin|Hin]; [discriminate|]).
    now apply elem_of_nil in Hin.
  - vm_compute. reflexivity.
Defined.

(** ** The progress bar *)

Lemma window_states_head (markdown : list N → outcome (list N)) (fs : gmap string string)
    (w : MainWindow) (evs : list UiEvent) :
  ∃ tl, window_states markdown fs w evs = w :: tl.
Proof. destruct evs; cbn; eauto. Qed.

Lemma non_decreasing_cons (x : Z) (l : list Z) :
  non_decreasing (x :: l) ↔ (∀ y, head l = Some y → (x <= y)%Z) ∧ non_decreasing l.
Proof.
  destruct l as [|y l]; cbn [non_decreasing head].
  - split; auto. intros _. split; [discriminate | exact I].
  - split.
    + intros [H1 H2]. split; [|exact H2]. intros y' Hy. inversion Hy; subst. exact H1.
    + intros [H1 H2]. split; [|exact H2]. now apply H1.
Qed.

Lemma non_decreasing_app_l (a b : list Z) : non_decreasing (a ++ b) → non_decreasing a.
Proof.
  induction a as [|x a IH]; [intros; exact I|].
  rewrite <- app_comm_cons, !non_decreasing_cons. intros [H1 H2]. split; [|auto].
  intros y Hy. apply H1. destruct a; [discriminate | exact Hy].
Qed.

Lemma last_cons_default (d x : Z) (l : list Z) :
  default d (last (x :: l)) = default x (last l).
Proof. rewrite last_cons. now destruct (last l). Qed.

(** The bar takes the progress values in turn; the other events leave it. *)
Lemma bar_follows (markdown : list N → outcome (list N)) (fs : gmap string string)
    (evs : list UiEvent) :
  ∀ w : MainWindow,
    Forall (λ v, (0 <= v <= 100)%Z) (omap event_progress evs) →
    non_decreasing (progress_bar_value w :: omap event_progress evs) →
    non_decreasing (progress_bar_value <$> window_states markdown fs w evs) ∧
    progress_bar_value (after_events markdown fs w evs)
    = default (progress_bar_value w) (last (omap event_progress evs)).
Proof.
  induction evs as [|ev evs IH]; intros w Hr Hm.
  - split; [exact I | reflexivity].
  - change (after_events markdown fs w (ev :: evs))
      with (after_events markdown fs (handle_event markdown fs w ev) evs).
    cbn [window_states fmap list_fmap].
    destruct (window_states_head markdown fs (handle_event markdown fs w ev) evs) as [tl Htl].
    assert (Hstep : ∀ w', handle_event markdown fs w ev = w' →
              (progress_bar_value w <= progress_bar_value w')%Z →
              Forall (λ v, (0 <= v <= 100)%Z) (omap event_progress evs) →
              non_decreasing (progress_bar_value w' :: omap event_progress evs) →
              non_decreasing (progress_bar_value w
                              :: (progress_bar_value <$> window_states markdown fs w' evs)) ∧
              progress_bar_value (after_events markdown fs w' evs)
              = default (progress_bar_value w') (last (omap event_progress evs))).
    { intros w' Hw' Hle Hr' Hm'. destruct (IH w' Hr' Hm') as [H1 H2]. split; [|exact H2].
      rewrite <- Hw', Htl in *. cbn [fmap list_fmap] in *.
      apply non_decreasing_cons. split; [|exact H1].
      intros y Hy. inversion Hy; subst. exact Hle. }
    destruct ev as [[v|path|msg]|file|pane d]; cbn [omap list_omap event_progress] in Hr, Hm |- *.
    + apply Forall_cons in Hr as [Hv Hr]. apply non_decreasing_cons in Hm as [Hle Hm].
      specialize (Hle v eq_refl).
      assert (Hset : progress_bar_value (handle_event markdown fs w (from_thread (progress_signal v))) = v).
      { cbn. unfold setValue.
        destruct (Z.leb_spec 0 v); destruct (Z.leb_spec v 100); cbn; lia. }
      destruct (Hstep _ eq_refl) as [H1 H2]; rewrite ?Hset; auto.
      split; [exact H1|]. rewrite H2, Hset. symmetry. apply last_cons_default.
    + assert (Hsame : progress_bar_value (handle_event markdown fs w (from_thread (finished_signal path)))
                      = progress_bar_value w).
      { unfold handle_event, handle_signal, conversion_finished.
        destruct (read_text fs path); [destruct (markdown _)|]; reflexivity. }
      destruct (Hstep _ eq_refl) as [H1 H2]; rewrite ?Hsame; auto; [lia|].
      split; [exact H1|]. now rewrite H2, Hsame.
    + destruct (Hstep _ eq_refl) as [H1 H2]; auto. cbn. lia.
    + destruct (Hstep _ eq_refl) as [H1 H2]; auto. cbn. lia.
    + destruct (Hstep _ eq_refl) as [H1 H2]; auto. cbn. lia.
Qed.

Lemma event_progress_thread (evs : list UiEvent) :
  omap event_progress evs = omap progress_value (omap thread_signal evs).
Proof.
  induction evs as [|ev evs IH]; [reflexivity|].
  destruct ev as [[v|path|msg]|file|pane d]; cbn [omap list_omap event_progress thread_signal progress_value];
    now rewrite IH.
Qed.

Lemma progress_value_fmap (vs : list Z) : omap progress_value (progress_signal <$> vs) = vs.
Proof.
  induction vs as [|v vs IH]; [reflexivity|].
  change (v :: omap progress_value (progress_signal <$> vs) = v :: vs). now rewrite IH.
Qed.

(** The progress values of a run over a deck of at most 2^45 slides: within
    0..99 for the slides, non-decreasing, closed by 100 on success only. *)
Lemma run_progress_profile (env : Env) (fs : gmap string string) (self : PPTXConverter) :
  (∀ prs, Presentation env fs (pptx_path self) = Returns prs →
          (Z.of_nat (length (slides prs)) <= 2 ^ 45)%Z) →
  ∃ vs,
    omap progress_value (signals (run env fs self)) = vs ∧
    Forall (λ v, (0 <= v <= 100)%Z) vs ∧ non_decreasing (0%Z :: vs) ∧
    (last vs = Some 100%Z ↔ succeeded (run env fs self)).
Proof.
  intros HN.
  assert (Hloop : ∀ prs r vs,
            Presentation env fs (pptx_path self) = Returns prs →
            slides_loop (Z.of_nat (length (slides prs))) 0 (slides prs)
              ("# " +:+ basename (pptx_path self) +:+ nl +:+ nl) = (progress_signal <$> vs, r) →
            Forall (λ v, (0 <= v <= 99)%Z) vs ∧ non_decreasing (vs ++ [100%Z])).
  { intros prs r vs HP HL. split.
    - apply Forall_lookup. intros i v Hi.
      now destruct (loop_progress_values _ _ _ _ (HN prs HP) HL i v Hi) as (_ & H & _).
    - apply (loop_progress_mono _ _ _ _ (HN prs HP) HL). }
  assert (Hzero : ∀ l, Forall (λ v, (0 <= v <= 100)%Z) l → non_decreasing l →
            non_decreasing (0%Z :: l)).
  { intros l Hl Hm. apply non_decreasing_cons. split; [|exact Hm].
    intros y Hy. destruct l as [|x l]; [discriminate|]. inversion Hy; subst.
    apply Forall_cons in Hl as [Hx _]. lia. }
  destruct (run_signals_form env fs self) as (vs & t & Hs & Ht).
  exists vs. split.
  { rewrite Hs, omap_app, progress_value_fmap.
    destruct Ht as [(_ & -> & _)|(_ & [e ->] & _)]; cbn; apply app_nil_r. }
  destruct Ht as [(Hok & _ & vs' & -> & prs & r & HP & HL)|(Hno & _ & Hvs)].
  - destruct (Hloop prs r vs' HP HL) as [Hr Hm]. repeat split.
    + apply Forall_app. split.
      * eapply Forall_impl; [exact Hr|]. cbn. intros; lia.
      * repeat constructor; lia.
    + apply Hzero; [|exact Hm]. apply Forall_app. split.
      * eapply Forall_impl; [exact Hr|]. cbn. intros; lia.
      * repeat constructor; lia.
    + intros _. exact Hok.
    + intros _. apply last_snoc.
  - assert (Hr : Forall (λ v, (0 <= v <= 99)%Z) vs ∧ non_decreasing vs).
    { destruct Hvs as [->|(prs & r & HP & HL)]; [split; [constructor | exact I]|].
      destruct (Hloop prs r vs HP HL) as [Hr Hm]. split; [exact Hr|].
      now apply non_decreasing_app_l in Hm. }
    destruct Hr as [Hr Hm].
    assert (Hr' : Forall (λ v, (0 <= v <= 100)%Z) vs).
    { eapply Forall_impl; [exact Hr|]. cbn. intros; lia. }
    repeat split; auto.
    + intros Hl. exfalso. apply last_Some in Hl as [l' ->].
      apply Forall_app in Hr as [_ Hr]. apply Forall_cons in Hr as [Hr _]. lia.
    + intros Hok. contradiction.
Qed.

(** X20. From the start of a conversion to its end, drops and zooms in between,
    the progress bar never goes back, and it reaches 100 exactly when the run
    succeeded (for a deck of at most 2^45 slides). *)
Theorem progress_bar_follows_run (markdown : list N → outcome (list N))
    (env : Env) (fs fs' : gmap string string) (self w : MainWindow)
    (getSaveFileName : string → string) (thread : PPTXConverter) (evs : list UiEvent) :
  convert_file self getSaveFileName = (w, Some thread) →
  (∀ prs, Presentation env fs (pptx_path thread) = Returns prs →
          (Z.of_nat (length (slides prs)) <= 2 ^ 45)%Z) →
  omap thread_signal evs = signals (run env fs thread) →
  non_decreasing (progress_bar_value <$> window_states markdown fs' w evs) ∧
  (progress_bar_value (after_events markdown fs' w evs) = 100%Z
   ↔ succeeded (run env fs thread)).
Proof.
  intros Hc HN Hevs.
  assert (H0 : progress_bar_value w = 0%Z).
  { unfold convert_file in Hc. destruct (current_file self) as [file|]; [|discriminate].
    destruct (negb (str_bool file)); [discriminate|].
    destruct (negb (str_bool (getSaveFileName _))); [discriminate|].
    inversion Hc; subst. reflexivity. }
  destruct (run_progress_profile env fs thread HN) as (vs & Hvs & Hr & Hm & Hlast).
  assert (Hev : omap event_progress evs = vs).
  { now rewrite event_progress_thread, Hevs. }
  destruct (bar_follows markdown fs' evs w) as [H1 H2].
  { now rewrite Hev. }
  { now rewrite Hev, H0. }
  split; [exact H1|]. rewrite H2, Hev, H0, <- Hlast.
  destruct (last vs) as [x|]; cbn; split; intros H; try congruence; discriminate.
Qed.

Lemma progress_bar_follows_run_witness :
  let self := process_file (MainWindow_init 12) "/d/talk.pptx" in
  let dlg := λ suggested : string, "/out/" +:+ basename suggested in
  let thread := {| pptx_path := "/d/talk.pptx"; output_path := "/out/talk.md" |} in
  let w := fst (convert_file self dlg) in
  let evs := [from_thread (progress_signal 0); file_dropped "/d/one.pptx";
              from_thread (progress_signal 33); zoom_clicked html_pane 1;
              from_thread (progress_signal 66); from_thread (progress_signal 100);
              from_thread (finished_signal "/out/talk.md")] in
  non_decreasing (progress_bar_value <$> window_states demo_markdown demo_fs w evs) ∧
  (progress_bar_value (after_events demo_markdown demo_fs w evs) = 100%Z
   ↔ succeeded (run demo_env demo_fs thread)).
Proof.
  intros self dlg thread w evs.
  apply (progress_bar_follows_run demo_markdown demo_env demo_fs demo_fs self w dlg thread evs).
  - reflexivity.
  - intros prs HP.
    assert (E : Returns prs = Returns deck3) by (rewrite <- HP; vm_compute; reflexivity).
    inversion E; subst. vm_compute. discriminate.
  - vm_compute. reflexivity.
Defined.
